(** * coppafish: structuring elements, neighbour counting, OMP spot detection

    A shallow embedding of
    - [iss/utils/morphology.py]  ([Strel], [ensure_odd_kernel], [dilate], [imfilter]),
    - [iss/omp/spots.py]         ([count_spot_neighbours], [cropped_coef_image],
                                  [spot_neighbourhood], [get_spots]),
    - [iss/pipeline/omp.py]      (the pixel filter and the duplicate removal of
                                  [call_spots_omp]),
    followed by the properties of these functions.

    Conventions of the embedding.
    - numpy integer arrays are nested lists of [Z]: a 2-D array is a list of
      rows, a 3-D array a list of rows of z-columns ([a[y][x][z]]).
    - Coefficient images hold floats in the source.  The modelled code only
      compares them with 0 (and with [coef_thresh]), so they are arrays of [Z];
      the 0/1 images that are correlated are small integers held in float32,
      whose sums are exact.
    - Radii of [Strel.annulus] and tile coordinates are floats in the source
      and exact rationals ([Q]) here.
    - Python exceptions are values of type [error]; a function that may raise
      returns a [result]. *)

From Stdlib Require Import ZArith QArith Qround Qabs Lia Lqa.
From stdpp Require Import base option list numbers strings sorting.

Local Open Scope Z_scope.

(** ** Exceptions *)

Inductive error : Type :=
| ValueError (msg : string)
| OutOfBoundsError (var : string) (val lo hi : list Z)
| ShapeError (var : string)
| IndexError
| KeyError
| RuntimeError.

Inductive result (A : Type) : Type :=
| Ok (a : A)
| Err (e : error).
Arguments Ok {A} a.
Arguments Err {A} e.

#[global] Instance result_ret : MRet result := fun _ a => Ok a.
#[global] Instance result_bind : MBind result :=
  fun _ _ f m => match m with Ok a => f a | Err e => Err e end.

(** [for x in l: acc = f(acc, x)], stopping at the first exception. *)
Fixpoint foldM {A B} (f : B → A → result B) (acc : B) (l : list A) : result B :=
  match l with
  | [] => Ok acc
  | x :: l' => acc' ← f acc x; foldM f acc' l'
  end.

(** [[f(x) for x in l]], stopping at the first exception. *)
Fixpoint mapM_res {A B} (f : A → result B) (l : list A) : result (list B) :=
  match l with
  | [] => Ok []
  | x :: l' => y ← f x; ys ← mapM_res f l'; Ok (y :: ys)
  end.

(** ** numpy arrays *)

Inductive ndarray : Type :=
| Arr2 (a : list (list Z))
| Arr3 (a : list (list (list Z))).

Definition ndim (a : ndarray) : Z :=
  match a with Arr2 _ => 2 | Arr3 _ => 3 end.

Definition shape2 {A} (a : list (list A)) : list Z :=
  [Z.of_nat (length a); Z.of_nat (length (default [] (head a)))].

Definition shape3 {A} (a : list (list (list A))) : list Z :=
  Z.of_nat (length a) :: shape2 (default [] (head a)).

Definition shape (a : ndarray) : list Z :=
  match a with Arr2 a => shape2 a | Arr3 a => shape3 a end.

(** Python indexing of an axis of length [n]: negative indices count from
    the end, anything else out of range is an [IndexError]. *)
Definition py_index (n : nat) (i : Z) : option nat :=
  if (0 <=? i) && (i <? Z.of_nat n) then Some (Z.to_nat i)
  else if (- Z.of_nat n <=? i) && (i <? 0) then Some (Z.to_nat (Z.of_nat n + i))
  else None.

Definition py_get {A} (l : list A) (i : Z) : option A :=
  k ← py_index (length l) i; l !! k.

Definition of_option {A} (e : error) (o : option A) : result A :=
  match o with Some a => Ok a | None => Err e end.

(** [a[y, x]] and [a[y, x, z]]. *)
Definition get2 (a : list (list Z)) (y x : Z) : result Z :=
  of_option IndexError (r ← py_get a y; py_get r x).

Definition get3 (a : list (list (list Z))) (y x z : Z) : result Z :=
  of_option IndexError (p ← py_get a y; r ← py_get p x; py_get r z).

(** [a[y, x] = v] and [a[y, x, z] = v]. *)
Definition set2 (a : list (list Z)) (y x v : Z) : result (list (list Z)) :=
  of_option IndexError
    (i ← py_index (length a) y;
     r ← a !! i;
     j ← py_index (length r) x;
     Some (<[i := <[j := v]> r]> a)).

Definition set3 (a : list (list (list Z))) (y x z v : Z)
  : result (list (list (list Z))) :=
  of_option IndexError
    (i ← py_index (length a) y;
     p ← a !! i;
     j ← py_index (length p) x;
     r ← p !! j;
     k ← py_index (length r) z;
     Some (<[i := <[j := <[k := v]> r]> p]> a)).

(** [np.zeros((n_y, n_x))] and [np.zeros((n_y, n_x, n_z))], more generally
    [np.full]. *)
Definition full2 {A} (n_y n_x : Z) (v : A) : list (list A) :=
  replicate (Z.to_nat n_y) (replicate (Z.to_nat n_x) v).

Definition full3 {A} (n_y n_x n_z : Z) (v : A) : list (list (list A)) :=
  replicate (Z.to_nat n_y) (full2 n_x n_z v).

(** Element-wise operations. *)
Definition map2 {A B} (f : A → B) (a : list (list A)) : list (list B) :=
  (fun r : list A => f <$> r) <$> a.

Definition map3 {A B} (f : A → B) (a : list (list (list A)))
  : list (list (list B)) :=
  map2 f <$> a.

Definition zip2 {A B C} (f : A → B → C) (a : list (list A)) (b : list (list B))
  : list (list C) :=
  zip_with (zip_with f) a b.

Definition zip3 {A B C} (f : A → B → C)
  (a : list (list (list A))) (b : list (list (list B)))
  : list (list (list C)) :=
  zip_with (zip2 f) a b.

Definition sumZ (l : list Z) : Z := foldr Z.add 0 l.

(** [np.sum(a)] *)
Definition sum2 (a : list (list Z)) : Z := sumZ (sumZ <$> a).
Definition sum3 (a : list (list (list Z))) : Z := sumZ (sum2 <$> a).

Definition np_sum (a : ndarray) : Z :=
  match a with Arr2 a => sum2 a | Arr3 a => sum3 a end.

(** [np.sum(a == v)] for a whole array. *)
Definition count_eq (v : Z) (a : ndarray) : Z :=
  match a with
  | Arr2 a => sum2 (map2 (fun x => Z.b2z (x =? v)) a)
  | Arr3 a => sum3 (map3 (fun x => Z.b2z (x =? v)) a)
  end.

Definition amap (f : Z → Z) (a : ndarray) : ndarray :=
  match a with Arr2 a => Arr2 (map2 f a) | Arr3 a => Arr3 (map3 f a) end.

(** [np.arange(lo, hi)] *)
Definition arange (lo hi : Z) : list Z := seqZ lo (hi - lo).

(** [np.meshgrid(a, b)] with the default ['xy'] indexing: both outputs have
    shape [(len b, len a)]; the first varies along axis 1, the second along
    axis 0. *)
Definition meshgrid2 (a b : list Z) : list (list Z) * list (list Z) :=
  ((fun _ => a) <$> b, (fun bi => (fun _ => bi) <$> a) <$> b).

(** [np.meshgrid(a, b, c)]: the outputs have shape [(len b, len a, len c)]. *)
Definition meshgrid3 (a b c : list Z)
  : list (list (list Z)) * list (list (list Z)) * list (list (list Z)) :=
  ((fun _ => (fun aj => (fun _ => aj) <$> c) <$> a) <$> b,
   (fun bi => (fun _ => (fun _ => bi) <$> c) <$> a) <$> b,
   (fun _ => (fun _ => c) <$> a) <$> b).

(** A fold over a list together with the position of each element
    ([for i, x in enumerate(l)]). *)
Fixpoint ifoldr {A B} (op : B → B → B) (e : B) (f : nat → A → B)
  (i : nat) (l : list A) : B :=
  match l with
  | [] => e
  | x :: l' => op (f i x) (ifoldr op e f (S i) l')
  end.

Definition isum {A} (f : nat → A → Z) (l : list A) : Z :=
  ifoldr Z.add 0 f 0%nat l.

(** [max(|x| for x in l)]; numpy raises on an empty array. *)
Definition max_abs (l : list Z) : result Z :=
  match l with
  | [] => Err (ValueError "zero-size array to reduction operation maximum")
  | x :: l' => Ok (foldr Z.max (Z.abs x) (Z.abs <$> l'))
  end.

(** The value of a padded array: [cval] outside the array. *)
Definition getpad2 {A} (cval : A) (a : list (list A)) (y x : Z) : A :=
  if (0 <=? y) && (0 <=? x)
  then default cval (r ← a !! Z.to_nat y; r !! Z.to_nat x)
  else cval.

Definition getpad3 {A} (cval : A) (a : list (list (list A))) (y x z : Z) : A :=
  if (0 <=? y) && (0 <=? x) && (0 <=? z)
  then default cval (p ← a !! Z.to_nat y; r ← p !! Z.to_nat x; r !! Z.to_nat z)
  else cval.

Definition width {A} (a : list (list A)) : nat := length (default [] (head a)).
Definition depth {A} (a : list (list (list A))) : nat := width (default [] (head a)).

(** * iss/utils/morphology.py *)

(** ** [Strel.periodic_line] *)

Definition periodic_line (p : Z) (v : Z * Z) : result (list (list Z)) :=
  let pp := arange (- p) (p + 1) in
  let r := (fun k => k * v.1) <$> pp in
  let c := (fun k => k * v.2) <$> pp in
  mr ← max_abs r;
  mc ← max_abs c;
  let M := 2 * mr + 1 in
  let N := 2 * mc + 1 in
  foldM (fun nhood rc => set2 nhood (rc.1 + mr) (rc.2 + mc) 1)
        (full2 M N 0) (zip r c).

(** ** [ensure_odd_kernel]

    [pad_location] is ['start'] ([at_start = true]) or ['end']. *)

Definition pad1 {A} (at_start : bool) (z : A) (l : list A) : list A :=
  if at_start then z :: l else l ++ [z].

Definition ensure_odd_kernel2 (at_start : bool) (k : list (list Z))
  : list (list Z) :=
  let k1 := if Nat.even (width k) then pad1 at_start 0 <$> k else k in
  if Nat.even (length k) then pad1 at_start (replicate (width k1) 0) k1 else k1.

Definition ensure_odd_kernel3 (at_start : bool) (k : list (list (list Z)))
  : list (list (list Z)) :=
  let k1 := if Nat.even (depth k)
            then (fun p : list (list Z) => pad1 at_start 0 <$> p) <$> k else k in
  let k2 := if Nat.even (width k1)
            then pad1 at_start (replicate (depth k1) 0) <$> k1 else k1 in
  if Nat.even (length k2)
  then pad1 at_start (replicate (width k2) (replicate (depth k2) 0)) k2
  else k2.

Definition ensure_odd_kernel (at_start : bool) (k : ndarray) : ndarray :=
  match k with
  | Arr2 k => Arr2 (ensure_odd_kernel2 at_start k)
  | Arr3 k => Arr3 (ensure_odd_kernel3 at_start k)
  end.

(** ** [top_hat] *)

Section TopHat.

(** [cv2.morphologyEx(image, cv2.MORPH_TOPHAT, kernel)] *)
Variable morphologyEx : list (list Z) → list (list Z) → list (list Z).


End TopHat.

(** ** [dilate]: [scipy.ndimage.grey_dilation] with a footprint

    The image dilated by [Strel.disk] holds [-inf], so its values are
    extended integers. *)

Inductive ext : Type := NegInf | Fin (v : Z).

Definition ext_max (a b : ext) : ext :=
  match a, b with
  | NegInf, _ => b
  | _, NegInf => a
  | Fin x, Fin y => Fin (Z.max x y)
  end.

Definition ext_pos (a : ext) : bool :=
  match a with NegInf => false | Fin x => 0 <? x end.

Definition flip2 {A} (k : list (list A)) : list (list A) :=
  reverse ((fun r : list A => reverse r) <$> k).

(** Maximum filter with footprint [fp] centred at [shape // 2]; values
    outside the image are [cval]. *)
Definition max_filter2 (fp : list (list Z)) (cval : ext) (a : list (list ext))
  : list (list ext) :=
  let ch := Z.of_nat (length fp) / 2 in
  let cw := Z.of_nat (width fp) / 2 in
  imap (fun i (row : list ext) =>
    imap (fun j (_ : ext) =>
      ifoldr ext_max NegInf (fun u (kr : list Z) =>
        ifoldr ext_max NegInf (fun v (kv : Z) =>
          if kv =? 0 then NegInf
          else getpad2 cval a (Z.of_nat i + Z.of_nat u - ch)
                              (Z.of_nat j + Z.of_nat v - cw))
          0%nat kr) 0%nat fp) row) a.

(** scipy reverses the footprint and takes the maximum under it;
    [mode='constant'] pads with [cval = 0.0]. *)
Definition grey_dilation (fp : list (list Z)) (a : list (list ext))
  : list (list ext) :=
  max_filter2 (flip2 fp) (Fin 0) a.

Definition dilate (image : list (list ext)) (kernel : list (list Z))
  : list (list ext) :=
  grey_dilation (ensure_odd_kernel2 true kernel) image.

(** [cv2.dilate] of a uint8 image: the maximum under the non-zero kernel
    cells, anchored at the kernel centre; pixels outside the image are
    ignored. *)
Definition cv2_dilate (src : list (list Z)) (kernel : list (list Z))
  : list (list Z) :=
  let ay := Z.of_nat (length kernel) / 2 in
  let ax := Z.of_nat (width kernel) / 2 in
  imap (fun i (row : list Z) =>
    imap (fun j (_ : Z) =>
      ifoldr Z.max 0 (fun u (kr : list Z) =>
        ifoldr Z.max 0 (fun v (kv : Z) =>
          if kv =? 0 then 0
          else getpad2 0 src (Z.of_nat i + Z.of_nat u - ay)
                             (Z.of_nat j + Z.of_nat v - ax))
          0%nat kr) 0%nat kernel) row) src.

(** ** [Strel.disk] *)

Definition disk_basis (n : Z) : result (list (Z * Z)) :=
  if n =? 4 then Ok [(1, 0); (1, 1); (0, 1); (-1, 1)]
  else if n =? 6 then Ok [(1, 0); (1, 2); (2, 1); (0, 1); (-1, 2); (-2, 1)]
  else if n =? 8 then
    Ok [(1, 0); (2, 1); (1, 1); (1, 2); (0, 1); (-1, 2); (-1, 1); (-2, 1)]
  else Err (ValueError "Value of n provided is not 0, 4, 6 or 8.").

Section Disk.

(** [repetition r n v] stands for the floating-point expression
    [int(np.floor(k / np.linalg.norm(v)))] with
    [k = 2 * r / (1 / tan(theta) + 1 / sin(theta))] and
    [theta = pi / (2 * n)]. *)
Variable repetition : Z → Z → Z * Z → Z.

Definition disk (r n : Z) : result (list (list Z)) :=
  let n := if r <? 3 then 0 else n in
  if n =? 0 then
    let '(xx, yy) := meshgrid2 (arange (- r) (r + 1)) (arange (- r) (r + 1)) in
    let nhood := zip2 (fun x y => x ^ 2 + y ^ 2 <=? r ^ 2) xx yy in
    Ok (map2 Z.b2z nhood)
  else
    v ← disk_basis n;
    let nhood0 := full2 (2 * r - 1) (2 * r - 1) NegInf in
    let c := Z.to_nat ((2 * r - 1 - 1) / 2) in
    let nhood1 := alter (fun row => <[c := Fin 1]> row) c nhood0 in
    nhood ← foldM (fun nhood vq =>
                     decomposition ← periodic_line (repetition r n vq) vq;
                     Ok (dilate nhood decomposition))
                  nhood1 v;
    let nhood := map2 ext_pos nhood in
    let empty_rows :=
      sumZ ((fun row => Z.b2z (sumZ (Z.b2z <$> row) =? 0)) <$> nhood) in
    let extra_strel_size := empty_rows + 1 in
    if 0 <? extra_strel_size then
      let nhood := cv2_dilate (map2 Z.b2z nhood) (full2 1 extra_strel_size 1) in
      let nhood := cv2_dilate nhood (full2 extra_strel_size 1 1) in
      Ok (map2 (fun x => Z.b2z (0 <? x)) nhood)
    else Ok (map2 Z.b2z nhood).

End Disk.

(** ** [Strel.disk_3d] *)

Definition disk_3d (r_xy r_z : Z) : list (list (list Z)) :=
  let '(y, x, z) := meshgrid3 (arange (- r_xy) (r_xy + 1))
                              (arange (- r_xy) (r_xy + 1))
                              (arange (- r_z) (r_z + 1)) in
  let se := zip3 (fun xy z => xy + z ^ 2 <=? r_xy ^ 2)
                 (zip3 (fun x y => x ^ 2 + y ^ 2) x y) z in
  map3 Z.b2z se.

(** ** [Strel.annulus] *)

(** The radii are Python floats: IEEE 754 binary64 numbers, each of which
    is a rational.  [r ** 2] is the exact square rounded to the nearest
    binary64 number, a tie going to the even significand: the significand
    has 53 bits, and no bit is kept below [2^-1074] (the subnormal numbers).
    A rounded square of [2^1024] or more is an overflow, on which Python
    raises; the model leaves the overflow out, and the properties of the
    comparisons are stated for squares below [2^1024]. *)

(** [floor (log2 x)], for [0 < x]. *)
Definition Qlog2 (x : Q) : Z :=
  let e := Z.log2 (Qnum x) - Z.log2 (Z.pos (Qden x)) in
  if Qle_bool (2 ^ e) x then e else e - 1.

(** The nearest integer, a tie going to the even one. *)
Definition round_half_even (q : Q) : Z :=
  let f := Qfloor q in
  match (q - inject_Z f ?= 1 # 2)%Q with
  | Lt => f
  | Eq => if Z.even f then f else f + 1
  | Gt => f + 1
  end.

(** The nearest binary64 number. *)
Definition round_binary64 (x : Q) : Q :=
  if Qeq_bool x 0 then 0%Q
  else
    let e := Z.max (Qlog2 (Qabs x) - 52) (-1074) in
    (inject_Z (round_half_even (x / 2 ^ e)) * 2 ^ e)%Q.

(** [r ** 2] *)
Definition float_square (r : Q) : Q := round_binary64 (r * r).

(** [r_xy ** 2 >= m] and [m > r0 ** 2]: the integer [m] is compared with
    the floats as a float itself, which it is exactly below [2^53]. *)
Definition in_annulus (r0 r_xy : Q) (m : Z) : bool :=
  Qle_bool (inject_Z m) (float_square r_xy)
  && negb (Qle_bool (inject_Z m) (float_square r0)).

Definition annulus (r0 r_xy : Q) (r_z : option Q) : ndarray :=
  let r_xy1_int := Qfloor r_xy in
  match r_z with
  | None =>
      let '(y, x) := meshgrid2 (arange (- r_xy1_int) (r_xy1_int + 1))
                               (arange (- r_xy1_int) (r_xy1_int + 1)) in
      let m := zip2 (fun x y => x ^ 2 + y ^ 2) x y in
      Arr2 (map2 (fun m => Z.b2z (in_annulus r0 r_xy m)) m)
  | Some r_z =>
      let r_z1_int := Qfloor r_z in
      let '(y, x, z) := meshgrid3 (arange (- r_xy1_int) (r_xy1_int + 1))
                                  (arange (- r_xy1_int) (r_xy1_int + 1))
                                  (arange (- r_z1_int) (r_z1_int + 1)) in
      let m := zip3 (fun xy z => xy + z ^ 2)
                    (zip3 (fun x y => x ^ 2 + y ^ 2) x y) z in
      Arr3 (map3 (fun m => Z.b2z (in_annulus r0 r_xy m)) m)
  end.

(** ** [imfilter]

    [scipy.ndimage.correlate] with [mode='constant']: the kernel is centred
    at [shape // 2] and values outside the image are [cval]. *)

Definition correlate2 (cval : Z) (a k : list (list Z)) : list (list Z) :=
  let ch := Z.of_nat (length k) / 2 in
  let cw := Z.of_nat (width k) / 2 in
  imap (fun i (row : list Z) =>
    imap (fun j (_ : Z) =>
      isum (fun u (kr : list Z) =>
        isum (fun v (kv : Z) =>
          kv * getpad2 cval a (Z.of_nat i + Z.of_nat u - ch)
                              (Z.of_nat j + Z.of_nat v - cw)) kr) k) row) a.

Definition correlate3 (cval : Z) (a k : list (list (list Z)))
  : list (list (list Z)) :=
  let ch := Z.of_nat (length k) / 2 in
  let cw := Z.of_nat (width k) / 2 in
  let cd := Z.of_nat (depth k) / 2 in
  imap (fun i (plane : list (list Z)) =>
    imap (fun j (row : list Z) =>
      imap (fun l (_ : Z) =>
        isum (fun u (kp : list (list Z)) =>
          isum (fun v (kr : list Z) =>
            isum (fun w (kv : Z) =>
              kv * getpad3 cval a (Z.of_nat i + Z.of_nat u - ch)
                                  (Z.of_nat j + Z.of_nat v - cw)
                                  (Z.of_nat l + Z.of_nat w - cd)) kr) kp) k)
        row) plane) a.

(** scipy refuses a kernel whose rank differs from the image's. *)
Definition correlate (cval : Z) (image kernel : ndarray) : result ndarray :=
  match image, kernel with
  | Arr2 a, Arr2 k => Ok (Arr2 (correlate2 cval a k))
  | Arr3 a, Arr3 k => Ok (Arr3 (correlate3 cval a k))
  | _, _ => Err RuntimeError
  end.

Definition flip3 {A} (k : list (list (list A))) : list (list (list A)) :=
  reverse ((fun p : list (list A) => flip2 p) <$> k).

Definition flip (k : ndarray) : ndarray :=
  match k with Arr2 k => Arr2 (flip2 k) | Arr3 k => Arr3 (flip3 k) end.

(** [imfilter(image, kernel, padding, corr_or_conv)] for a numeric [padding];
    [conv = false] is ['corr'], the default.  Convolution is correlation
    with the reversed kernel. *)
Definition imfilter (image kernel : ndarray) (padding : Z) (conv : bool)
  : result ndarray :=
  if conv
  then correlate padding image (flip (ensure_odd_kernel false kernel))
  else correlate padding image (ensure_odd_kernel true kernel).

(** * iss/omp/spots.py *)

Abbreviation yx := (Z * Z)%type (only parsing).
Abbreviation yxz := (Z * Z * Z)%type (only parsing).

(** [spot_yxz]: an integer array with one row per spot and 2 or 3 columns. *)
Inductive spots : Type :=
| Yx (l : list yx)
| Yxz (l : list yxz).

Definition n_spots (s : spots) : nat :=
  match s with Yx l => length l | Yxz l => length l end.

(** The rows of [spot_yxz], as lists of coordinates. *)
Definition spot_rows (s : spots) : list (list Z) :=
  match s with
  | Yx l => (fun p : yx => [p.1; p.2]) <$> l
  | Yxz l => (fun p : yxz => [p.1.1; p.1.2; p.2]) <$> l
  end.

(** [spot_yxz[:, -1]] *)
Definition last_column (s : spots) : list Z :=
  match s with
  | Yx l => (fun p : yx => p.2) <$> l
  | Yxz l => (fun p : yxz => p.2) <$> l
  end.

(** [np.mean(a, axis=a.ndim - 1)], used by the source only when the last
    axis has length 1, where the mean of a column is its single entry. *)
Definition mean_last_axis (a : list (list (list Z))) : list (list Z) :=
  map2 (fun col : list Z => default 0 (head col)) a.

(** [a[:, :, k]] *)
Definition plane (a : list (list (list Z))) (k : Z) : result (list (list Z)) :=
  mapM_res (fun p : list (list Z) =>
    mapM_res (fun col : list Z => of_option IndexError (py_get col k)) p) a.

(** [np.isin(a, [0, 1]).all()] *)
Definition is_binary (a : ndarray) : bool :=
  let ok := fun x : Z => (x =? 0) || (x =? 1) in
  match a with
  | Arr2 a => forallb (forallb ok) a
  | Arr3 a => forallb (forallb (forallb ok)) a
  end.

(** A 3-D filter with a single z-plane is flattened for a 2-D image. *)
Definition flatten_filter (image filter : ndarray) : ndarray :=
  match image, filter with
  | Arr2 _, Arr3 f => if Z.of_nat (depth f) =? 1 then Arr2 (mean_last_axis f) else filter
  | _, _ => filter
  end.

(** [any(val > max_yxz)], with numpy's broadcasting of the two vectors. *)
Definition any_gt (val max_yxz : list Z) : result bool :=
  if Nat.eqb (length val) (length max_yxz)
  then Ok (existsb (fun vm : Z * Z => vm.2 <? vm.1) (zip val max_yxz))
  else Err (ValueError "operands could not be broadcast together").

Definition min_list (l : list Z) : Z :=
  match l with [] => 0 | x :: l' => foldr Z.min x l' end.

(** [[val for val in spot_yxz if val.min() < 0 or any(val > max_yxz)]] *)
Fixpoint spot_oob (rows : list (list Z)) (max_yxz : list Z)
  : result (list (list Z)) :=
  match rows with
  | [] => Ok []
  | val :: rows' =>
      out ← (if min_list val <? 0 then Ok true else any_gt val max_yxz);
      rest ← spot_oob rows' max_yxz;
      Ok (if out : bool then val :: rest else rest)
  end.

(** [2D image provided but 3D filter asked for. Using the middle plane]. *)
Definition middle_plane (image filter : ndarray) : result ndarray :=
  match image, filter with
  | Arr2 _, Arr3 f => p ← plane f (Z.of_nat (depth f) / 2); Ok (Arr2 p)
  | _, _ => Ok filter
  end.

(** [filtered[tuple([spot_yxz[:, j] for j in range(image.ndim)])]] *)
Definition sample (filtered : ndarray) (s : spots) : result (list Z) :=
  match filtered, s with
  | Arr2 a, Yx l => mapM_res (fun p : yx => get2 a p.1 p.2) l
  | Arr2 a, Yxz l => mapM_res (fun p : yxz => get2 a p.1.1 p.1.2) l
  | Arr3 a, Yxz l => mapM_res (fun p : yxz => get3 a p.1.1 p.1.2 p.2) l
  | Arr3 a, Yx l => Err IndexError
  end.

Definition positive (x : Z) : Z := Z.b2z (0 <? x).
Definition negative (x : Z) : Z := Z.b2z (x <? 0).

(** The neighbours of one sign: threshold the image, pick the middle plane
    of a 3-D filter on a 2-D image, correlate and read off the spots. *)
Definition count_sign (sign : Z → Z) (image : ndarray) (s : spots)
  (filter : ndarray) : result (list Z) :=
  let sign_image := amap sign image in
  filter ← middle_plane sign_image filter;
  neighbour_image ← imfilter sign_image filter 0 false;
  sample neighbour_image s.

Definition count_spot_neighbours (image : ndarray) (spot_yxz : spots)
  (pos_filter : ndarray) (neg_filter : option ndarray)
  : result (list Z * option (list Z)) :=
  (* Image 2D but spots 3D *)
  zmax ← max_abs (last_column spot_yxz);
  let spot_yxz :=
    match image, spot_yxz with
    | Arr2 _, Yxz l => if zmax =? 0 then Yx ((fun p : yxz => p.1) <$> l) else spot_yxz
    | _, _ => spot_yxz
    end in
  (* Image 3D but spots 2D *)
  let image :=
    match image, spot_yxz with
    | Arr3 a, Yx _ => if Z.of_nat (depth a) =? 1 then Arr2 (mean_last_axis a) else image
    | _, _ => image
    end in
  (* Image 2D but filter 3D *)
  let pos_filter := flatten_filter image pos_filter in
  neg_filter ←
    match neg_filter with
    | None => Ok None
    | Some f =>
        let f := flatten_filter image f in
        if is_binary f then Ok (Some f)
        else Err (ValueError "neg_filter contains values other than 0 or 1.")
    end;
  if negb (is_binary pos_filter)
  then Err (ValueError "pos_filter contains values other than 0 or 1.")
  else
    (* Check all spots in image *)
    let max_yxz := (fun n => n - 1) <$> shape image in
    oob ← spot_oob (spot_rows spot_yxz) max_yxz;
    match oob with
    | val :: _ =>
        Err (OutOfBoundsError "spot_yxz" val ((fun _ => 0) <$> max_yxz) max_yxz)
    | [] =>
        n_pos_neighbours ← count_sign positive image spot_yxz pos_filter;
        match neg_filter with
        | None => Ok (n_pos_neighbours, None)
        | Some neg_filter =>
            n_neg_neighbours ← count_sign negative image spot_yxz neg_filter;
            Ok (n_pos_neighbours, Some n_neg_neighbours)
        end
    end.

(** ** [cropped_coef_image] *)

(** [pixel_coefs] is a csr column ([sparse = true]) or a dense vector.  The
    non-zero entries are paired with their pixel locations; a dense boolean
    mask must be as long as [pixel_yxz], and the non-zero row numbers of a
    sparse column must exist in [pixel_yxz]. *)
Definition nonzero_pixels (sparse : bool) (pixel_yxz : list yxz)
  (pixel_coefs : list Z) : result (list (yxz * Z)) :=
  let indexable :=
    if sparse then forallb (fun v => v =? 0) (drop (length pixel_yxz) pixel_coefs)
    else Nat.eqb (length pixel_coefs) (length pixel_yxz) in
  if indexable
  then Ok (filter (fun pv : yxz * Z => pv.2 ≠ 0) (zip pixel_yxz pixel_coefs))
  else Err IndexError.

Definition zip_yxz (f : Z → Z → Z) (p q : yxz) : yxz :=
  (f p.1.1 q.1.1, f p.1.2 q.1.2, f p.2 q.2).

(** [a.min(axis=0)] and [a.max(axis=0)] of an [n x 3] array. *)
Definition reduce_axis0 (f : Z → Z → Z) (msg : string) (a : list yxz)
  : result yxz :=
  match a with
  | [] => Err (ValueError msg)
  | p :: a' => Ok (foldr (zip_yxz f) p a')
  end.

Definition min_axis0 :=
  reduce_axis0 Z.min "zero-size array to reduction operation minimum".
Definition max_axis0 :=
  reduce_axis0 Z.max "zero-size array to reduction operation maximum".

Definition cropped_coef_image (pixel_yxz : list yxz) (sparse : bool)
  (pixel_coefs : list Z) : result (ndarray * yxz) :=
  nz ← nonzero_pixels sparse pixel_yxz pixel_coefs;
  let nz_pixel_coefs := nz.*2 in
  let nz_pixel_yxz := nz.*1 in
  (* shift nz_pixel_yxz so min is 0 in each axis *)
  coord_shift ← min_axis0 nz_pixel_yxz;
  let nz_pixel_yxz := (fun p => zip_yxz Z.sub p coord_shift) <$> nz_pixel_yxz in
  top ← max_axis0 nz_pixel_yxz;
  let '(n_y, n_x, n_z) := zip_yxz Z.add top (1, 1, 1) in
  if n_z =? 1 then
    coef_image ← foldM (fun im (pv : yxz * Z) => set2 im pv.1.1.1 pv.1.1.2 pv.2)
                       (full2 n_y n_x 0) (zip nz_pixel_yxz nz_pixel_coefs);
    Ok (Arr2 coef_image, coord_shift)
  else
    coef_image ← foldM (fun im (pv : yxz * Z) =>
                          set3 im pv.1.1.1 pv.1.1.2 pv.1.2 pv.2)
                       (full3 n_y n_x n_z 0) (zip nz_pixel_yxz nz_pixel_coefs);
    Ok (Arr3 coef_image, coord_shift).

(** ** The coefficient matrix

    [pixel_coefs] is an [n_pixels x n_genes] matrix, a [csr_matrix]
    ([sparse = true]) or a dense array. *)
Record coef_matrix : Type := {
  sparse : bool;
  n_genes : nat;
  coef_rows : list (list Z)
}.

Definition n_pixels (m : coef_matrix) : nat := length (coef_rows m).

(** [pixel_coefs[:, g]] *)
Definition column (m : coef_matrix) (g : nat) : list Z :=
  (fun row : list Z => default 0 (row !! g)) <$> coef_rows m.

(** [a[mask]] for a boolean mask as long as [a]. *)
Fixpoint select {A} (mask : list bool) (a : list A) : list A :=
  match mask, a with
  | b :: mask', x :: a' => if b then x :: select mask' a' else select mask' a'
  | _, _ => []
  end.

(** [np.where(mask)[0]] *)
Definition where_true (mask : list bool) : list nat :=
  select mask (seq 0 (length mask)).

(** [use[np.where(use)[0][np.invert(g_use)]] = False] *)
Fixpoint refine (use g_use : list bool) : list bool :=
  match use with
  | [] => []
  | false :: use' => false :: refine use' g_use
  | true :: use' =>
      match g_use with
      | [] => true :: use'
      | b :: g_use' => b :: refine use' g_use'
      end
  end.

(** [a[mask] = values]: the values fill the selected rows in order; numpy
    refuses a different number of values. *)
Fixpoint assign_where {A} (mask : list bool) (values : list A) (a : list A)
  : result (list A) :=
  match mask, a with
  | b :: mask', x :: a' =>
      if b then
        match values with
        | [] => Err (ValueError "shape mismatch")
        | v :: values' => r ← assign_where mask' values' a'; Ok (v :: r)
        end
      else r ← assign_where mask' values a'; Ok (x :: r)
  | _, _ =>
      match values with
      | [] => Ok a
      | _ :: _ => Err (ValueError "shape mismatch")
      end
  end.

(** ** [spot_neighbourhood] *)

(** [np.ceil(np.sqrt(pos_neighbour_thresh))], made odd. *)
Definition pos_filter_shape_yx (pos_neighbour_thresh : Z) : Z :=
  let s := Z.sqrt_up pos_neighbour_thresh in
  if s mod 2 =? 0 then s + 1 else s.

(** The filter of expected positive coefficients around a spot: the whole
    middle z-plane, and the centre of the plane above and below in 3-D. *)
Definition make_pos_filter (pos_neighbour_thresh n_z : Z)
  : result (list (list (list Z))) :=
  let shape_yx := pos_filter_shape_yx pos_neighbour_thresh in
  let shape_z := if n_z <=? 2 then 1 else 3 in
  let pos_filter := full3 shape_yx shape_yx shape_z 0 in
  let mid_z := Z.to_nat (shape_z / 2) in
  let pos_filter := map2 (fun col : list Z => <[mid_z := 1]> col) pos_filter in
  if shape_z =? 3 then
    let mid_yx := shape_yx / 2 in
    pos_filter ← set3 pos_filter mid_yx mid_yx 0 1;
    set3 pos_filter mid_yx mid_yx 2 1
  else Ok pos_filter.

(** [max_size[2] = 1] for a single z-plane, then every even size is
    increased by one.  [max_size] has three entries ([int [3]]). *)
Definition odd_max_size (max_size : list Z) (n_z : Z) : result (list Z) :=
  let make_odd := fun s => if s mod 2 =? 0 then s + 1 else s in
  if n_z =? 1 then
    if 2 <? Z.of_nat (length max_size)
    then Ok (make_odd <$> <[2%nat := 1]> max_size)
    else Err IndexError
  else Ok (make_odd <$> max_size).

(** Lines 213-218: the sign image of gene [g], the spots of the gene in the
    coordinates of that image, and their numbers of positive neighbours. *)
Definition positive_neighbours (pixel_coefs : coef_matrix) (pixel_yxz : list yxz)
  (spot_yxz : list yxz) (use : list bool) (pos_filter : list (list (list Z)))
  (g : nat) : result (ndarray * list yxz * list Z) :=
  '(coef_image, coord_shift) ←
      cropped_coef_image pixel_yxz (sparse pixel_coefs) (column pixel_coefs g);
  let coef_sign_image := amap Z.sgn coef_image in
  let g_spot_yxz :=
    (fun p => zip_yxz Z.sub p coord_shift) <$> select use spot_yxz in
  counts ← count_spot_neighbours coef_sign_image (Yxz g_spot_yxz)
                                 (Arr3 pos_filter) None;
  Ok (coef_sign_image, g_spot_yxz, counts.1).

Definition any (mask : list bool) : bool := existsb id mask.

Definition nan_to_num (patch : list (list (list (option Z))))
  : list (list (list Z)) :=
  map3 (default 0) patch.

Section SpotNeighbourhood.

(** Routines of [iss/extract/deconvolution.py]: the patch of the image
    around each spot ([None] is nan), the isolated points of a list, and
    the average of the patches. *)
Variable get_spot_images :
  ndarray → list yxz → list Z → list (list (list (list (option Z)))).
Variable get_isolated_points : list (Q * Q * Q) → Q → list bool.
Variable get_average_spot_image :
  list (list (list (list Z))) → list (list (list Q)).

(** One pass of the loop over genes; the state is
    [(spot_images, spots_used)]. *)
Definition collect_gene (pixel_coefs : coef_matrix) (pixel_yxz spot_yxz : list yxz)
  (spot_gene_no : list Z) (pos_filter : list (list (list Z)))
  (max_size : list Z)
  (st : list (list (list (list Z))) * list bool) (g : nat)
  : result (list (list (list (list Z))) * list bool) :=
  let '(spot_images, spots_used) := st in
  let use := (fun gene => gene =? Z.of_nat g) <$> spot_gene_no in
  if any use then
    '(coef_sign_image, g_spot_yxz, n_pos_neighb) ←
        positive_neighbours pixel_coefs pixel_yxz spot_yxz use pos_filter g;
    (* Only keep spots with all neighbourhood having positive coefficient. *)
    let g_use := (fun n => n =? sum3 pos_filter) <$> n_pos_neighb in
    let use := refine use g_use in
    if any use then
      let patches :=
        nan_to_num <$>
          get_spot_images coef_sign_image (select g_use g_spot_yxz) max_size in
      spot_images ← assign_where use patches spot_images;
      Ok (spot_images, zip_with orb use spots_used)
    else Ok (spot_images, spots_used)
  else Ok (spot_images, spots_used).

(** The threshold on the mean sign, then the sign. *)
Definition sign_of_mean (mean_sign_thresh mean : Q) : Z :=
  if Qle_bool mean_sign_thresh (Qabs mean)
  then (match Qcompare mean 0 with Lt => -1 | Eq => 0 | Gt => 1 end)
  else 0.

Definition all_zero2 (a : list (list Z)) : bool :=
  forallb (forallb (fun v => v =? 0)) a.

(** The three crops that remove every z-plane, every column and every row
    that is entirely zero. *)
Definition crop_zeros (a : list (list (list Z))) : list (list (list Z)) :=
  let keep_z :=
    (fun k => negb (all_zero2
       ((fun p : list (list Z) => (fun col : list Z => default 0 (col !! k)) <$> p) <$> a)))
    <$> seq 0 (depth a) in
  let a := map2 (select keep_z) a in
  let keep_x :=
    (fun j => negb (all_zero2
       ((fun p : list (list Z) => default [] (p !! j)) <$> a)))
    <$> seq 0 (width a) in
  let a := (fun p : list (list Z) => select keep_x p) <$> a in
  let keep_y := (fun p => negb (all_zero2 p)) <$> a in
  select keep_y a.

Definition spot_neighbourhood (pixel_coefs : coef_matrix)
  (pixel_yxz spot_yxz : list yxz) (spot_gene_no : list Z) (max_size : list Z)
  (pos_neighbour_thresh : Z) (isolation_dist z_scale mean_sign_thresh : Q)
  : result (list (list (list Z)) * list nat * list (list (list Q))) :=
  if negb (Nat.eqb (length pixel_yxz) (n_pixels pixel_coefs))
  then Err (ShapeError "pixel_yxz")
  else if negb (Nat.eqb (length spot_yxz) (length spot_gene_no))
  then Err (ShapeError "spot_yxz")
  else
    top ← max_axis0 pixel_yxz;
    let n_z := top.2 + 1 in
    if pos_neighbour_thresh <? 0
    then Err (ValueError "negative dimensions are not allowed")
    else
      pos_filter ← make_pos_filter pos_neighbour_thresh n_z;
      max_size ← odd_max_size max_size n_z;
      '(n0, n1, n2) ← (match max_size with
                       | [n0; n1; n2] => Ok (n0, n1, n2)
                       | _ => Err (ValueError "max_size")
                       end);
      let spot_images := replicate (length spot_gene_no) (full3 n0 n1 n2 0) in
      let spots_used := replicate (length spot_gene_no) false in
      '(spot_images, spots_used) ←
          foldM (collect_gene pixel_coefs pixel_yxz spot_yxz spot_gene_no
                              pos_filter max_size)
                (spot_images, spots_used) (seq 0 (n_genes pixel_coefs));
      if negb (any spots_used)
      then Err (ValueError "No spots found to make average spot image from.")
      else
        let spot_images := select spots_used spot_images in
        let scaled :=
          (fun p : yxz => (inject_Z p.1.1, inject_Z p.1.2,
                           (inject_Z p.2 * z_scale)%Q))
          <$> select spots_used spot_yxz in
        let isolated := get_isolated_points scaled isolation_dist in
        if negb (Nat.eqb (length isolated) (length spot_images))
        then Err IndexError
        else
          let av_spot_image_float :=
            get_average_spot_image (select isolated spot_images) in
          let spot_indices_used := select isolated (where_true spots_used) in
          let av_spot_image :=
            crop_zeros (map3 (sign_of_mean mean_sign_thresh) av_spot_image_float) in
          Ok (av_spot_image, spot_indices_used, av_spot_image_float).

End SpotNeighbourhood.

(** ** [get_spots] *)

(** A row of [spot_info]: position, gene and, when a spot shape is given,
    the numbers of positive and negative neighbours. *)
Definition spot_info_row : Type := Z * Z * Z * Z * option (Z * Z).

(** [numpy_indexed.indices(pixel_yxz, [p])]: the row of [pixel_yxz] equal to
    [p]; a missing row is a [KeyError]. *)
Definition indices (pixel_yxz : list yxz) (p : yxz) : result nat :=
  of_option KeyError (fst <$> list_find (fun q => q = p) pixel_yxz).

(** The validation of [spot_shape] and [pos_neighbour_thresh]
    (lines 313-327); the result is [(pos_filter, neg_filter)]. *)
Definition shape_filters (spot_shape : option ndarray) (pos_neighbour_thresh : Z)
  : result (option (ndarray * ndarray)) :=
  match spot_shape with
  | None => Ok None
  | Some spot_shape =>
      if count_eq 1 spot_shape =? 0
      then Err (ValueError "spot_shape contains no pixels with a value of 1")
      else if count_eq (-1) spot_shape =? 0
      then Err (ValueError "spot_shape contains no pixels with a value of -1")
      else
        let pos_filter := amap positive spot_shape in
        if (pos_neighbour_thresh <? 0) || (np_sum pos_filter <=? pos_neighbour_thresh)
        then Err (OutOfBoundsError "pos_neighbour_thresh" [pos_neighbour_thresh]
                                   [0] [np_sum pos_filter - 1])
        else Ok (Some (pos_filter, amap negative spot_shape))
  end.

(** [spot_info_g[:, :coef_image.ndim] = spot_yxz[keep]] followed by the
    shift back; numpy refuses rows whose length is not the image's rank. *)
Definition place_spots (coef_image : ndarray) (spot_yxz : spots)
  (keep : list bool) (coord_shift : yxz) : result (list yxz) :=
  match coef_image, spot_yxz with
  | Arr2 _, Yx l =>
      Ok ((fun p : yx => zip_yxz Z.add (p.1, p.2, 0) coord_shift) <$> select keep l)
  | Arr3 _, Yxz l =>
      Ok ((fun p : yxz => zip_yxz Z.add p coord_shift) <$> select keep l)
  | _, _ => Err (ValueError "could not broadcast input array")
  end.

Section GetSpots.

(** [detect_spots(image, intensity_thresh, radius_xy, radius_z)] of
    [iss/find_spots], and the sample drawn by
    [np.random.choice(range(n), k, replace=False)]. *)
Variable detect_spots : ndarray → Z → Z → option Z → spots.
Variable choice : nat → nat → list nat.

(** Lines 329-338: the coefficient of a sample of the given spots must
    exceed [coef_thresh]. *)
Definition check_spot_yxzg (pixel_coefs : coef_matrix) (pixel_yxz : list yxz)
  (coef_thresh : Z) (spot_yxzg : list (yxz * Z)) : result unit :=
  let n := length spot_yxzg in
  let spots_to_check := choice n (Nat.min 500 n) in
  checked ← mapM_res (fun i => of_option IndexError (spot_yxzg !! i))
                     spots_to_check;
  spot_coefs_check ←
    mapM_res (fun sg : yxz * Z =>
                pixel_index ← indices pixel_yxz sg.1;
                of_option IndexError
                  (row ← coef_rows pixel_coefs !! pixel_index; py_get row sg.2))
             checked;
  match spot_coefs_check with
  | [] => Err (ValueError "zero-size array to reduction operation minimum")
  | c :: cs =>
      if foldr Z.min c cs <=? coef_thresh
      then Err (ValueError "spot_yxzg provided but coefficient is not more than coef_thresh")
      else Ok ()
  end.

(** Lines 346-352: the spots of gene [g] in the coordinates of its cropped
    image, detected as local maxima or taken from [spot_yxzg]. *)
Definition gene_candidates (radius_xy : Z) (radius_z : option Z) (coef_thresh : Z)
  (spot_yxzg : option (list (yxz * Z))) (coef_image : ndarray)
  (coord_shift : yxz) (g : nat) : spots :=
  match spot_yxzg with
  | None => detect_spots coef_image coef_thresh radius_xy radius_z
  | Some given =>
      Yxz ((fun sg : yxz * Z => zip_yxz Z.sub sg.1 coord_shift)
           <$> filter (fun sg : yxz * Z => sg.2 = Z.of_nat g) given)
  end.

(** The body of the loop over genes: the rows of [spot_info] of gene [g]. *)
Definition gene_spots (pixel_coefs : coef_matrix) (pixel_yxz : list yxz)
  (radius_xy : Z) (radius_z : option Z) (coef_thresh : Z)
  (filters : option (ndarray * ndarray)) (pos_neighbour_thresh : Z)
  (spot_yxzg : option (list (yxz * Z))) (g : nat)
  : result (list spot_info_row) :=
  '(coef_image, coord_shift) ←
      cropped_coef_image pixel_yxz (sparse pixel_coefs) (column pixel_coefs g);
  let spot_yxz :=
    gene_candidates radius_xy radius_z coef_thresh spot_yxzg coef_image
                    coord_shift g in
  if (0 <? n_spots spot_yxz)%nat then
    '(keep, neighbours) ←
        match filters with
        | None => Ok (replicate (n_spots spot_yxz) true,
                      replicate (n_spots spot_yxz) None)
        | Some (pos_filter, neg_filter) =>
            n ← count_spot_neighbours coef_image spot_yxz pos_filter
                                      (Some neg_filter);
            let n_pos_neighb := n.1 in
            let n_neg_neighb := default [] n.2 in
            let keep := (fun c => pos_neighbour_thresh <? c) <$> n_pos_neighb in
            Ok (keep, Some <$> zip (select keep n_pos_neighb)
                                   (select keep n_neg_neighb))
        end;
    placed ← place_spots coef_image spot_yxz keep coord_shift;
    Ok (zip_with (fun (p : yxz) nb => (p.1.1, p.1.2, p.2, Z.of_nat g, nb))
                 placed neighbours)
  else Ok [].

(** The result is [spot_info]; the source returns its columns
    [spot_info[:, :3]], [spot_info[:, 3]] and, with a spot shape,
    [spot_info[:, 4]] and [spot_info[:, 5]]. *)
Definition get_spots (pixel_coefs : coef_matrix) (pixel_yxz : list yxz)
  (radius_xy : Z) (radius_z : option Z) (coef_thresh : Z)
  (spot_shape : option ndarray) (pos_neighbour_thresh : Z)
  (spot_yxzg : option (list (yxz * Z))) : result (list spot_info_row) :=
  if negb (Nat.eqb (length pixel_yxz) (n_pixels pixel_coefs))
  then Err (ShapeError "pixel_yxz")
  else
    filters ← shape_filters spot_shape pos_neighbour_thresh;
    _ ← match spot_yxzg with
        | None => Ok ()
        | Some given => check_spot_yxzg pixel_coefs pixel_yxz coef_thresh given
        end;
    foldM (fun spot_info g =>
             spot_info_g ← gene_spots pixel_coefs pixel_yxz radius_xy radius_z
                                      coef_thresh filters pos_neighbour_thresh
                                      spot_yxzg g;
             Ok (spot_info ++ spot_info_g))
          [] (seq 0 (n_genes pixel_coefs)).

End GetSpots.

(** * iss/pipeline/omp.py, [call_spots_omp] *)

(** Lines 47-52: the central tile [t_centre] (chosen by
    [scale.select_tile]) is moved to the front of the tiles to process, by
    exchanging it with the first tile. *)
Definition centre_first (use_tiles : list Z) (t_centre : Z) : result (list Z) :=
  t_centre_ind ←
    of_option IndexError (fst <$> list_find (fun t => t = t_centre) use_tiles);
  first ← of_option IndexError (use_tiles !! 0%nat);
  centre ← of_option IndexError (use_tiles !! t_centre_ind);
  Ok (<[t_centre_ind := first]> (<[0%nat := centre]> use_tiles)).

(** Lines 89-94: of the pixels of one z-plane, keep those for which at
    least one gene has a non-zero coefficient, and append them to the
    pixels of the tile. *)
Definition keep_pixel (coefs : list Z) : bool :=
  0 <? foldr Z.max 0 (Z.abs <$> coefs).

Definition append_plane (tile : list yxz * list (list Z))
  (plane : list yxz * list (list Z)) : list yxz * list (list Z) :=
  let keep := keep_pixel <$> plane.2 in
  (tile.1 ++ select keep plane.1, tile.2 ++ select keep plane.2).

(** The pixels of a tile, from the locations and coefficients that the
    solver returned for each z-plane. *)
Definition tile_pixels (n_genes : nat) (planes : list (list yxz * list (list Z)))
  : list yxz * coef_matrix :=
  let t := foldl append_plane ([], []) planes in
  (t.1, {| sparse := true; n_genes := n_genes; coef_rows := t.2 |}).

(** Lines 129-139: the duplicate spots are those detected on a tile whose
    centre is not the one they are closest to, in the yx plane. *)

Definition dist2 (p c : Q * Q) : Q :=
  ((p.1 - c.1) ^ 2 + (p.2 - c.2) ^ 2)%Q.

Definition add_q3 (p q : Q * Q * Q) : Q * Q * Q :=
  ((p.1.1 + q.1.1)%Q, (p.1.2 + q.1.2)%Q, (p.2 + q.2)%Q).

Definition q3_of_yxz (p : yxz) : Q * Q * Q :=
  (inject_Z p.1.1, inject_Z p.1.2, inject_Z p.2).

Section Duplicates.

(** [NearestNeighbors(n_neighbors=1).fit(centres).kneighbors(p)]: the row
    of the centre nearest to [p]. *)
Variable kneighbors : list (Q * Q) → Q * Q → nat.

(** A spot is its local position and the tile it was found on
    (columns 0-2 and 6 of [spot_info]). *)
Definition spot_global_yxz (tile_origin : list (Q * Q * Q)) (spot : yxz * Z)
  : result (Q * Q * Q) :=
  origin ← of_option IndexError (py_get tile_origin spot.2);
  Ok (add_q3 (q3_of_yxz spot.1) origin).

(** sklearn refuses to fit, and to query, an array without rows. *)
Definition not_duplicate (tile_origin : list (Q * Q * Q))
  (tile_centre : Q * Q * Q) (spot_info : list (yxz * Z))
  : result (list bool) :=
  let tile_centres := (fun o => add_q3 o tile_centre) <$> tile_origin in
  match tile_centres with
  | [] => Err (ValueError "Found array with 0 sample(s)")
  | _ :: _ =>
      let tree_tiles := (fun c : Q * Q * Q => c.1) <$> tile_centres in
      spot_global ← mapM_res (spot_global_yxz tile_origin) spot_info;
      match spot_global with
      | [] => Err (ValueError "Found array with 0 sample(s)")
      | _ :: _ =>
          let all_nearest_tile :=
            (fun p : Q * Q * Q => kneighbors tree_tiles p.1) <$> spot_global in
          Ok (zip_with (fun nearest (spot : yxz * Z) =>
                          Z.of_nat nearest =? spot.2)
                       all_nearest_tile spot_info)
      end
  end.

(** [spot_info[not_duplicate]] *)
Definition remove_duplicates (tile_origin : list (Q * Q * Q))
  (tile_centre : Q * Q * Q) (spot_info : list (yxz * Z))
  : result (list (yxz * Z)) :=
  keep ← not_duplicate tile_origin tile_centre spot_info;
  Ok (select keep spot_info).

End Duplicates.

(** A nearest-neighbour search: the first centre at the least distance. *)
Fixpoint nearest_from (centres : list (Q * Q)) (p : Q * Q) (i best : nat)
  (d : Q) : nat :=
  match centres with
  | [] => best
  | c :: centres' =>
      if Qle_bool d (dist2 p c) then nearest_from centres' p (S i) best d
      else nearest_from centres' p (S i) i (dist2 p c)
  end.

Definition brute_kneighbors (centres : list (Q * Q)) (p : Q * Q) : nat :=
  match centres with
  | [] => 0%nat
  | c :: centres' => nearest_from centres' p 1%nat 0%nat (dist2 p c)
  end.

(** * Vocabulary of the properties *)

(** Rectangular nested lists, as every numpy array is. *)
Definition rect2 {A} (h w : nat) (a : list (list A)) : Prop :=
  length a = h ∧ Forall (fun r => length r = w) a.

Definition rect3 {A} (h w d : nat) (a : list (list (list A))) : Prop :=
  length a = h ∧ Forall (rect2 w d) a.

Definition rect (a : ndarray) : Prop :=
  match a with
  | Arr2 a => rect2 (length a) (width a) a
  | Arr3 a => rect3 (length a) (width a) (depth a) a
  end.

(** The cell of an array at natural-number indices. *)
Definition at2 {A} (a : list (list A)) (i j : nat) : option A :=
  r ← a !! i; r !! j.

Definition at3 {A} (a : list (list (list A))) (i j k : nat) : option A :=
  p ← a !! i; r ← p !! j; r !! k.

(** Every extent of a shape is odd. *)
Definition odd_extents (shape : list Z) : Prop :=
  Forall (fun n => Z.odd n = true) shape.

(** The value of a mask at the offset [(d0, d1)] from the cell [centre] of
    both axes; 0 outside the mask. *)
Definition mask_at (a : list (list Z)) (centre d0 d1 : Z) : Z :=
  getpad2 0 a (centre + d0) (centre + d1).

(** The pixels with a non-zero coefficient, each with its coefficient. *)
Definition nz_pixels (pixel_yxz : list yxz) (pixel_coefs : list Z)
  : list (yxz * Z) :=
  filter (fun pv : yxz * Z => pv.2 ≠ 0) (zip pixel_yxz pixel_coefs).

(** The corner of the bounding box of a list of points: in each axis it is
    a bound of the list (for the order [le]) that some point attains. *)
Definition corner (le : Z → Z → Prop) (m : yxz) (l : list yxz) : Prop :=
  (∀ p, p ∈ l → le m.1.1 p.1.1 ∧ le m.1.2 p.1.2 ∧ le m.2 p.2)
  ∧ (∃ p, p ∈ l ∧ p.1.1 = m.1.1)
  ∧ (∃ p, p ∈ l ∧ p.1.2 = m.1.2)
  ∧ (∃ p, p ∈ l ∧ p.2 = m.2).

Definition lower_corner := corner Z.le.
Definition upper_corner := corner Z.ge.

(** The cell of a volume at a position, with the convention that a volume
    with a single z-plane is a 2-D array: a 2-D array has the cells
    [(y, x, 0)]. *)
Definition voxel (v : ndarray) (k : yxz) : option Z :=
  if (0 <=? k.1.1) && (0 <=? k.1.2) && (0 <=? k.2) then
    match v with
    | Arr2 a => if k.2 =? 0 then at2 a (Z.to_nat k.1.1) (Z.to_nat k.1.2) else None
    | Arr3 a => at3 a (Z.to_nat k.1.1) (Z.to_nat k.1.2) (Z.to_nat k.2)
    end
  else None.

(** The extent of a volume in y, x and z. *)
Definition extent (v : ndarray) : yxz :=
  match v with
  | Arr2 a => (Z.of_nat (length a), Z.of_nat (width a), 1)
  | Arr3 a => (Z.of_nat (length a), Z.of_nat (width a), Z.of_nat (depth a))
  end.

(** A position inside a volume of the given extent. *)
Definition inside (dims k : yxz) : Prop :=
  0 ≤ k.1.1 < dims.1.1 ∧ 0 ≤ k.1.2 < dims.1.2 ∧ 0 ≤ k.2 < dims.2.

(** Positions inside an image. *)
Definition inb2 (a : list (list Z)) (y x : Z) : bool :=
  (0 <=? y) && (y <? Z.of_nat (length a))
  && (0 <=? x) && (x <? Z.of_nat (width a)).

Definition inb3 (a : list (list (list Z))) (y x z : Z) : bool :=
  (0 <=? y) && (y <? Z.of_nat (length a))
  && (0 <=? x) && (x <? Z.of_nat (width a))
  && (0 <=? z) && (z <? Z.of_nat (depth a)).

Definition in_bounds (image : ndarray) (spot : list Z) : bool :=
  match image, spot with
  | Arr2 a, [y; x] => inb2 a y x
  | Arr3 a, [y; x; z] => inb3 a y x z
  | _, _ => false
  end.

(** The footprint of a mask at a spot lies inside the image: every non-zero
    cell of the kernel that [imfilter] correlates with (the mask made odd),
    centred at the spot, is over a pixel of the image. *)
Definition footprint_inside (image mask : ndarray) (spot : list Z) : bool :=
  match image, mask, spot with
  | Arr2 a, Arr2 m, [y; x] =>
      let k := ensure_odd_kernel2 true m in
      let ch := Z.of_nat (length k) / 2 in
      let cw := Z.of_nat (width k) / 2 in
      ifoldr andb true (fun u (kr : list Z) =>
        ifoldr andb true (fun v (kv : Z) =>
          (kv =? 0) || inb2 a (y + Z.of_nat u - ch) (x + Z.of_nat v - cw))
          0%nat kr) 0%nat k
  | Arr3 a, Arr3 m, [y; x; z] =>
      let k := ensure_odd_kernel3 true m in
      let ch := Z.of_nat (length k) / 2 in
      let cw := Z.of_nat (width k) / 2 in
      let cd := Z.of_nat (depth k) / 2 in
      ifoldr andb true (fun u (kp : list (list Z)) =>
        ifoldr andb true (fun v (kr : list Z) =>
          ifoldr andb true (fun w (kv : Z) =>
            (kv =? 0) || inb3 a (y + Z.of_nat u - ch) (x + Z.of_nat v - cw)
                                (z + Z.of_nat w - cd))
            0%nat kr) 0%nat kp) 0%nat k
  | _, _, _ => false
  end.

(** Every cell of an array satisfies [P]. *)
Definition all_cells (P : Z → Prop) (a : ndarray) : Prop :=
  match a with
  | Arr2 a => Forall (Forall P) a
  | Arr3 a => Forall (Forall (Forall P)) a
  end.

(** The number of cells of an array. *)
Definition n_cells (a : ndarray) : Z := foldr Z.mul 1 (shape a).

(** An image, a mask and spots of the same rank. *)
Definition same_rank (image mask : ndarray) (s : spots) : Prop :=
  match image, mask, s with
  | Arr2 _, Arr2 _, Yx _ => True
  | Arr3 _, Arr3 _, Yxz _ => True
  | _, _, _ => False
  end.

(** The rows of [spot_info] of the spots of gene [g], at the positions
    [placed] on the tile, whose number of positive neighbours exceeds
    [thresh]. *)
Fixpoint retained (thresh : Z) (g : nat) (placed : list yxz)
  (n_pos n_neg : list Z) : list spot_info_row :=
  match placed, n_pos, n_neg with
  | p :: placed', c :: n_pos', d :: n_neg' =>
      if thresh <? c
      then (p.1.1, p.1.2, p.2, Z.of_nat g, Some (c, d))
           :: retained thresh g placed' n_pos' n_neg'
      else retained thresh g placed' n_pos' n_neg'
  | _, _, _ => []
  end.

(** ** A small tile

    Ten pixels of one gene in two z-planes: a 3 x 3 plane whose centre has a
    negative coefficient, and one pixel above the centre. *)
Definition example_coefs : coef_matrix :=
  {| sparse := true; n_genes := 1;
     coef_rows := [[1]; [2]; [3]; [4]; [-1]; [1]; [1]; [1]; [1]; [1]] |}.

Definition example_yxz : list yxz :=
  [(0, 0, 0); (0, 1, 0); (0, 2, 0); (1, 0, 0); (1, 1, 0); (1, 2, 0);
   (2, 0, 0); (2, 1, 0); (2, 2, 0); (1, 1, 1)].

(** A detector that always reports three spots, and the sample of the
    first [k] spots. *)
Definition example_detect_spots (image : ndarray) (thresh radius_xy : Z)
  (radius_z : option Z) : spots :=
  Yxz [(0, 0, 0); (1, 0, 0); (1, 1, 0)].

Definition example_choice (n k : nat) : list nat := seq 0 k.

(** [spot_gene_no == g] *)
Definition gene_mask (spot_gene_no : list Z) (g : nat) : list bool :=
  (fun gene => gene =? Z.of_nat g) <$> spot_gene_no.

(** Spot [s] has [c] positive neighbours under [pos_filter]: it is the
    [k]-th spot of its gene [g], and [c] is the [k]-th count that
    [count_spot_neighbours] returns for the spots of the gene on the sign
    image of the gene. *)
Definition positive_count (pixel_coefs : coef_matrix) (pixel_yxz spot_yxz : list yxz)
  (spot_gene_no : list Z) (pos_filter : list (list (list Z)))
  (s : nat) (c : Z) : Prop :=
  ∃ g coef_sign_image g_spot_yxz counts k,
    spot_gene_no !! s = Some (Z.of_nat g)
    ∧ positive_neighbours pixel_coefs pixel_yxz spot_yxz
        (gene_mask spot_gene_no g) pos_filter g
      = Ok (coef_sign_image, g_spot_yxz, counts)
    ∧ where_true (gene_mask spot_gene_no g) !! k = Some s
    ∧ counts !! k = Some c.

(** Stand-ins for the routines of [iss/extract/deconvolution.py]: a patch of
    one pixel for every spot, every spot isolated, a one-pixel average. *)
Definition example_get_spot_images (image : ndarray) (spot_yxz : list yxz)
  (max_size : list Z) : list (list (list (list (option Z)))) :=
  (fun _ => [[[Some 1]]]) <$> spot_yxz.

Definition example_get_isolated_points (points : list (Q * Q * Q)) (dist : Q)
  : list bool :=
  (fun _ => true) <$> points.

Definition example_get_average_spot_image (patches : list (list (list (list Z))))
  : list (list (list Q)) :=
  [[[1%Q]]].

(** ** The vocabulary of the further properties *)

(** The order of the extended integers. *)
Definition ext_le (a b : ext) : Prop :=
  match a, b with
  | NegInf, _ => True
  | Fin x, Fin y => x ≤ y
  | Fin _, NegInf => False
  end.

(** The number of cells that [ensure_odd_kernel] adds to an axis of
    length [n]. *)
Definition pad_of (n : nat) : nat := if Nat.even n then 1%nat else 0%nat.

(** A value of a binary mask. *)
Definition bit (v : Z) : Prop := v = 0 ∨ v = 1.

(** The gene and the neighbour counts of a row of [spot_info]. *)
Definition row_gene (row : spot_info_row) : Z := row.1.2.
Definition row_neighbours (row : spot_info_row) : option (Z * Z) := row.2.

(** The rows of [spot_info] of spots of gene [g] that carry no counts. *)
Definition plain_rows (g : nat) (placed : list yxz) : list spot_info_row :=
  (fun p : yxz => (p.1.1, p.1.2, p.2, Z.of_nat g, None)) <$> placed.

(** * Properties *)

(** ** The exception monad *)

Lemma bind_Ok {A B} (m : result A) (f : A → result B) (b : B) :
  m ≫= f = Ok b ↔ ∃ a, m = Ok a ∧ f a = Ok b.
Proof.
  destruct m as [a|e]; simpl; split.
  - intros H. by exists a.
  - by intros (a' & [= ->] & H).
  - intros [=].
  - by intros (a' & [=] & _).
Qed.

Lemma of_option_Ok {A} (e : error) (o : option A) (a : A) :
  of_option e o = Ok a ↔ o = Some a.
Proof. destruct o; simpl; split; congruence. Qed.

(** ** [Strel.disk]: the decomposition order *)

Lemma disk_basis_invalid (n : Z) :
  n ≠ 4 → n ≠ 6 → n ≠ 8 →
  disk_basis n = Err (ValueError "Value of n provided is not 0, 4, 6 or 8.").
Proof.
  intros H4 H6 H8. unfold disk_basis.
  destruct (Z.eqb_spec n 4); [done|].
  destruct (Z.eqb_spec n 6); [done|].
  by destruct (Z.eqb_spec n 8).
Qed.

(** C2, as stated, fails: below radius 3 the order is forced to 0 before it
    is looked at, so [disk(2, 5)] is the exact disk of radius 2. *)
Lemma disk_small_radius_any_order :
  disk (fun _ _ _ => 0) 2 5 =
  Ok [[0; 0; 1; 0; 0]; [0; 1; 1; 1; 0]; [1; 1; 1; 1; 1];
      [0; 1; 1; 1; 0]; [0; 0; 1; 0; 0]].
Proof. reflexivity. Qed.

(** C2, amended: for every radius [r >= 3] and every order [n] outside
    {0, 4, 6, 8}, [Strel.disk] raises the [ValueError]; for [r < 3] the
    order is ignored and the result is that of order 0. *)
Theorem disk_invalid_order (repetition : Z → Z → Z * Z → Z) (r n : Z) :
  n ≠ 0 → n ≠ 4 → n ≠ 6 → n ≠ 8 →
  (3 ≤ r →
   disk repetition r n = Err (ValueError "Value of n provided is not 0, 4, 6 or 8."))
  ∧ (r < 3 → disk repetition r n = disk repetition r 0).
Proof.
  intros H0 H4 H6 H8. split; intros Hr; unfold disk.
  - destruct (Z.ltb_spec r 3); [lia|].
    destruct (Z.eqb_spec n 0); [done|].
    by rewrite disk_basis_invalid.
  - by destruct (Z.ltb_spec r 3); [|lia].
Qed.

Lemma disk_invalid_order_witness :
  disk (fun _ _ _ => 1) 3 5 = Err (ValueError "Value of n provided is not 0, 4, 6 or 8.")
  ∧ disk (fun _ _ _ => 1) 1 5 = disk (fun _ _ _ => 1) 1 0.
Proof.
  destruct (disk_invalid_order (fun _ _ _ => 1) 3 5) as [H3 _]; [lia..|].
  destruct (disk_invalid_order (fun _ _ _ => 1) 1 5) as [_ H1]; [lia..|].
  split; [apply H3 | apply H1]; lia.
Defined.

(** ** [get_spots]: the validation of the spot shape *)

Section GetSpotsValidation.

Variable detect_spots : ndarray → Z → Z → option Z → spots.
Variable choice : nat → nat → list nat.

Lemma shape_filters_no_sign (spot_shape : ndarray) (thresh : Z) :
  count_eq 1 spot_shape = 0 ∨ count_eq (-1) spot_shape = 0 →
  ∃ msg, shape_filters (Some spot_shape) thresh = Err (ValueError msg).
Proof.
  intros H. unfold shape_filters.
  destruct (Z.eqb_spec (count_eq 1 spot_shape) 0); [by eexists|].
  destruct (Z.eqb_spec (count_eq (-1) spot_shape) 0); [by eexists|].
  by destruct H.
Qed.

Lemma shape_filters_out_of_bounds (spot_shape : ndarray) (thresh : Z) :
  count_eq 1 spot_shape ≠ 0 → count_eq (-1) spot_shape ≠ 0 →
  thresh < 0 ∨ np_sum (amap positive spot_shape) ≤ thresh →
  shape_filters (Some spot_shape) thresh =
  Err (OutOfBoundsError "pos_neighbour_thresh" [thresh] [0]
                        [np_sum (amap positive spot_shape) - 1]).
Proof.
  intros Hpos Hneg H. unfold shape_filters.
  destruct (Z.eqb_spec (count_eq 1 spot_shape) 0); [done|].
  destruct (Z.eqb_spec (count_eq (-1) spot_shape) 0); [done|].
  destruct (Z.ltb_spec thresh 0); [done|].
  destruct (Z.leb_spec (np_sum (amap positive spot_shape)) thresh); [done|lia].
Qed.

Lemma shape_filters_Some (spot_shape : ndarray) (thresh : Z) filters :
  shape_filters (Some spot_shape) thresh = Ok filters →
  filters = Some (amap positive spot_shape, amap negative spot_shape)
  ∧ count_eq 1 spot_shape ≠ 0 ∧ count_eq (-1) spot_shape ≠ 0
  ∧ 0 ≤ thresh < np_sum (amap positive spot_shape).
Proof.
  unfold shape_filters.
  destruct (Z.eqb_spec (count_eq 1 spot_shape) 0); [done|].
  destruct (Z.eqb_spec (count_eq (-1) spot_shape) 0); [done|].
  destruct (Z.ltb_spec thresh 0); [done|].
  destruct (Z.leb_spec (np_sum (amap positive spot_shape)) thresh); [done|].
  simpl. intros [= <-]. repeat split; (done || lia).
Qed.

Lemma get_spots_invalid_shape pixel_coefs pixel_yxz radius_xy radius_z
    coef_thresh spot_shape thresh spot_yxzg e :
  length pixel_yxz = n_pixels pixel_coefs →
  shape_filters spot_shape thresh = Err e →
  get_spots detect_spots choice pixel_coefs pixel_yxz radius_xy radius_z
            coef_thresh spot_shape thresh spot_yxzg = Err e.
Proof.
  intros Hlen He. unfold get_spots.
  rewrite Hlen, Nat.eqb_refl. simpl. by rewrite He.
Qed.

(** C1, amended: with a threshold equal to the size of the positive mask
    of a shape that has a 1 and a -1, [get_spots] raises the
    [OutOfBoundsError] that names the threshold and the bounds
    [0 .. size - 1]; it returns no spot set. *)
Theorem get_spots_threshold_at_mask_size pixel_coefs pixel_yxz radius_xy
    radius_z coef_thresh (spot_shape : ndarray) thresh spot_yxzg :
  length pixel_yxz = n_pixels pixel_coefs →
  count_eq 1 spot_shape ≠ 0 → count_eq (-1) spot_shape ≠ 0 →
  thresh = np_sum (amap positive spot_shape) →
  get_spots detect_spots choice pixel_coefs pixel_yxz radius_xy radius_z
            coef_thresh (Some spot_shape) thresh spot_yxzg =
  Err (OutOfBoundsError "pos_neighbour_thresh" [thresh] [0] [thresh - 1]).
Proof.
  intros Hlen Hpos Hneg ->.
  apply get_spots_invalid_shape; [done|].
  apply shape_filters_out_of_bounds; [done..|]. right. lia.
Qed.

End GetSpotsValidation.

(** C1, as stated, fails: a 1 x 2 shape with one positive and one negative
    cell has a positive mask of one pixel, and with the threshold 1
    [get_spots] raises instead of returning an empty set of spots. *)
Lemma get_spots_threshold_at_mask_size_raises :
  get_spots (fun _ _ _ _ => Yx []) (fun _ k => seq 0 k)
            {| sparse := true; n_genes := 1; coef_rows := [[1]] |} [(0, 0, 0)]
            1 None 0 (Some (Arr2 [[1; -1]])) 1 None
  = Err (OutOfBoundsError "pos_neighbour_thresh" [1] [0] [0])
  ∧ count_eq 1 (Arr2 [[1; -1]]) = 1
  ∧ count_eq (-1) (Arr2 [[1; -1]]) = 1
  ∧ np_sum (amap positive (Arr2 [[1; -1]])) = 1.
Proof. done. Qed.

Lemma get_spots_threshold_at_mask_size_witness :
  get_spots (fun _ _ _ _ => Yx []) (fun _ k => seq 0 k)
            {| sparse := true; n_genes := 1; coef_rows := [[1]; [2]] |}
            [(0, 0, 0); (0, 1, 0)]
            1 None 0 (Some (Arr2 [[1; 1; -1]])) 2 None
  = Err (OutOfBoundsError "pos_neighbour_thresh" [2] [0] [1]).
Proof.
  apply (get_spots_threshold_at_mask_size (fun _ _ _ _ => Yx []) (fun _ k => seq 0 k));
    done.
Defined.

(** ** Rectangular arrays *)

Lemma py_index_inside (n : nat) (i : Z) :
  0 ≤ i < Z.of_nat n → py_index n i = Some (Z.to_nat i).
Proof.
  intros H. unfold py_index.
  destruct (Z.leb_spec 0 i); [|lia]. by destruct (Z.ltb_spec i (Z.of_nat n)); [|lia].
Qed.

Lemma rect2_lookup {A} h w (a : list (list A)) i r :
  rect2 h w a → a !! i = Some r → length r = w.
Proof. intros [_ Ha] Hi. by eapply (proj1 (Forall_lookup _ _) Ha). Qed.

Lemma rect2_shape {A} h w (a : list (list A)) :
  rect2 h w a → (0 < h)%nat → shape2 a = [Z.of_nat h; Z.of_nat w].
Proof.
  intros [Hh Ha] Hpos. unfold shape2. rewrite Hh.
  destruct a as [|r a]; simpl in *; [lia|].
  by rewrite (Forall_inv Ha).
Qed.

Lemma rect2_width {A} h w (a : list (list A)) :
  rect2 h w a → (0 < h)%nat → width a = w.
Proof.
  intros [Hh Ha] Hpos. unfold width.
  destruct a as [|r a]; simpl in *; [lia|]. by rewrite (Forall_inv Ha).
Qed.

Lemma rect2_full {A} (h w : Z) (v : A) : rect2 (Z.to_nat h) (Z.to_nat w) (full2 h w v).
Proof.
  split; unfold full2; [by rewrite length_replicate|].
  apply Forall_replicate. by rewrite length_replicate.
Qed.

Lemma rect3_full {A} (h w d : Z) (v : A) :
  rect3 (Z.to_nat h) (Z.to_nat w) (Z.to_nat d) (full3 h w d v).
Proof.
  split; unfold full3; [by rewrite length_replicate|].
  apply Forall_replicate, rect2_full.
Qed.

Lemma at2_full {A} (h w : Z) (v : A) i j :
  (i < Z.to_nat h)%nat → (j < Z.to_nat w)%nat → at2 (full2 h w v) i j = Some v.
Proof.
  intros Hi Hj. unfold at2, full2.
  rewrite lookup_replicate_2 by done. simpl. by rewrite lookup_replicate_2.
Qed.

Lemma at3_full {A} (h w d : Z) (v : A) i j k :
  (i < Z.to_nat h)%nat → (j < Z.to_nat w)%nat → (k < Z.to_nat d)%nat →
  at3 (full3 h w d v) i j k = Some v.
Proof.
  intros Hi Hj Hk. unfold at3, full3.
  rewrite lookup_replicate_2 by done. simpl. by apply at2_full.
Qed.

(** An in-range assignment succeeds, keeps the shape and changes one cell. *)
Lemma set2_inside h w (a : list (list Z)) (y x v : Z) :
  rect2 h w a → 0 ≤ y < Z.of_nat h → 0 ≤ x < Z.of_nat w →
  ∃ a', set2 a y x v = Ok a' ∧ rect2 h w a'
        ∧ ∀ i j, at2 a' i j =
                 if decide (i = Z.to_nat y ∧ j = Z.to_nat x) then Some v
                 else at2 a i j.
Proof.
  intros Ha Hy Hx. pose proof Ha as [Hh Hrows]. unfold set2.
  rewrite py_index_inside by lia. simpl.
  destruct (a !! Z.to_nat y) as [r|] eqn:Hr; simpl.
  2:{ apply lookup_ge_None in Hr. lia. }
  pose proof (rect2_lookup _ _ _ _ _ Ha Hr) as Hlen.
  rewrite py_index_inside by lia. simpl. eexists. split; [done|].
  split.
  - split; [by rewrite length_insert|].
    apply Forall_insert; [done|]. by rewrite length_insert.
  - intros i j. unfold at2.
    destruct (decide (i = Z.to_nat y)) as [->|Hi].
    + rewrite list_lookup_insert_eq by lia. simpl.
      destruct (decide (j = Z.to_nat x)) as [->|Hj].
      * rewrite list_lookup_insert_eq by lia. by rewrite decide_True.
      * rewrite list_lookup_insert_ne by done. rewrite Hr.
        by rewrite decide_False by lia.
    + rewrite list_lookup_insert_ne by done.
      by rewrite decide_False by lia.
Qed.

Lemma set3_inside h w d (a : list (list (list Z))) (y x z v : Z) :
  rect3 h w d a →
  0 ≤ y < Z.of_nat h → 0 ≤ x < Z.of_nat w → 0 ≤ z < Z.of_nat d →
  ∃ a', set3 a y x z v = Ok a' ∧ rect3 h w d a'
        ∧ ∀ i j k, at3 a' i j k =
                   if decide (i = Z.to_nat y ∧ j = Z.to_nat x ∧ k = Z.to_nat z)
                   then Some v else at3 a i j k.
Proof.
  intros [Hh Hplanes] Hy Hx Hz. unfold set3.
  rewrite py_index_inside by lia. simpl.
  destruct (a !! Z.to_nat y) as [p|] eqn:Hp; simpl.
  2:{ apply lookup_ge_None in Hp. lia. }
  pose proof (proj1 (Forall_lookup _ _) Hplanes _ _ Hp) as Hrect.
  pose proof Hrect as [Hw Hrows].
  rewrite py_index_inside by lia. simpl.
  destruct (p !! Z.to_nat x) as [r|] eqn:Hr; simpl.
  2:{ apply lookup_ge_None in Hr. lia. }
  pose proof (rect2_lookup _ _ _ _ _ Hrect Hr) as Hlen.
  rewrite py_index_inside by lia. simpl. eexists. split; [done|].
  split.
  - split; [by rewrite length_insert|].
    apply Forall_insert; [done|].
    split; [by rewrite length_insert|].
    apply Forall_insert; [done|]. by rewrite length_insert.
  - intros i j k. unfold at3.
    destruct (decide (i = Z.to_nat y)) as [->|Hi].
    + rewrite list_lookup_insert_eq by lia. simpl.
      destruct (decide (j = Z.to_nat x)) as [->|Hj].
      * rewrite list_lookup_insert_eq by lia. simpl.
        destruct (decide (k = Z.to_nat z)) as [->|Hk].
        -- rewrite list_lookup_insert_eq by lia. by rewrite decide_True.
        -- rewrite list_lookup_insert_ne by done. rewrite Hp. simpl. rewrite Hr.
           by rewrite decide_False by lia.
      * rewrite list_lookup_insert_ne by done. rewrite Hp. simpl.
        by rewrite decide_False by lia.
    + rewrite list_lookup_insert_ne by done.
      by rewrite decide_False by lia.
Qed.

(** Reading an in-range cell. *)
Lemma get2_inside h w (a : list (list Z)) (y x : Z) :
  rect2 h w a → 0 ≤ y < Z.of_nat h → 0 ≤ x < Z.of_nat w →
  ∃ v, at2 a (Z.to_nat y) (Z.to_nat x) = Some v ∧ get2 a y x = Ok v.
Proof.
  intros Ha Hy Hx. pose proof Ha as [Hh Hrows]. unfold get2, py_get, at2.
  rewrite py_index_inside by lia. simpl.
  destruct (a !! Z.to_nat y) as [r|] eqn:Hr; simpl.
  2:{ apply lookup_ge_None in Hr. lia. }
  pose proof (rect2_lookup _ _ _ _ _ Ha Hr) as Hlen.
  rewrite py_index_inside by lia. simpl.
  destruct (r !! Z.to_nat x) as [v|] eqn:Hv; simpl.
  2:{ apply lookup_ge_None in Hv. lia. }
  by exists v.
Qed.

Lemma get3_inside h w d (a : list (list (list Z))) (y x z : Z) :
  rect3 h w d a →
  0 ≤ y < Z.of_nat h → 0 ≤ x < Z.of_nat w → 0 ≤ z < Z.of_nat d →
  ∃ v, at3 a (Z.to_nat y) (Z.to_nat x) (Z.to_nat z) = Some v
       ∧ get3 a y x z = Ok v.
Proof.
  intros [Hh Hplanes] Hy Hx Hz. unfold get3, py_get, at3.
  rewrite py_index_inside by lia. simpl.
  destruct (a !! Z.to_nat y) as [p|] eqn:Hp; simpl.
  2:{ apply lookup_ge_None in Hp. lia. }
  pose proof (proj1 (Forall_lookup _ _) Hplanes _ _ Hp) as Hrect.
  pose proof Hrect as [Hw Hrows].
  rewrite py_index_inside by lia. simpl.
  destruct (p !! Z.to_nat x) as [r|] eqn:Hr; simpl.
  2:{ apply lookup_ge_None in Hr. lia. }
  pose proof (rect2_lookup _ _ _ _ _ Hrect Hr) as Hlen.
  rewrite py_index_inside by lia. simpl.
  destruct (r !! Z.to_nat z) as [v|] eqn:Hv; simpl.
  2:{ apply lookup_ge_None in Hv. lia. }
  by exists v.
Qed.

Lemma rect2_map2 {A B} (f : A → B) h w (a : list (list A)) :
  rect2 h w a → rect2 h w (map2 f a).
Proof.
  intros [Hh Ha]. split; unfold map2; [by rewrite length_fmap|].
  apply Forall_fmap. eapply Forall_impl; [done|].
  intros r Hr. simpl. by rewrite length_fmap.
Qed.

Lemma rect3_map3 {A B} (f : A → B) h w d (a : list (list (list A))) :
  rect3 h w d a → rect3 h w d (map3 f a).
Proof.
  intros [Hh Ha]. split; unfold map3; [by rewrite length_fmap|].
  apply Forall_fmap. eapply Forall_impl; [done|].
  intros p Hp. by apply rect2_map2.
Qed.

Lemma rect2_zip2 {A B C} (f : A → B → C) h w
    (a : list (list A)) (b : list (list B)) :
  rect2 h w a → rect2 h w b → rect2 h w (zip2 f a b).
Proof.
  intros [Hh Ha] [Hh' Hb]. split; unfold zip2.
  - rewrite length_zip_with. lia.
  - apply Forall_lookup. intros i r Hi.
    apply lookup_zip_with_Some in Hi as (ra & rb & -> & Hra & Hrb).
    rewrite length_zip_with.
    rewrite (proj1 (Forall_lookup _ _) Ha _ _ Hra).
    rewrite (proj1 (Forall_lookup _ _) Hb _ _ Hrb). lia.
Qed.

Lemma rect3_zip3 {A B C} (f : A → B → C) h w d
    (a : list (list (list A))) (b : list (list (list B))) :
  rect3 h w d a → rect3 h w d b → rect3 h w d (zip3 f a b).
Proof.
  intros [Hh Ha] [Hh' Hb]. split; unfold zip3.
  - rewrite length_zip_with. lia.
  - apply Forall_lookup. intros i r Hi.
    apply lookup_zip_with_Some in Hi as (ra & rb & -> & Hra & Hrb).
    apply rect2_zip2.
    + exact (proj1 (Forall_lookup _ _) Ha _ _ Hra).
    + exact (proj1 (Forall_lookup _ _) Hb _ _ Hrb).
Qed.

Lemma rect2_imap2 {A B} (F : nat → nat → B) h w (a : list (list A)) :
  rect2 h w a →
  rect2 h w (imap (fun i (row : list A) => imap (fun j (_ : A) => F i j) row) a).
Proof.
  intros [Hh Ha]. split; [by rewrite length_imap|].
  apply Forall_lookup. intros i r Hi.
  rewrite list_lookup_imap in Hi.
  destruct (a !! i) as [row|] eqn:Hrow; simplify_eq/=.
  rewrite length_imap. exact (proj1 (Forall_lookup _ _) Ha _ _ Hrow).
Qed.

Lemma rect3_shape {A} h w d (a : list (list (list A))) :
  rect3 h w d a → (0 < h)%nat → (0 < w)%nat →
  shape3 a = [Z.of_nat h; Z.of_nat w; Z.of_nat d].
Proof.
  intros [Hh Ha] Hpos Hw. unfold shape3. rewrite Hh.
  destruct a as [|p a]; simpl in *; [lia|].
  by rewrite (rect2_shape w d p (Forall_inv Ha) Hw).
Qed.

Lemma rect2_meshgrid2 (a b : list Z) :
  rect2 (length b) (length a) (meshgrid2 a b).1
  ∧ rect2 (length b) (length a) (meshgrid2 a b).2.
Proof.
  unfold meshgrid2; simpl. split; (split; [by rewrite length_fmap|]).
  - by apply Forall_fmap, Forall_true.
  - apply Forall_fmap, Forall_true. intros x. simpl. by rewrite length_fmap.
Qed.

Lemma rect3_meshgrid3 (a b c : list Z) :
  rect3 (length b) (length a) (length c) (meshgrid3 a b c).1.1
  ∧ rect3 (length b) (length a) (length c) (meshgrid3 a b c).1.2
  ∧ rect3 (length b) (length a) (length c) (meshgrid3 a b c).2.
Proof.
  unfold meshgrid3; simpl.
  repeat split; rewrite ?length_fmap; try done;
    apply Forall_fmap, Forall_true; intros x; simpl;
    (split; [by rewrite length_fmap|]);
    apply Forall_fmap, Forall_true; intros y; simpl; by rewrite ?length_fmap.
Qed.

Lemma length_arange (lo hi : Z) : length (arange lo hi) = Z.to_nat (hi - lo).
Proof. apply length_seqZ. Qed.

Lemma odd_2n1 (n : Z) : Z.odd (2 * n + 1) = true.
Proof. by rewrite Z.add_comm, Z.odd_add_mul_2. Qed.

(** ** Loops that cannot raise *)

Lemma foldM_invariant {A B} (P : B → Prop) (Q : A → Prop)
    (f : B → A → result B) (l : list A) (acc : B) :
  (∀ b a, P b → Q a → ∃ b', f b a = Ok b' ∧ P b') →
  P acc → Forall Q l →
  ∃ b', foldM f acc l = Ok b' ∧ P b'.
Proof.
  intros Hstep. revert acc.
  induction l as [|x l IH]; intros acc Hacc Hl; simpl.
  - by exists acc.
  - apply Forall_cons in Hl as [Hx Hl].
    destruct (Hstep _ _ Hacc Hx) as (b' & -> & Hb'). simpl. by apply IH.
Qed.

Lemma foldr_max_bound (l : list Z) (m0 : Z) :
  m0 ≤ foldr Z.max m0 l ∧ Forall (fun x => x ≤ foldr Z.max m0 l) l.
Proof.
  induction l as [|y l [IH0 IH]]; simpl; [by split|].
  split; [lia|]. constructor; [lia|].
  eapply Forall_impl; [done|]. intros z Hz. simpl in Hz. lia.
Qed.

Lemma max_abs_bound (l : list Z) (m : Z) :
  max_abs l = Ok m → 0 ≤ m ∧ Forall (fun x => Z.abs x ≤ m) l.
Proof.
  destruct l as [|x l]; [done|]. unfold max_abs. intros [= <-].
  destruct (foldr_max_bound (Z.abs <$> l) (Z.abs x)) as [H0 H].
  split; [lia|]. constructor; [done|].
  apply Forall_forall. intros z Hz.
  apply (proj1 (Forall_forall _ _) H), list_elem_of_fmap. by exists z.
Qed.

Lemma max_abs_nonempty (l : list Z) : l ≠ [] → ∃ m, max_abs l = Ok m.
Proof. destruct l; [done|]. by eexists. Qed.

Lemma sumZ_nonneg (l : list Z) : Forall (fun x => 0 ≤ x) l → 0 ≤ sumZ l.
Proof.
  induction 1 as [|x l Hx _ IH]; [done|].
  change (sumZ (x :: l)) with (x + sumZ l). lia.
Qed.

(** ** The extents of the structuring elements *)

Lemma periodic_line_rect (p : Z) (v : Z * Z) :
  0 ≤ p →
  ∃ mr mc nhood,
    periodic_line p v = Ok nhood
    ∧ 0 ≤ mr ∧ 0 ≤ mc
    ∧ rect2 (Z.to_nat (2 * mr + 1)) (Z.to_nat (2 * mc + 1)) nhood.
Proof.
  intros Hp. unfold periodic_line.
  set (pp := arange (- p) (p + 1)).
  assert (pp ≠ []) as Hpp.
  { intros H. apply (f_equal length) in H. unfold pp in H.
    rewrite length_arange in H. simpl in H. lia. }
  destruct (max_abs_nonempty ((fun k => k * v.1) <$> pp)) as [mr Hmr].
  { by destruct pp. }
  destruct (max_abs_nonempty ((fun k => k * v.2) <$> pp)) as [mc Hmc].
  { by destruct pp. }
  rewrite Hmr, Hmc. simpl.
  destruct (max_abs_bound _ _ Hmr) as [Hr0 Hr].
  destruct (max_abs_bound _ _ Hmc) as [Hc0 Hc].
  exists mr, mc.
  destruct (foldM_invariant
    (rect2 (Z.to_nat (2 * mr + 1)) (Z.to_nat (2 * mc + 1)))
    (fun rc : Z * Z => Z.abs rc.1 ≤ mr ∧ Z.abs rc.2 ≤ mc)
    (fun nhood rc => set2 nhood (rc.1 + mr) (rc.2 + mc) 1)
    (zip ((fun k => k * v.1) <$> pp) ((fun k => k * v.2) <$> pp))
    (full2 (2 * mr + 1) (2 * mc + 1) 0)) as (nhood & Hfold & Hrect).
  - intros b rc Hb [H1 H2].
    destruct (set2_inside _ _ b (rc.1 + mr) (rc.2 + mc) 1 Hb) as (b' & ? & ? & _);
      [lia..|]. by exists b'.
  - apply rect2_full.
  - apply Forall_forall. intros [ri ci] Hin. simpl.
    split.
    + apply elem_of_zip_l in Hin. by apply (proj1 (Forall_forall _ _) Hr).
    + apply elem_of_zip_r in Hin. by apply (proj1 (Forall_forall _ _) Hc).
  - by exists nhood.
Qed.

Lemma rect2_dilate h w (image : list (list ext)) (kernel : list (list Z)) :
  rect2 h w image → rect2 h w (dilate image kernel).
Proof. intros H. unfold dilate, grey_dilation, max_filter2. by apply rect2_imap2. Qed.

Lemma rect2_cv2_dilate h w (src kernel : list (list Z)) :
  rect2 h w src → rect2 h w (cv2_dilate src kernel).
Proof. intros H. unfold cv2_dilate. by apply rect2_imap2. Qed.

Lemma rect2_alter {A} (f : list A → list A) h w (a : list (list A)) i :
  (∀ r, length (f r) = length r) → rect2 h w a → rect2 h w (alter f i a).
Proof.
  intros Hf [Hh Ha]. split; [by rewrite length_alter|].
  apply Forall_lookup. intros j r Hj.
  rewrite list_lookup_alter in Hj.
  destruct (decide (i = j)) as [->|].
  - destruct (a !! j) as [r'|] eqn:Hr'; simplify_eq/=.
    rewrite Hf. exact (proj1 (Forall_lookup _ _) Ha _ _ Hr').
  - exact (proj1 (Forall_lookup _ _) Ha _ _ Hj).
Qed.

Lemma disk_exact_rect (repetition : Z → Z → Z * Z → Z) (r n : Z) :
  0 ≤ r → (r < 3 ∨ n = 0) →
  ∃ nhood, disk repetition r n = Ok nhood
           ∧ rect2 (Z.to_nat (2 * r + 1)) (Z.to_nat (2 * r + 1)) nhood.
Proof.
  intros Hr Hn. unfold disk.
  assert ((if r <? 3 then 0 else n) = 0) as ->.
  { destruct (Z.ltb_spec r 3); [done|]. lia. }
  simpl. eexists. split; [done|].
  apply rect2_map2.
  pose proof (rect2_meshgrid2 (arange (- r) (r + 1)) (arange (- r) (r + 1))) as [H1 H2].
  rewrite length_arange in H1, H2.
  replace (r + 1 - - r) with (2 * r + 1) in H1, H2 by lia.
  by apply rect2_zip2.
Qed.

Lemma disk_decomposed_rect (repetition : Z → Z → Z * Z → Z) (r n : Z) :
  3 ≤ r → n = 4 ∨ n = 6 ∨ n = 8 →
  (∀ v, 0 ≤ repetition r n v) →
  ∃ nhood, disk repetition r n = Ok nhood
           ∧ rect2 (Z.to_nat (2 * r - 1)) (Z.to_nat (2 * r - 1)) nhood.
Proof.
  intros Hr Hn Hrep. unfold disk.
  destruct (Z.ltb_spec r 3); [lia|].
  destruct (Z.eqb_spec n 0); [lia|].
  assert (∃ v, disk_basis n = Ok v) as [v ->].
  { unfold disk_basis. destruct Hn as [->|[->| ->]]; by eexists. }
  simpl.
  destruct (foldM_invariant
    (rect2 (Z.to_nat (2 * r - 1)) (Z.to_nat (2 * r - 1)))
    (fun _ : Z * Z => True)
    (fun nhood vq =>
       decomposition ← periodic_line (repetition r n vq) vq;
       Ok (dilate nhood decomposition))
    v
    (alter (fun row => <[Z.to_nat ((2 * r - 1 - 1) / 2) := Fin 1]> row)
           (Z.to_nat ((2 * r - 1 - 1) / 2))
           (full2 (2 * r - 1) (2 * r - 1) NegInf))) as (nhood & -> & Hrect).
  - intros b vq Hb _.
    destruct (periodic_line_rect (repetition r n vq) vq (Hrep vq))
      as (mr & mc & line & -> & _).
    simpl. eexists. split; [done|]. by apply rect2_dilate.
  - apply rect2_alter; [intros; by rewrite length_insert|]. apply rect2_full.
  - by apply Forall_true.
  - simpl.
    match goal with |- context [0 <? ?e + 1] => assert (0 ≤ e) as He end.
    { apply sumZ_nonneg, Forall_fmap, Forall_true. intros row. simpl.
      by destruct (_ =? _). }
    match goal with |- context [0 <? ?e + 1] =>
      destruct (Z.ltb_spec 0 (e + 1)); [|lia] end.
    eexists. split; [done|].
    by apply rect2_map2, rect2_cv2_dilate, rect2_cv2_dilate, rect2_map2, rect2_map2.
Qed.

Lemma rect3_disk_3d (r_xy r_z : Z) :
  rect3 (Z.to_nat (2 * r_xy + 1)) (Z.to_nat (2 * r_xy + 1))
        (Z.to_nat (2 * r_z + 1)) (disk_3d r_xy r_z).
Proof.
  unfold disk_3d.
  pose proof (rect3_meshgrid3 (arange (- r_xy) (r_xy + 1))
                (arange (- r_xy) (r_xy + 1)) (arange (- r_z) (r_z + 1)))
    as (H1 & H2 & H3).
  rewrite !length_arange in H1, H2, H3.
  replace (r_xy + 1 - - r_xy) with (2 * r_xy + 1) in H1, H2, H3 by lia.
  replace (r_z + 1 - - r_z) with (2 * r_z + 1) in H1, H2, H3 by lia.
  destruct (meshgrid3 _ _ _) as [[y x] z]. simpl in *.
  by apply rect3_map3, rect3_zip3; [apply rect3_zip3|].
Qed.

Lemma rect_annulus (r0 r_xy : Q) (r_z : option Q) :
  match annulus r0 r_xy r_z, r_z with
  | Arr2 a, None =>
      rect2 (Z.to_nat (2 * Qfloor r_xy + 1)) (Z.to_nat (2 * Qfloor r_xy + 1)) a
  | Arr3 a, Some r_z =>
      rect3 (Z.to_nat (2 * Qfloor r_xy + 1)) (Z.to_nat (2 * Qfloor r_xy + 1))
            (Z.to_nat (2 * Qfloor r_z + 1)) a
  | _, _ => False
  end.
Proof.
  unfold annulus. destruct r_z as [r_z|].
  - pose proof (rect3_meshgrid3 (arange (- Qfloor r_xy) (Qfloor r_xy + 1))
                  (arange (- Qfloor r_xy) (Qfloor r_xy + 1))
                  (arange (- Qfloor r_z) (Qfloor r_z + 1)))
      as (H1 & H2 & H3).
    rewrite !length_arange in H1, H2, H3.
    replace (Qfloor r_xy + 1 - - Qfloor r_xy) with (2 * Qfloor r_xy + 1)
      in H1, H2, H3 by lia.
    replace (Qfloor r_z + 1 - - Qfloor r_z) with (2 * Qfloor r_z + 1)
      in H1, H2, H3 by lia.
    destruct (meshgrid3 _ _ _) as [[y x] z]. simpl in *.
    by apply rect3_map3, rect3_zip3; [apply rect3_zip3|].
  - pose proof (rect2_meshgrid2 (arange (- Qfloor r_xy) (Qfloor r_xy + 1))
                  (arange (- Qfloor r_xy) (Qfloor r_xy + 1))) as [H1 H2].
    rewrite !length_arange in H1, H2.
    replace (Qfloor r_xy + 1 - - Qfloor r_xy) with (2 * Qfloor r_xy + 1)
      in H1, H2 by lia.
    simpl. by apply rect2_map2, rect2_zip2.
Qed.

Lemma odd_extents_rect2 {A} (s t : Z) (a : list (list A)) :
  0 ≤ s → 0 ≤ t →
  rect2 (Z.to_nat (2 * s + 1)) (Z.to_nat (2 * t + 1)) a →
  odd_extents (shape2 a).
Proof.
  intros Hs Ht Ha. rewrite (rect2_shape _ _ _ Ha) by lia.
  rewrite !Z2Nat.id by lia.
  repeat constructor; apply odd_2n1.
Qed.

Lemma odd_extents_rect3 {A} (s t u : Z) (a : list (list (list A))) :
  0 ≤ s → 0 ≤ t → 0 ≤ u →
  rect3 (Z.to_nat (2 * s + 1)) (Z.to_nat (2 * t + 1)) (Z.to_nat (2 * u + 1)) a →
  odd_extents (shape3 a).
Proof.
  intros Hs Ht Hu Ha. rewrite (rect3_shape _ _ _ _ Ha) by lia.
  rewrite !Z2Nat.id by lia.
  repeat constructor; apply odd_2n1.
Qed.

Lemma Qfloor_nonneg (q : Q) : (0 <= q)%Q → 0 ≤ Qfloor q.
Proof. intros H. by apply (Qfloor_resp_le 0 q). Qed.

(** C9: every structuring element of the factory has an odd extent along
    every axis.  For a radius [r >= 0] and an order in {0, 4, 6, 8}
    [Strel.disk] returns a mask with odd extents, on the exact path and on
    the path that dilates periodic lines (whose repetition counts are not
    negative); so do [Strel.periodic_line] for [p >= 0], [Strel.disk_3d] and
    [Strel.annulus] for radii that are not negative. *)
Theorem structuring_elements_odd :
  (∀ (repetition : Z → Z → Z * Z → Z) (r n : Z),
     0 ≤ r → n = 0 ∨ n = 4 ∨ n = 6 ∨ n = 8 →
     (∀ v, 0 ≤ repetition r n v) →
     ∃ nhood, disk repetition r n = Ok nhood ∧ odd_extents (shape2 nhood))
  ∧ (∀ (p : Z) (v : Z * Z),
       0 ≤ p →
       ∃ nhood, periodic_line p v = Ok nhood ∧ odd_extents (shape2 nhood))
  ∧ (∀ r_xy r_z : Z,
       0 ≤ r_xy → 0 ≤ r_z → odd_extents (shape3 (disk_3d r_xy r_z)))
  ∧ (∀ (r0 r_xy : Q) (r_z : option Q),
       (0 <= r_xy)%Q → from_option (fun r => (0 <= r)%Q) True r_z →
       odd_extents (shape (annulus r0 r_xy r_z))).
Proof.
  repeat split.
  - intros repetition r n Hr Hn Hrep.
    destruct (decide (r < 3 ∨ n = 0)) as [Hsmall|Hbig].
    + destruct (disk_exact_rect repetition r n Hr Hsmall) as (nhood & Hd & Hrect).
      exists nhood. split; [done|]. by apply (odd_extents_rect2 r r).
    + destruct (disk_decomposed_rect repetition r n) as (nhood & Hd & Hrect);
        [lia|lia|done|].
      exists nhood. split; [done|].
      replace (2 * r - 1) with (2 * (r - 1) + 1) in Hrect by lia.
      apply (odd_extents_rect2 (r - 1) (r - 1)); [lia..|done].
  - intros p v Hp.
    destruct (periodic_line_rect p v Hp) as (mr & mc & nhood & Hl & Hr & Hc & Hrect).
    exists nhood. split; [done|]. by apply (odd_extents_rect2 mr mc).
  - intros r_xy r_z Hxy Hz.
    apply (odd_extents_rect3 r_xy r_xy r_z); [done..|]. apply rect3_disk_3d.
  - intros r0 r_xy r_z Hxy Hz.
    pose proof (rect_annulus r0 r_xy r_z) as Hrect.
    pose proof (Qfloor_nonneg r_xy Hxy) as Hfloor.
    destruct r_z as [r_z|]; simpl in Hz; destruct (annulus _ _ _); try done.
    + apply (odd_extents_rect3 (Qfloor r_xy) (Qfloor r_xy) (Qfloor r_z));
        [done|done|by apply Qfloor_nonneg|done].
    + by apply (odd_extents_rect2 (Qfloor r_xy) (Qfloor r_xy)).
Qed.

Lemma structuring_elements_odd_witness :
  (∃ nhood, disk (fun _ _ v => if v.1 * v.2 =? 0 then 1 else 0) 3 4 = Ok nhood
            ∧ odd_extents (shape2 nhood))
  ∧ (∃ nhood, periodic_line 2 (1, 2) = Ok nhood ∧ odd_extents (shape2 nhood))
  ∧ odd_extents (shape3 (disk_3d 2 1))
  ∧ odd_extents (shape (annulus 1 (5 # 2) (Some (3 # 2)))).
Proof.
  destruct structuring_elements_odd as (Hdisk & Hline & Hdisk3 & Hann).
  repeat split.
  - apply Hdisk; [lia|by right; left|].
    intros v. by destruct (_ =? _).
  - apply Hline. lia.
  - apply Hdisk3; lia.
  - apply Hann; done.
Defined.

(** ** [Strel.annulus]: the cells of the ring *)

Lemma at2_map2 {A B} (f : A → B) (a : list (list A)) i j :
  at2 (map2 f a) i j = f <$> at2 a i j.
Proof.
  unfold at2, map2. rewrite list_lookup_fmap.
  destruct (a !! i) as [r|]; simpl; [|done]. by rewrite list_lookup_fmap.
Qed.

Lemma at2_zip2 {A B C} (f : A → B → C) (a : list (list A)) (b : list (list B)) i j :
  at2 (zip2 f a b) i j = x ← at2 a i j; y ← at2 b i j; Some (f x y).
Proof.
  unfold at2, zip2. rewrite lookup_zip_with.
  destruct (a !! i) as [ra|]; simpl; [|done].
  destruct (b !! i) as [rb|]; simpl.
  - by rewrite lookup_zip_with.
  - by destruct (ra !! j).
Qed.

Lemma at2_meshgrid2_1 (a b : list Z) i j :
  at2 ((fun _ : Z => a) <$> b) i j = (_ ← b !! i; a !! j).
Proof. unfold at2. rewrite list_lookup_fmap. by destruct (b !! i). Qed.

Lemma at2_meshgrid2_2 (a b : list Z) i j :
  at2 ((fun bi : Z => (fun _ : Z => bi) <$> a) <$> b) i j =
  (bi ← b !! i; _ ← a !! j; Some bi).
Proof.
  unfold at2. rewrite list_lookup_fmap.
  destruct (b !! i) as [bi|]; simpl; [|done].
  rewrite list_lookup_fmap. by destruct (a !! j).
Qed.

Lemma lookup_arange (lo hi : Z) (i : nat) :
  arange lo hi !! i =
  if decide (Z.of_nat i < hi - lo) then Some (lo + Z.of_nat i) else None.
Proof.
  unfold arange. case_decide.
  - by apply lookup_seqZ_lt.
  - apply lookup_seqZ_ge. lia.
Qed.










(** ** Comprehensions *)

Lemma mapM_res_Forall2 {A B} (f : A → result B) (l : list A) (ys : list B) :
  mapM_res f l = Ok ys ↔ Forall2 (fun x y => f x = Ok y) l ys.
Proof.
  revert ys. induction l as [|x l IH]; intros ys; simpl.
  - split; [intros [= <-]; constructor|by inversion 1].
  - rewrite bind_Ok. split.
    + intros (y & Hy & H). apply bind_Ok in H as (ys' & Hys & [= <-]).
      constructor; [done|]. by apply IH.
    + inversion 1 as [|? y ? ys' Hy Hys]; subst.
      exists y. split; [done|]. apply bind_Ok. exists ys'.
      split; [by apply IH|done].
Qed.

Lemma mapM_res_total {A B} (f : A → result B) (l : list A) :
  Forall (fun x => ∃ y, f x = Ok y) l → ∃ ys, mapM_res f l = Ok ys.
Proof.
  induction 1 as [|x l [y Hy] _ [ys IH]]; simpl; [by eexists|].
  rewrite Hy. simpl. rewrite IH. by eexists.
Qed.

(** ** Duplicate spots of overlapping tiles *)

Lemma sum_squares_nonneg (a b : Q) : (0 <= a * a + b * b)%Q.
Proof. nra. Qed.

Lemma sum_squares_pos (a b : Q) : ¬ (a == 0)%Q ∨ ¬ (b == 0)%Q → (0 < a * a + b * b)%Q.
Proof.
  intros [H|H].
  - destruct (Q_dec a 0) as [[?|?]|?]; [nra|nra|done].
  - destruct (Q_dec b 0) as [[?|?]|?]; [nra|nra|done].
Qed.

Lemma dist2_nonneg (p c : Q * Q) : (0 <= dist2 p c)%Q.
Proof. unfold dist2. simpl. apply sum_squares_nonneg. Qed.

Lemma dist2_same (p c : Q * Q) :
  (p.1 == c.1)%Q → (p.2 == c.2)%Q → (dist2 p c == 0)%Q.
Proof. intros H1 H2. unfold dist2. simpl. rewrite H1, H2. ring. Qed.

Lemma dist2_apart (p c : Q * Q) :
  ¬ ((p.1 == c.1)%Q ∧ (p.2 == c.2)%Q) → (0 < dist2 p c)%Q.
Proof.
  intros H. unfold dist2. simpl. apply sum_squares_pos.
  destruct (Qeq_dec p.1 c.1) as [H1|H1].
  - right. intros H2. apply H. split; [done|]. lra.
  - left. intros H2. apply H1. lra.
Qed.

Section DuplicateFacts.

Variable kneighbors : list (Q * Q) → Q * Q → nat.

(** The contract of the nearest-neighbour search: it returns the row of a
    centre that no other centre beats. *)
Hypothesis kneighbors_nearest :
  ∀ centres p, centres ≠ [] →
    ∃ c, centres !! kneighbors centres p = Some c
         ∧ ∀ c', c' ∈ centres → (dist2 p c <= dist2 p c')%Q.

(** The yx centres of the tiles and the global yx position of a spot found
    at [local] on the tile of origin [origin]. *)
Let centres_yx (tile_origin : list (Q * Q * Q)) (tile_centre : Q * Q * Q) :=
  (fun c : Q * Q * Q => c.1) <$> ((fun o => add_q3 o tile_centre) <$> tile_origin).
Let global_yx (local : yxz) (origin : Q * Q * Q) :=
  (add_q3 (q3_of_yxz local) origin).1.

Lemma not_duplicate_lookup tile_origin tile_centre spot_info keep i spot :
  not_duplicate kneighbors tile_origin tile_centre spot_info = Ok keep →
  spot_info !! i = Some spot →
  tile_origin ≠ []
  ∧ ∃ origin, py_get tile_origin spot.2 = Some origin
    ∧ keep !! i =
      Some (Z.of_nat (kneighbors (centres_yx tile_origin tile_centre)
                                 (global_yx spot.1 origin)) =? spot.2).
Proof.
  unfold not_duplicate. intros H Hi.
  destruct tile_origin as [|o tile_origin]; [done|]. split; [done|].
  rewrite fmap_cons in H.
  apply bind_Ok in H as (glob & Hglob & H).
  apply mapM_res_Forall2 in Hglob.
  destruct (Forall2_lookup_l _ _ _ _ _ Hglob Hi) as (g & Hg & Hspot).
  unfold spot_global_yxz in Hspot.
  apply bind_Ok in Hspot as (origin & Horigin & [= <-]).
  apply of_option_Ok in Horigin.
  exists origin. split; [done|].
  assert (keep = zip_with (fun nearest (spot : yxz * Z) => Z.of_nat nearest =? spot.2)
            ((fun p : Q * Q * Q =>
                kneighbors (centres_yx (o :: tile_origin) tile_centre) p.1) <$> glob)
            spot_info) as ->.
  { destruct glob; [done|]. by injection H as <-. }
  rewrite lookup_zip_with, list_lookup_fmap, Hg, Hi. done.
Qed.

Lemma not_duplicate_total tile_origin tile_centre spot_info :
  spot_info ≠ [] →
  Forall (fun spot : yxz * Z => 0 ≤ spot.2 < Z.of_nat (length tile_origin))
         spot_info →
  ∃ keep, not_duplicate kneighbors tile_origin tile_centre spot_info = Ok keep
          ∧ length keep = length spot_info.
Proof.
  intros Hne Htiles. unfold not_duplicate.
  destruct tile_origin as [|o tile_origin].
  { destruct spot_info as [|s ?]; [done|].
    apply Forall_inv in Htiles. simpl in Htiles. lia. }
  rewrite fmap_cons.
  destruct (mapM_res_total (spot_global_yxz (o :: tile_origin)) spot_info)
    as [glob Hglob].
  { eapply Forall_impl; [done|]. intros spot Hspot. simpl in Hspot.
    unfold spot_global_yxz, py_get.
    rewrite py_index_inside by done. simpl.
    destruct ((o :: tile_origin) !! Z.to_nat spot.2) eqn:Hl; [by eexists|].
    apply lookup_ge_None in Hl. simpl in *. lia. }
  rewrite Hglob. simpl.
  apply mapM_res_Forall2 in Hglob. pose proof (Forall2_length _ _ _ Hglob) as Hlen.
  destruct glob as [|g glob]; [by destruct spot_info|].
  eexists. split; [done|].
  rewrite length_zip_with, length_fmap. lia.
Qed.

Lemma nearest_centre_cases (centres : list (Q * Q)) (p own : Q * Q) (t : Z) :
  0 ≤ t → centres !! Z.to_nat t = Some own →
  ∀ kept, kept = (Z.of_nat (kneighbors centres p) =? t) →
    (kept = true ↔ Z.of_nat (kneighbors centres p) = t)
    ∧ (kept = true → ∀ c, c ∈ centres → (dist2 p own <= dist2 p c)%Q)
    ∧ ((∀ j c, centres !! j = Some c → j ≠ Z.to_nat t →
                (dist2 p own < dist2 p c)%Q) → kept = true)
    ∧ ((p.1 == own.1)%Q ∧ (p.2 == own.2)%Q →
       (∀ j c, centres !! j = Some c → j ≠ Z.to_nat t →
               ¬ ((c.1 == own.1)%Q ∧ (c.2 == own.2)%Q)) →
       kept = true)
    ∧ ((∃ c, c ∈ centres ∧ (dist2 p c < dist2 p own)%Q) → kept = false).
Proof.
  intros Ht Hown kept ->.
  assert (centres ≠ []) as Hne by (by destruct centres).
  destruct (kneighbors_nearest centres p Hne) as (c0 & Hc0 & Hnearest).
  assert (own ∈ centres) as Hin by (apply list_elem_of_lookup; eauto).
  assert ((∀ j c, centres !! j = Some c → j ≠ Z.to_nat t →
                  (dist2 p own < dist2 p c)%Q) →
          Z.of_nat (kneighbors centres p) = t) as Hstrict.
  { intros Hfar.
    destruct (decide (kneighbors centres p = Z.to_nat t)) as [->|Hother];
      [lia|exfalso].
    pose proof (Hfar _ _ Hc0 Hother) as Hlt.
    pose proof (Hnearest _ Hin) as Hle.
    by apply Qlt_not_le in Hlt. }
  rewrite Z.eqb_eq.
  split; [done|]. split; [|split; [|split]].
  - intros Hk c Hc.
    assert (kneighbors centres p = Z.to_nat t) as Heq by lia.
    rewrite Heq, Hown in Hc0. injection Hc0 as <-. by apply Hnearest.
  - done.
  - intros [H1 H2] Hdistinct. apply Hstrict.
    intros j c Hj Hne_j.
    rewrite (dist2_same p own H1 H2).
    apply dist2_apart. intros [H3 H4].
    apply (Hdistinct j c Hj Hne_j). split.
    + by rewrite <- H3, H1.
    + by rewrite <- H4, H2.
  - intros (c & Hc & Hlt).
    apply not_true_iff_false. rewrite Z.eqb_eq. intros Hk.
    assert (kneighbors centres p = Z.to_nat t) as Heq by lia.
    rewrite Heq, Hown in Hc0. injection Hc0 as <-.
    pose proof (Hnearest _ Hc) as Hle. by apply Qlt_not_le in Hlt.
Qed.

(** C6, amended: a spot is kept exactly when the nearest-neighbour search
    on the yx tile centres, asked for the global yx position of the spot,
    returns the tile the spot was found on.  A kept spot has no tile centre
    nearer than its own; a spot whose own centre is strictly the nearest is
    kept, and so is a spot at the centre of its own tile when no other tile
    has the same yx centre; and a spot strictly closer to the centre of
    another tile is discarded. *)
Theorem duplicates_by_nearest_centre tile_origin tile_centre spot_info :
  spot_info ≠ [] →
  Forall (fun spot : yxz * Z => 0 ≤ spot.2 < Z.of_nat (length tile_origin))
         spot_info →
  ∃ keep,
    not_duplicate kneighbors tile_origin tile_centre spot_info = Ok keep
    ∧ remove_duplicates kneighbors tile_origin tile_centre spot_info
      = Ok (select keep spot_info)
    ∧ ∀ i spot, spot_info !! i = Some spot →
      ∃ origin own kept,
        tile_origin !! Z.to_nat spot.2 = Some origin
        ∧ centres_yx tile_origin tile_centre !! Z.to_nat spot.2 = Some own
        ∧ keep !! i = Some kept
        ∧ let centres := centres_yx tile_origin tile_centre in
          let p := global_yx spot.1 origin in
          (kept = true ↔ Z.of_nat (kneighbors centres p) = spot.2)
          ∧ (kept = true → ∀ c, c ∈ centres → (dist2 p own <= dist2 p c)%Q)
          ∧ ((∀ j c, centres !! j = Some c → j ≠ Z.to_nat spot.2 →
                      (dist2 p own < dist2 p c)%Q) → kept = true)
          ∧ ((p.1 == own.1)%Q ∧ (p.2 == own.2)%Q →
             (∀ j c, centres !! j = Some c → j ≠ Z.to_nat spot.2 →
                     ¬ ((c.1 == own.1)%Q ∧ (c.2 == own.2)%Q)) →
             kept = true)
          ∧ ((∃ c, c ∈ centres ∧ (dist2 p c < dist2 p own)%Q) → kept = false).
Proof.
  intros Hne Htiles.
  destruct (not_duplicate_total tile_origin tile_centre spot_info Hne Htiles)
    as (keep & Hkeep & Hlen).
  exists keep. split; [done|]. split.
  { unfold remove_duplicates. by rewrite Hkeep. }
  intros i spot Hi.
  destruct (not_duplicate_lookup _ _ _ _ _ _ Hkeep Hi)
    as (Hcentres & origin & Horigin & Hkept).
  pose proof (proj1 (Forall_lookup _ _) Htiles _ _ Hi) as Htile. simpl in Htile.
  unfold py_get in Horigin. rewrite py_index_inside in Horigin by done.
  simpl in Horigin.
  assert (centres_yx tile_origin tile_centre !! Z.to_nat spot.2
          = Some (add_q3 origin tile_centre).1) as Hown.
  { unfold centres_yx. by rewrite !list_lookup_fmap, Horigin. }
  eexists origin, _, _.
  split; [done|]. split; [exact Hown|]. split; [exact Hkept|].
  apply nearest_centre_cases; [lia|done|done].
Qed.

End DuplicateFacts.

(** The exhaustive search honours the contract of the nearest-neighbour
    search. *)
Lemma nearest_from_spec (rest pre : list (Q * Q)) (p : Q * Q) (best : nat)
    (cb : Q * Q) :
  (pre ++ rest) !! best = Some cb →
  (∀ c, c ∈ pre → (dist2 p cb <= dist2 p c)%Q) →
  ∃ c, (pre ++ rest) !! nearest_from rest p (length pre) best (dist2 p cb) = Some c
       ∧ ∀ c', c' ∈ pre ++ rest → (dist2 p c <= dist2 p c')%Q.
Proof.
  revert pre best cb. induction rest as [|c rest IH]; intros pre best cb Hbest Hpre.
  - simpl. exists cb. split; [done|]. rewrite app_nil_r. done.
  - simpl. destruct (Qle_bool (dist2 p cb) (dist2 p c)) eqn:Hle.
    + apply Qle_bool_iff in Hle.
      destruct (IH (pre ++ [c]) best cb) as (c1 & Hc1 & Hall).
      * by rewrite <- app_assoc.
      * intros c' Hc'. apply elem_of_app in Hc' as [?|Hc']; [by apply Hpre|].
        apply list_elem_of_singleton in Hc' as ->. done.
      * rewrite length_app, Nat.add_1_r, <- app_assoc in Hc1.
        rewrite <- app_assoc in Hall. by exists c1.
    + assert (dist2 p c < dist2 p cb)%Q as Hlt.
      { apply Qnot_le_lt. intros H. apply Qle_bool_iff in H. congruence. }
      destruct (IH (pre ++ [c]) (length pre) c) as (c1 & Hc1 & Hall).
      * rewrite <- app_assoc. by rewrite lookup_app_r, Nat.sub_diag.
      * intros c' Hc'. apply elem_of_app in Hc' as [Hc'|Hc'].
        -- apply Qlt_le_weak. eapply Qlt_le_trans; [done|]. by apply Hpre.
        -- apply list_elem_of_singleton in Hc' as ->. apply Qle_refl.
      * rewrite length_app, Nat.add_1_r, <- app_assoc in Hc1.
        rewrite <- app_assoc in Hall. by exists c1.
Qed.

Lemma brute_kneighbors_nearest (centres : list (Q * Q)) (p : Q * Q) :
  centres ≠ [] →
  ∃ c, centres !! brute_kneighbors centres p = Some c
       ∧ ∀ c', c' ∈ centres → (dist2 p c <= dist2 p c')%Q.
Proof.
  destruct centres as [|c0 centres]; [done|]. intros _.
  apply (nearest_from_spec centres [c0] p 0%nat c0); [done|].
  intros c Hc. apply list_elem_of_singleton in Hc as ->. apply Qle_refl.
Qed.

Lemma duplicates_by_nearest_centre_witness :
  ∃ keep,
    not_duplicate brute_kneighbors [(0, 0, 0); (0, 10, 0)]%Q (11 # 2, 11 # 2, 0)%Q
                  [((5, 5, 0), 0); ((5, 11, 0), 0); ((5, 1, 0), 1)] = Ok keep
    ∧ keep = [true; false; true].
Proof.
  destruct (duplicates_by_nearest_centre brute_kneighbors brute_kneighbors_nearest
              [(0, 0, 0); (0, 10, 0)]%Q (11 # 2, 11 # 2, 0)%Q
              [((5, 5, 0), 0); ((5, 11, 0), 0); ((5, 1, 0), 1)])
    as (keep & Hkeep & _).
  - done.
  - repeat constructor; simpl; lia.
  - exists keep. split; [done|]. vm_compute in Hkeep. congruence.
Defined.

(** C6, as stated, fails when two tiles have the same yx centre (they
    differ in z only): two spots, each at the centre of the tile it was
    found on, have the same global yx position, the search returns one tile
    for both, and at most one of the two is kept, whatever the search does
    with a tie.  The exhaustive search returns the first tile, and the spot
    of the second tile, at the centre of its own tile, is discarded. *)
Lemma own_centre_spot_discarded :
  not_duplicate brute_kneighbors [(0, 0, 0); (0, 0, 7)]%Q (5, 5, 0)%Q
                [((5, 5, 0), 0); ((5, 5, 0), 1)] = Ok [true; false]
  ∧ ∀ kneighbors keep,
      not_duplicate kneighbors [(0, 0, 0); (0, 0, 7)]%Q (5, 5, 0)%Q
                    [((5, 5, 0), 0); ((5, 5, 0), 1)] = Ok keep →
      keep ≠ [true; true].
Proof.
  split; [reflexivity|].
  intros kneighbors keep H. unfold not_duplicate in H. simpl in H.
  injection H as <-. intros [= H0 H1].
  apply Z.eqb_eq in H0, H1. lia.
Qed.

(** ** Scattering values into an array *)

Section Scatter.

Context {S K : Type}.
Variable set : S → K → Z → result S.
Variable get : S → K → option Z.
Variable Inv : S → Prop.
Variable valid : K → Prop.

Hypothesis set_spec : ∀ s k v,
  Inv s → valid k →
  ∃ s', set s k v = Ok s' ∧ Inv s' ∧ get s' k = Some v
        ∧ ∀ k', k' ≠ k → get s' k' = get s k'.

Lemma scatter_spec (pts : list (K * Z)) (s : S) :
  Inv s → Forall (fun pv => valid pv.1) pts →
  ∃ s', foldM (fun s pv => set s pv.1 pv.2) s pts = Ok s'
        ∧ Inv s'
        ∧ (∀ k, k ∉ pts.*1 → get s' k = get s k)
        ∧ (NoDup pts.*1 → ∀ k v, (k, v) ∈ pts → get s' k = Some v).
Proof.
  revert s. induction pts as [|[k0 v0] pts IH]; intros s Hs Hvalid.
  - exists s. repeat split; try done. intros _ k v Hin. by apply elem_of_nil in Hin.
  - apply Forall_cons in Hvalid as [Hk0 Hvalid]. simpl in Hk0.
    destruct (set_spec s k0 v0 Hs Hk0) as (s1 & Hset & Hs1 & Hget & Hother).
    destruct (IH s1 Hs1 Hvalid) as (s' & Hfold & Hs' & Hout & Hin).
    exists s'. simpl. rewrite Hset. simpl. repeat split; try done.
    + intros k Hk. apply not_elem_of_cons in Hk as [Hne Hk].
      rewrite (Hout k Hk). by apply Hother.
    + intros Hnodup k v Hkv.
      apply NoDup_cons in Hnodup as [Hfresh Hnodup].
      apply elem_of_cons in Hkv as [[= -> ->]|Hkv].
      * by rewrite (Hout k0 Hfresh).
      * by apply Hin.
Qed.

End Scatter.

Lemma voxel_set2 h w (a : list (list Z)) (k : yxz) (v : Z) :
  rect2 h w a →
  0 ≤ k.1.1 < Z.of_nat h ∧ 0 ≤ k.1.2 < Z.of_nat w ∧ k.2 = 0 →
  ∃ a', set2 a k.1.1 k.1.2 v = Ok a' ∧ rect2 h w a'
        ∧ voxel (Arr2 a') k = Some v
        ∧ ∀ k', k' ≠ k → voxel (Arr2 a') k' = voxel (Arr2 a) k'.
Proof.
  intros Ha (Hy & Hx & Hz).
  destruct (set2_inside h w a k.1.1 k.1.2 v Ha Hy Hx) as (a' & Hset & Ha' & Hat).
  exists a'. split; [done|]. split; [done|].
  destruct k as [[y x] z]. simpl in *. subst z. split.
  - unfold voxel. simpl.
    destruct (Z.leb_spec 0 y); [|lia]. destruct (Z.leb_spec 0 x); [|lia].
    simpl. rewrite Hat. by rewrite decide_True.
  - intros [[y' x'] z'] Hne. unfold voxel. simpl.
    destruct (Z.leb_spec 0 y'); [|done]. destruct (Z.leb_spec 0 x'); [|done].
    destruct (Z.leb_spec 0 z'); [|done]. simpl.
    destruct (Z.eqb_spec z' 0) as [->|]; [|done].
    rewrite Hat. rewrite decide_False; [done|].
    intros [Hy' Hx']. apply Hne.
    assert (y' = y) as -> by lia. by assert (x' = x) as -> by lia.
Qed.

Lemma voxel_set3 h w d (a : list (list (list Z))) (k : yxz) (v : Z) :
  rect3 h w d a →
  0 ≤ k.1.1 < Z.of_nat h ∧ 0 ≤ k.1.2 < Z.of_nat w ∧ 0 ≤ k.2 < Z.of_nat d →
  ∃ a', set3 a k.1.1 k.1.2 k.2 v = Ok a' ∧ rect3 h w d a'
        ∧ voxel (Arr3 a') k = Some v
        ∧ ∀ k', k' ≠ k → voxel (Arr3 a') k' = voxel (Arr3 a) k'.
Proof.
  intros Ha (Hy & Hx & Hz).
  destruct (set3_inside h w d a k.1.1 k.1.2 k.2 v Ha Hy Hx Hz)
    as (a' & Hset & Ha' & Hat).
  exists a'. split; [done|]. split; [done|].
  destruct k as [[y x] z]. simpl in *. split.
  - unfold voxel. simpl.
    destruct (Z.leb_spec 0 y); [|lia]. destruct (Z.leb_spec 0 x); [|lia].
    destruct (Z.leb_spec 0 z); [|lia].
    simpl. rewrite Hat. by rewrite decide_True.
  - intros [[y' x'] z'] Hne. unfold voxel. simpl.
    destruct (Z.leb_spec 0 y'); [|done]. destruct (Z.leb_spec 0 x'); [|done].
    destruct (Z.leb_spec 0 z'); [|done]. simpl.
    rewrite Hat. rewrite decide_False; [done|].
    intros (Hy' & Hx' & Hz'). apply Hne.
    assert (y' = y) as -> by lia. assert (x' = x) as -> by lia.
    by assert (z' = z) as -> by lia.
Qed.

(** ** The corners of the bounding box *)

Lemma reduce_axis0_corner (f : Z → Z → Z) (le : Z → Z → Prop) msg (l : list yxz) :
  (∀ a, le a a) →
  (∀ a b c, le a b → le (f c a) b) →
  (∀ a b, le (f a b) a) →
  (∀ a b, f a b = a ∨ f a b = b) →
  l ≠ [] →
  ∃ m, reduce_axis0 f msg l = Ok m ∧ corner le m l.
Proof.
  intros Hrefl Hmono Hle Hsel Hne.
  destruct l as [|p0 l]; [done|]. simpl. eexists. split; [done|].
  clear Hne. induction l as [|p l IH]; simpl.
  - split; [|repeat split; exists p0; (split; [by apply list_elem_of_singleton|done])].
    intros q Hq. apply list_elem_of_singleton in Hq as ->. by repeat split.
  - destruct IH as (Hbound & (py & Hpy & Hy) & (px & Hpx & Hx) & (pz & Hpz & Hz)).
    set (m := foldr (zip_yxz f) p0 l) in *.
    assert (∀ q, q ∈ p0 :: l → q ∈ p0 :: p :: l) as Hsub.
    { intros q Hq. apply elem_of_cons in Hq as [->|Hq]; [left|right; by right]. }
    split; [|split; [|split]].
    + intros q Hq. unfold zip_yxz; simpl.
      assert (q = p ∨ q ∈ p0 :: l) as [->|Hq'].
      { apply elem_of_cons in Hq as [->|Hq]; [right; left|].
        apply elem_of_cons in Hq as [->|Hq]; [by left|right; by right]. }
      * repeat split; apply Hle.
      * destruct (Hbound q Hq') as (H1 & H2 & H3).
        repeat split; by apply Hmono.
    + unfold zip_yxz; simpl. destruct (Hsel p.1.1 m.1.1) as [->| ->].
      * exists p. split; [right; left|done].
      * exists py. split; [by apply Hsub|done].
    + unfold zip_yxz; simpl. destruct (Hsel p.1.2 m.1.2) as [->| ->].
      * exists p. split; [right; left|done].
      * exists px. split; [by apply Hsub|done].
    + unfold zip_yxz; simpl. destruct (Hsel p.2 m.2) as [->| ->].
      * exists p. split; [right; left|done].
      * exists pz. split; [by apply Hsub|done].
Qed.

Lemma min_axis0_corner (l : list yxz) :
  l ≠ [] → ∃ m, min_axis0 l = Ok m ∧ lower_corner m l.
Proof.
  apply reduce_axis0_corner; intros; lia.
Qed.

Lemma max_axis0_corner (l : list yxz) :
  l ≠ [] → ∃ m, max_axis0 l = Ok m ∧ upper_corner m l.
Proof.
  apply reduce_axis0_corner; intros; lia.
Qed.

(** ** [cropped_coef_image] *)

Lemma nonzero_pixels_Ok (sparse : bool) (pixel_yxz : list yxz) (coefs : list Z) :
  length coefs = length pixel_yxz →
  nonzero_pixels sparse pixel_yxz coefs = Ok (nz_pixels pixel_yxz coefs).
Proof.
  intros Hlen. unfold nonzero_pixels.
  destruct sparse.
  - rewrite drop_ge by lia. done.
  - by rewrite Hlen, Nat.eqb_refl.
Qed.

Lemma voxel_full2 (h w : Z) (k : yxz) :
  inside (h, w, 1) k → voxel (Arr2 (full2 h w 0)) k = Some 0.
Proof.
  destruct k as [[y x] z]. unfold inside, voxel. simpl. intros (Hy & Hx & Hz).
  destruct (Z.leb_spec 0 y); [|lia]. destruct (Z.leb_spec 0 x); [|lia].
  destruct (Z.leb_spec 0 z); [|lia]. simpl.
  destruct (Z.eqb_spec z 0); [|lia].
  apply at2_full; lia.
Qed.

Lemma voxel_full3 (h w d : Z) (k : yxz) :
  inside (h, w, d) k → voxel (Arr3 (full3 h w d 0)) k = Some 0.
Proof.
  destruct k as [[y x] z]. unfold inside, voxel. simpl. intros (Hy & Hx & Hz).
  destruct (Z.leb_spec 0 y); [|lia]. destruct (Z.leb_spec 0 x); [|lia].
  destruct (Z.leb_spec 0 z); [|lia]. simpl.
  apply at3_full; lia.
Qed.

Lemma rect3_depth {A} h w d (a : list (list (list A))) :
  rect3 h w d a → (0 < h)%nat → (0 < w)%nat → width a = w ∧ depth a = d.
Proof.
  intros [Hh Ha] Hpos Hw. unfold depth, width.
  destruct a as [|p a]; simpl in *; [lia|].
  pose proof (Forall_inv Ha) as Hp. split; [apply Hp|].
  by apply (rect2_width w d).
Qed.

Lemma shift_inj (shift p q : yxz) :
  zip_yxz Z.sub p shift = zip_yxz Z.sub q shift → p = q.
Proof.
  destruct p as [[? ?] ?], q as [[? ?] ?], shift as [[? ?] ?].
  unfold zip_yxz. simpl. intros [= H1 H2 H3]. repeat f_equal; lia.
Qed.

Lemma zip_shifted (shift : yxz) (nz : list (yxz * Z)) :
  zip ((fun p => zip_yxz Z.sub p shift) <$> nz.*1) nz.*2
  = (fun pv : yxz * Z => (zip_yxz Z.sub pv.1 shift, pv.2)) <$> nz.
Proof.
  induction nz as [|[p c] nz IH]; [done|]. simpl. f_equal. exact IH.
Qed.

(** The corners of the points moved by the lower corner. *)
Lemma shifted_corners (shift top' : yxz) (l : list yxz) :
  lower_corner shift l →
  upper_corner top' ((fun p => zip_yxz Z.sub p shift) <$> l) →
  upper_corner (zip_yxz Z.add top' shift) l
  ∧ 0 ≤ top'.1.1 ∧ 0 ≤ top'.1.2 ∧ 0 ≤ top'.2
  ∧ ∀ p, p ∈ l → inside (zip_yxz Z.add top' (1, 1, 1)) (zip_yxz Z.sub p shift).
Proof.
  intros (Hlow & _) (Hup & (py & Hpy & Hy) & (px & Hpx & Hx) & (pz & Hpz & Hz)).
  assert (∀ p, p ∈ l →
            (zip_yxz Z.sub p shift).1.1 ≤ top'.1.1
            ∧ (zip_yxz Z.sub p shift).1.2 ≤ top'.1.2
            ∧ (zip_yxz Z.sub p shift).2 ≤ top'.2) as Hup'.
  { intros p Hp.
    destruct (Hup (zip_yxz Z.sub p shift)) as (H1 & H2 & H3); [|lia].
    apply list_elem_of_fmap. by exists p. }
  apply list_elem_of_fmap in Hpy as (qy & -> & Hqy).
  apply list_elem_of_fmap in Hpx as (qx & -> & Hqx).
  apply list_elem_of_fmap in Hpz as (qz & -> & Hqz).
  pose proof (Hlow _ Hqy) as (? & ? & ?).
  pose proof (Hlow _ Hqx) as (? & ? & ?).
  pose proof (Hlow _ Hqz) as (? & ? & ?).
  unfold zip_yxz in *; simpl in *.
  split; [|split; [lia|split; [lia|split; [lia|]]]].
  - split; [|split; [|split]].
    + intros p Hp. destruct (Hup' p Hp) as (? & ? & ?). simpl. lia.
    + exists qy. split; [done|]. simpl. lia.
    + exists qx. split; [done|]. simpl. lia.
    + exists qz. split; [done|]. simpl. lia.
  - intros p Hp. destruct (Hup' p Hp) as (? & ? & ?).
    destruct (Hlow p Hp) as (? & ? & ?). unfold inside. simpl. lia.
Qed.

Lemma cropped_coef_image_spec (pixel_yxz : list yxz) (sparse : bool) (coefs : list Z) :
  length coefs = length pixel_yxz →
  nz_pixels pixel_yxz coefs ≠ [] →
  ∃ vol shift top,
    cropped_coef_image pixel_yxz sparse coefs = Ok (vol, shift)
    ∧ lower_corner shift (nz_pixels pixel_yxz coefs).*1
    ∧ upper_corner top (nz_pixels pixel_yxz coefs).*1
    ∧ rect vol
    ∧ extent vol = zip_yxz Z.add (zip_yxz Z.sub top shift) (1, 1, 1)
    ∧ (∀ k, inside (extent vol) k →
            (∀ p, p ∈ (nz_pixels pixel_yxz coefs).*1 → k ≠ zip_yxz Z.sub p shift) →
            voxel vol k = Some 0)
    ∧ (NoDup (nz_pixels pixel_yxz coefs).*1 →
       ∀ p c, (p, c) ∈ nz_pixels pixel_yxz coefs →
              voxel vol (zip_yxz Z.sub p shift) = Some c).
Proof.
  intros Hlen Hne. set (nz := nz_pixels pixel_yxz coefs) in *.
  assert (nz.*1 ≠ []) as Hne1 by (by destruct nz).
  unfold cropped_coef_image. rewrite nonzero_pixels_Ok by done. fold nz.
  change (Ok nz ≫= ?f) with (f nz). cbv beta.
  destruct (min_axis0_corner nz.*1 Hne1) as (shift & -> & Hlow).
  change (Ok shift ≫= ?f) with (f shift). cbv beta.
  set (shifted := (fun p => zip_yxz Z.sub p shift) <$> nz.*1).
  assert (shifted ≠ []) as Hne2 by (unfold shifted; by destruct (nz.*1)).
  destruct (max_axis0_corner shifted Hne2) as (top' & -> & Hup).
  change (Ok top' ≫= ?f) with (f top'). cbv beta.
  destruct (shifted_corners shift top' nz.*1 Hlow Hup)
    as (Htop & H0y & H0x & H0z & Hinside).
  unfold shifted. rewrite zip_shifted.
  set (pts := (fun pv : yxz * Z => (zip_yxz Z.sub pv.1 shift, pv.2)) <$> nz).
  assert (pts.*1 = shifted) as Hpts1.
  { unfold pts, shifted. rewrite <- !list_fmap_compose. done. }
  assert (NoDup nz.*1 → NoDup pts.*1) as Hnodup.
  { intros Hnd. rewrite Hpts1. unfold shifted.
    apply NoDup_fmap_2; [|done]. intros p q. apply shift_inj. }
  assert (∀ p c, (p, c) ∈ nz → (zip_yxz Z.sub p shift, c) ∈ pts) as Hmem.
  { intros p c Hpc. apply list_elem_of_fmap. by exists (p, c). }
  assert (∀ k, (∀ p, p ∈ nz.*1 → k ≠ zip_yxz Z.sub p shift) → k ∉ pts.*1) as Hfresh.
  { intros k Hk Hin. rewrite Hpts1 in Hin.
    apply list_elem_of_fmap in Hin as (p & -> & Hp). by apply (Hk p). }
  assert (Forall (fun pv : yxz * Z =>
            inside (zip_yxz Z.add top' (1, 1, 1)) pv.1) pts) as Hvalid.
  { apply Forall_fmap, Forall_forall. intros [p c] Hpc. simpl.
    apply Hinside, list_elem_of_fmap. by exists (p, c). }
  destruct top' as [[ty tx] tz]. simpl in H0y, H0x, H0z.
  unfold zip_yxz at 1. simpl fst. simpl snd. cbv iota beta.
  destruct (Z.eqb_spec (tz + 1) 1) as [Hz|Hz].
  - destruct (scatter_spec
                (fun (a : list (list Z)) (k : yxz) v => set2 a k.1.1 k.1.2 v)
                (fun a => voxel (Arr2 a))
                (rect2 (Z.to_nat (ty + 1)) (Z.to_nat (tx + 1)))
                (fun k : yxz => 0 ≤ k.1.1 < Z.of_nat (Z.to_nat (ty + 1))
                                ∧ 0 ≤ k.1.2 < Z.of_nat (Z.to_nat (tx + 1))
                                ∧ k.2 = 0)
                (fun s k v Hs Hk => voxel_set2 _ _ s k v Hs Hk)
                pts (full2 (ty + 1) (tx + 1) 0))
      as (a' & Hfold & Hrect & Hout & Hin).
    { apply rect2_full. }
    { eapply Forall_impl; [exact Hvalid|]. intros [k c]. unfold inside, zip_yxz.
      simpl. lia. }
    simpl in Hfold. rewrite Hfold.
    exists (Arr2 a'), shift, (zip_yxz Z.add (ty, tx, tz) shift).
    pose proof (rect2_width _ _ _ Hrect ltac:(lia)) as Hw.
    destruct Hrect as [Hh Hrows].
    split; [done|]. split; [done|]. split; [done|].
    split; [by unfold rect; rewrite Hh, Hw|].
    split; [|split].
    + unfold extent. rewrite Hh, Hw, !Z2Nat.id by lia. unfold zip_yxz. simpl.
      destruct shift as [[sy sx] sz]. simpl. repeat f_equal; lia.
    + intros k Hk Hfar. rewrite (Hout k (Hfresh k Hfar)).
      apply voxel_full2. unfold extent in Hk.
      rewrite Hh, Hw, !Z2Nat.id in Hk by lia. exact Hk.
    + intros Hnd p c Hpc. apply (Hin (Hnodup Hnd)). by apply Hmem.
  - destruct (scatter_spec
                (fun (a : list (list (list Z))) (k : yxz) v =>
                   set3 a k.1.1 k.1.2 k.2 v)
                (fun a => voxel (Arr3 a))
                (rect3 (Z.to_nat (ty + 1)) (Z.to_nat (tx + 1)) (Z.to_nat (tz + 1)))
                (fun k : yxz => 0 ≤ k.1.1 < Z.of_nat (Z.to_nat (ty + 1))
                                ∧ 0 ≤ k.1.2 < Z.of_nat (Z.to_nat (tx + 1))
                                ∧ 0 ≤ k.2 < Z.of_nat (Z.to_nat (tz + 1)))
                (fun s k v Hs Hk => voxel_set3 _ _ _ s k v Hs Hk)
                pts (full3 (ty + 1) (tx + 1) (tz + 1) 0))
      as (a' & Hfold & Hrect & Hout & Hin).
    { apply rect3_full. }
    { eapply Forall_impl; [exact Hvalid|]. intros [k c]. unfold inside, zip_yxz.
      simpl. lia. }
    simpl in Hfold. rewrite Hfold.
    exists (Arr3 a'), shift, (zip_yxz Z.add (ty, tx, tz) shift).
    pose proof (rect3_depth _ _ _ _ Hrect ltac:(lia) ltac:(lia)) as [Hw Hd].
    pose proof Hrect as [Hh Hplanes].
    split; [done|]. split; [done|]. split; [done|].
    split; [by unfold rect; rewrite Hh, Hw, Hd|].
    split; [|split].
    + unfold extent. rewrite Hh, Hw, Hd, !Z2Nat.id by lia. unfold zip_yxz. simpl.
      destruct shift as [[sy sx] sz]. simpl. repeat f_equal; lia.
    + intros k Hk Hfar. rewrite (Hout k (Hfresh k Hfar)).
      apply voxel_full3. unfold extent in Hk.
      rewrite Hh, Hw, Hd, !Z2Nat.id in Hk by lia. exact Hk.
    + intros Hnd p c Hpc. apply (Hin (Hnodup Hnd)). by apply Hmem.
Qed.

Lemma nz_pixels_nonempty (pixel_yxz : list yxz) (coefs : list Z) :
  length coefs = length pixel_yxz →
  (∃ c, c ∈ coefs ∧ c ≠ 0) → nz_pixels pixel_yxz coefs ≠ [].
Proof.
  intros Hlen (c & Hc & Hnz) Hnil.
  apply list_elem_of_lookup in Hc as [i Hi].
  destruct (pixel_yxz !! i) as [p|] eqn:Hp.
  2:{ apply lookup_ge_None in Hp. apply lookup_lt_Some in Hi. lia. }
  assert ((p, c) ∈ nz_pixels pixel_yxz coefs) as Hin.
  { apply list_elem_of_filter. split; [done|].
    apply list_elem_of_lookup. exists i. by apply lookup_zip_Some. }
  rewrite Hnil in Hin. by apply elem_of_nil in Hin.
Qed.

Lemma nz_pixels_all_zero (pixel_yxz : list yxz) (coefs : list Z) :
  Forall (fun c => c = 0) coefs → nz_pixels pixel_yxz coefs = [].
Proof.
  intros Hzero. destruct (nz_pixels pixel_yxz coefs) as [|[p c] nz] eqn:Hnz; [done|].
  assert ((p, c) ∈ nz_pixels pixel_yxz coefs) as Hin by (rewrite Hnz; left).
  apply list_elem_of_filter in Hin as [Hc Hin]. simpl in Hc.
  apply elem_of_zip_r in Hin.
  by apply (proj1 (Forall_forall _ _) Hzero) in Hin.
Qed.

(** C3, as stated, fails when a location is listed twice: the single cell
    can hold only one of the two coefficients, so the coefficient 1 of the
    first pixel is not in the volume. *)
Lemma cropped_coef_image_repeated_location :
  cropped_coef_image [(0, 0, 0); (0, 0, 0)] false [1; 2]
  = Ok (Arr2 [[2]], (0, 0, 0))
  ∧ ((0, 0, 0), 1) ∈ nz_pixels [(0, 0, 0); (0, 0, 0)] [1; 2]
  ∧ voxel (Arr2 [[2]]) (zip_yxz Z.sub (0, 0, 0) (0, 0, 0)) ≠ Some 1.
Proof. split; [done|]. split; [by left|done]. Qed.

(** C3, amended: for pixel locations and a coefficient column of the same
    length, with at least one non-zero coefficient and with pairwise
    distinct locations of the non-zero coefficients, [cropped_coef_image]
    returns a volume and a shift such that the shift is the componentwise
    minimum of the non-zero locations, the extent of the volume in each
    axis is the span of the bounding box plus one (a single z-plane being a
    2-D array), every non-zero coefficient is at its location minus the
    shift, and every other cell of the volume is zero. *)
Theorem cropped_coef_image_round_trip (pixel_yxz : list yxz) (sparse : bool)
    (coefs : list Z) :
  length coefs = length pixel_yxz →
  (∃ c, c ∈ coefs ∧ c ≠ 0) →
  NoDup (nz_pixels pixel_yxz coefs).*1 →
  ∃ vol shift top,
    cropped_coef_image pixel_yxz sparse coefs = Ok (vol, shift)
    ∧ lower_corner shift (nz_pixels pixel_yxz coefs).*1
    ∧ upper_corner top (nz_pixels pixel_yxz coefs).*1
    ∧ extent vol = zip_yxz Z.add (zip_yxz Z.sub top shift) (1, 1, 1)
    ∧ (∀ p c, (p, c) ∈ nz_pixels pixel_yxz coefs →
              voxel vol (zip_yxz Z.sub p shift) = Some c)
    ∧ (∀ k, inside (extent vol) k →
            (∀ p, p ∈ (nz_pixels pixel_yxz coefs).*1 → k ≠ zip_yxz Z.sub p shift) →
            voxel vol k = Some 0).
Proof.
  intros Hlen Hnz Hnodup.
  destruct (cropped_coef_image_spec pixel_yxz sparse coefs Hlen
              (nz_pixels_nonempty _ _ Hlen Hnz))
    as (vol & shift & top & Hcrop & Hlow & Hup & _ & Hext & Hzero & Hval).
  exists vol, shift, top.
  split; [done|]. split; [done|]. split; [done|]. split; [done|].
  split; [by apply Hval|done].
Qed.

Lemma cropped_coef_image_round_trip_witness :
  ∃ vol shift top,
    cropped_coef_image [(5, 5, 0); (6, 7, 1); (5, 6, 0)] true [2; 4; -3]
    = Ok (vol, shift)
    ∧ shift = (5, 5, 0)
    ∧ extent vol = zip_yxz Z.add (zip_yxz Z.sub top shift) (1, 1, 1)
    ∧ voxel vol (1, 2, 1) = Some 4.
Proof.
  destruct (cropped_coef_image_round_trip
              [(5, 5, 0); (6, 7, 1); (5, 6, 0)] true [2; 4; -3])
    as (vol & shift & top & Hcrop & _ & _ & Hext & Hval & _).
  - reflexivity.
  - exists 2. split; [left|lia].
  - vm_compute. repeat constructor; rewrite ?elem_of_cons, ?elem_of_nil;
      intuition congruence.
  - exists vol, shift, top. vm_compute in Hcrop.
    injection Hcrop as <- <-. split; [done|]. split; [done|]. split; [done|].
    apply (Hval (6, 7, 1) 4). vm_compute. right. left.
Defined.

(** ** The pixels that the pipeline keeps *)

Lemma keep_pixel_nonzero (row : list Z) :
  keep_pixel row = true → ∃ c, c ∈ row ∧ c ≠ 0.
Proof.
  unfold keep_pixel. rewrite Z.ltb_lt.
  induction row as [|c row IH]; [simpl; lia|].
  change (foldr Z.max 0 (Z.abs <$> c :: row))
    with (Z.max (Z.abs c) (foldr Z.max 0 (Z.abs <$> row))).
  intros H. destruct (decide (c = 0)) as [->|Hc].
  - destruct IH as (c' & Hc' & Hnz); [lia|].
    exists c'. split; [by right|done].
  - exists c. split; [left|done].
Qed.

Lemma select_fmap_Forall {A} (f : A → bool) (l : list A) :
  Forall (fun x => f x = true) (select (f <$> l) l).
Proof.
  induction l as [|x l IH]; simpl; [constructor|].
  destruct (f x) eqn:Hx; [by constructor|done].
Qed.

Lemma tile_pixels_rows (n : nat) (planes : list (list yxz * list (list Z))) :
  Forall (fun row => ∃ c, c ∈ row ∧ c ≠ 0) (coef_rows (tile_pixels n planes).2).
Proof.
  unfold tile_pixels. simpl.
  assert (∀ acc : list yxz * list (list Z),
            Forall (fun row => ∃ c, c ∈ row ∧ c ≠ 0) acc.2 →
            Forall (fun row => ∃ c, c ∈ row ∧ c ≠ 0)
                   (foldl append_plane acc planes).2) as H.
  { induction planes as [|pl planes IH]; intros acc Hacc; simpl; [done|].
    apply IH. unfold append_plane. simpl. apply Forall_app. split; [done|].
    eapply Forall_impl; [apply select_fmap_Forall|].
    apply keep_pixel_nonzero. }
  by apply H.
Qed.

(** C10, as stated, fails in its last part: the pixel filter of the
    pipeline keeps the pixel [(0, 0, 0)], whose coefficient of gene 0 is not
    zero, and the column of gene 1 is then entirely zero;
    [cropped_coef_image], and with it [get_spots], raise on that tile. *)
Lemma pipeline_filter_leaves_zero_column :
  tile_pixels 2 [([(0, 0, 0)], [[1; 0]])]
  = ([(0, 0, 0)], {| sparse := true; n_genes := 2; coef_rows := [[1; 0]] |})
  ∧ column {| sparse := true; n_genes := 2; coef_rows := [[1; 0]] |} 1 = [0]
  ∧ cropped_coef_image [(0, 0, 0)] true [0]
    = Err (ValueError "zero-size array to reduction operation minimum")
  ∧ get_spots (fun _ _ _ _ => Yx []) (fun _ k => seq 0 k)
              {| sparse := true; n_genes := 2; coef_rows := [[1; 0]] |}
              [(0, 0, 0)] 1 None 0 None 0 None
    = Err (ValueError "zero-size array to reduction operation minimum").
Proof. done. Qed.

(** C10, amended: [cropped_coef_image] needs a non-zero coefficient.  For
    locations and a column of the same length it raises the [ValueError] of
    the minimum of an empty array when the column is entirely zero, and it
    returns a volume and a shift when some coefficient is not zero.  The
    pixel filter of the pipeline gives every kept pixel a non-zero
    coefficient of some gene. *)
Theorem cropped_coef_image_needs_nonzero (pixel_yxz : list yxz) (sparse : bool)
    (coefs : list Z) :
  length coefs = length pixel_yxz →
  (Forall (fun c => c = 0) coefs →
   cropped_coef_image pixel_yxz sparse coefs
   = Err (ValueError "zero-size array to reduction operation minimum"))
  ∧ ((∃ c, c ∈ coefs ∧ c ≠ 0) →
     ∃ vol shift, cropped_coef_image pixel_yxz sparse coefs = Ok (vol, shift))
  ∧ ∀ n planes,
      Forall (fun row => ∃ c, c ∈ row ∧ c ≠ 0) (coef_rows (tile_pixels n planes).2).
Proof.
  intros Hlen. split; [|split].
  - intros Hzero. unfold cropped_coef_image.
    rewrite nonzero_pixels_Ok by done.
    by rewrite (nz_pixels_all_zero _ _ Hzero).
  - intros Hnz.
    destruct (cropped_coef_image_spec pixel_yxz sparse coefs Hlen
                (nz_pixels_nonempty _ _ Hlen Hnz))
      as (vol & shift & top & Hcrop & _).
    by exists vol, shift.
  - apply tile_pixels_rows.
Qed.

Lemma cropped_coef_image_needs_nonzero_witness :
  cropped_coef_image [(1, 2, 0); (3, 4, 0)] true [0; 0]
  = Err (ValueError "zero-size array to reduction operation minimum")
  ∧ ∃ vol shift, cropped_coef_image [(1, 2, 0); (3, 4, 0)] true [0; 7]
                 = Ok (vol, shift).
Proof.
  destruct (cropped_coef_image_needs_nonzero [(1, 2, 0); (3, 4, 0)] true [0; 0])
    as (Hzero & _); [reflexivity|].
  destruct (cropped_coef_image_needs_nonzero [(1, 2, 0); (3, 4, 0)] true [0; 7])
    as (_ & Hnz & _); [reflexivity|].
  split.
  - apply Hzero. by repeat constructor.
  - apply Hnz. exists 7. split; [right; left|lia].
Defined.

(** ** Correlation with a mask *)

Lemma ifoldr_sum {A} (f : nat → A → Z) (g : A → Z) (l : list A) (n : nat) :
  (∀ i x, l !! i = Some x → f (n + i)%nat x = g x) →
  ifoldr Z.add 0 f n l = sumZ (g <$> l).
Proof.
  revert n. induction l as [|x l IH]; intros n H; [done|].
  change (f n x + ifoldr Z.add 0 f (S n) l = g x + sumZ (g <$> l)).
  rewrite <- (H 0%nat x eq_refl), Nat.add_0_r. f_equal.
  apply IH. intros i y Hi. rewrite <- (H (S i) y Hi). f_equal. lia.
Qed.

Lemma ifoldr_and {A} (f : nat → A → bool) (l : list A) (n : nat) :
  ifoldr andb true f n l = true ↔ ∀ i x, l !! i = Some x → f (n + i)%nat x = true.
Proof.
  revert n. induction l as [|x l IH]; intros n; simpl.
  - split; [|done]. intros _ i x Hi. by rewrite lookup_nil in Hi.
  - rewrite andb_true_iff, IH. split.
    + intros [Hx Hl] [|i] y Hi; simpl in Hi.
      * injection Hi as <-. by rewrite Nat.add_0_r.
      * rewrite <- (Hl i y Hi). f_equal. lia.
    + intros H. split.
      * rewrite <- (H 0%nat x eq_refl). f_equal. lia.
      * intros i y Hi. rewrite <- (H (S i) y Hi). f_equal. lia.
Qed.

Lemma at2_imap2 {A B} (F : nat → nat → B) (a : list (list A)) i j :
  at2 (imap (fun i (row : list A) => imap (fun j (_ : A) => F i j) row) a) i j
  = (fun _ => F i j) <$> at2 a i j.
Proof.
  unfold at2. rewrite list_lookup_imap.
  destruct (a !! i) as [row|]; simpl; [|done]. by rewrite list_lookup_imap.
Qed.

Lemma at3_imap3 {A B} (F : nat → nat → nat → B) (a : list (list (list A))) i j l :
  at3 (imap (fun i (plane : list (list A)) =>
         imap (fun j (row : list A) =>
           imap (fun l (_ : A) => F i j l) row) plane) a) i j l
  = (fun _ => F i j l) <$> at3 a i j l.
Proof.
  unfold at3. rewrite list_lookup_imap.
  destruct (a !! i) as [plane|]; simpl; [|done]. rewrite list_lookup_imap.
  destruct (plane !! j) as [row|]; simpl; [|done]. by rewrite list_lookup_imap.
Qed.

Lemma sumZ_replicate_0 (n : nat) : sumZ (replicate n 0) = 0.
Proof. induction n as [|n IH]; [done|]. exact IH. Qed.

Lemma sum2_replicate_0 (n m : nat) : sum2 (replicate n (replicate m 0)) = 0.
Proof.
  unfold sum2. induction n as [|n IH]; [done|].
  change (sumZ (replicate m 0) + sumZ (sumZ <$> replicate n (replicate m 0)) = 0).
  rewrite sumZ_replicate_0. exact IH.
Qed.

Lemma sum2_pad_cols (k : list (list Z)) : sum2 (pad1 true 0 <$> k) = sum2 k.
Proof.
  unfold sum2. induction k as [|r k IH]; [done|].
  change (sumZ r + sumZ (sumZ <$> (pad1 true 0 <$> k))
          = sumZ r + sumZ (sumZ <$> k)).
  by rewrite IH.
Qed.

Lemma sum2_ensure_odd (k : list (list Z)) : sum2 (ensure_odd_kernel2 true k) = sum2 k.
Proof.
  unfold ensure_odd_kernel2.
  assert (∀ k' : list (list Z),
            sum2 (if Nat.even (length k)
                  then pad1 true (replicate (width k') 0) k' else k') = sum2 k') as H.
  { intros k'. destruct (Nat.even _); [|done].
    unfold sum2, pad1.
    change (sumZ (replicate (width k') 0) + sumZ (sumZ <$> k') = sumZ (sumZ <$> k')).
    by rewrite sumZ_replicate_0. }
  rewrite H. destruct (Nat.even (width k)); [apply sum2_pad_cols|done].
Qed.

Lemma sum3_pad_depth (k : list (list (list Z))) :
  sum3 ((fun p : list (list Z) => pad1 true 0 <$> p) <$> k) = sum3 k.
Proof.
  unfold sum3. induction k as [|p k IH]; [done|].
  change (sum2 (pad1 true 0 <$> p)
          + sumZ (sum2 <$> ((fun p : list (list Z) => pad1 true 0 <$> p) <$> k))
          = sum2 p + sumZ (sum2 <$> k)).
  by rewrite sum2_pad_cols, IH.
Qed.

Lemma sum3_pad_width (d : nat) (k : list (list (list Z))) :
  sum3 (pad1 true (replicate d 0) <$> k) = sum3 k.
Proof.
  unfold sum3. induction k as [|p k IH]; [done|].
  change (sumZ (replicate d 0) + sumZ (sumZ <$> p)
          + sumZ (sum2 <$> (pad1 true (replicate d 0) <$> k))
          = sum2 p + sumZ (sum2 <$> k)).
  rewrite sumZ_replicate_0, IH. unfold sum2. lia.
Qed.

Lemma sum3_pad_length (w d : nat) (k : list (list (list Z))) :
  sum3 (pad1 true (replicate w (replicate d 0)) k) = sum3 k.
Proof.
  unfold sum3, pad1.
  change (sum2 (replicate w (replicate d 0)) + sumZ (sum2 <$> k)
          = sumZ (sum2 <$> k)).
  by rewrite sum2_replicate_0.
Qed.

Lemma sum3_ensure_odd (k : list (list (list Z))) :
  sum3 (ensure_odd_kernel3 true k) = sum3 k.
Proof.
  unfold ensure_odd_kernel3.
  repeat match goal with
  | |- context [if ?b then _ else _] => destruct b
  end; rewrite ?sum3_pad_length, ?sum3_pad_width, ?sum3_pad_depth; done.
Qed.

Lemma correlate2_footprint (a k : list (list Z)) (i j : nat) :
  is_Some (at2 a i j) →
  (∀ u v kv, at2 k u v = Some kv → kv ≠ 0 →
     getpad2 0 a (Z.of_nat i + Z.of_nat u - Z.of_nat (length k) / 2)
                 (Z.of_nat j + Z.of_nat v - Z.of_nat (width k) / 2) = 1) →
  at2 (correlate2 0 a k) i j = Some (sum2 k).
Proof.
  intros [x Hx] Hfoot. unfold correlate2. rewrite at2_imap2, Hx. simpl. f_equal.
  unfold isum, sum2. apply ifoldr_sum. intros u kr Hu.
  rewrite <- (list_fmap_id kr) at 2. apply ifoldr_sum. intros v kv Hv. simpl.
  destruct (decide (kv = 0)) as [->|Hkv]; [done|].
  rewrite (Hfoot u v kv); [lia| |done]. unfold at2. by rewrite Hu.
Qed.

Lemma correlate3_footprint (a k : list (list (list Z))) (i j l : nat) :
  is_Some (at3 a i j l) →
  (∀ u v w kv, at3 k u v w = Some kv → kv ≠ 0 →
     getpad3 0 a (Z.of_nat i + Z.of_nat u - Z.of_nat (length k) / 2)
                 (Z.of_nat j + Z.of_nat v - Z.of_nat (width k) / 2)
                 (Z.of_nat l + Z.of_nat w - Z.of_nat (depth k) / 2) = 1) →
  at3 (correlate3 0 a k) i j l = Some (sum3 k).
Proof.
  intros [x Hx] Hfoot. unfold correlate3. rewrite at3_imap3, Hx. simpl. f_equal.
  unfold isum, sum3. apply ifoldr_sum. intros u kp Hu.
  unfold sum2. apply ifoldr_sum. intros v kr Hv.
  rewrite <- (list_fmap_id kr) at 2. apply ifoldr_sum. intros w kv Hw. simpl.
  destruct (decide (kv = 0)) as [->|Hkv]; [done|].
  rewrite (Hfoot u v w kv); [lia| |done]. unfold at3. rewrite Hu. simpl. by rewrite Hv.
Qed.

Lemma inb2_spec (a : list (list Z)) (y x : Z) :
  inb2 a y x = true ↔
  0 ≤ y < Z.of_nat (length a) ∧ 0 ≤ x < Z.of_nat (width a).
Proof. unfold inb2. rewrite !andb_true_iff, !Z.leb_le, !Z.ltb_lt. lia. Qed.

Lemma inb3_spec (a : list (list (list Z))) (y x z : Z) :
  inb3 a y x z = true ↔
  0 ≤ y < Z.of_nat (length a) ∧ 0 ≤ x < Z.of_nat (width a)
  ∧ 0 ≤ z < Z.of_nat (depth a).
Proof. unfold inb3. rewrite !andb_true_iff, !Z.leb_le, !Z.ltb_lt. lia. Qed.

Lemma at2_inside {A} h w (a : list (list A)) (i j : nat) :
  rect2 h w a → (i < h)%nat → (j < w)%nat → is_Some (at2 a i j).
Proof.
  intros Ha Hi Hj. pose proof Ha as [Hh Hrows]. unfold at2.
  destruct (a !! i) as [r|] eqn:Hr; simpl.
  2:{ apply lookup_ge_None in Hr. lia. }
  apply lookup_lt_is_Some. rewrite (rect2_lookup _ _ _ _ _ Ha Hr). lia.
Qed.

Lemma at3_inside {A} h w d (a : list (list (list A))) (i j k : nat) :
  rect3 h w d a → (i < h)%nat → (j < w)%nat → (k < d)%nat →
  is_Some (at3 a i j k).
Proof.
  intros [Hh Hplanes] Hi Hj Hk. unfold at3.
  destruct (a !! i) as [p|] eqn:Hp; simpl.
  2:{ apply lookup_ge_None in Hp. lia. }
  apply (at2_inside w d); [|done..].
  exact (proj1 (Forall_lookup _ _) Hplanes _ _ Hp).
Qed.

Lemma at2_Forall {A} (P : A → Prop) (a : list (list A)) i j x :
  Forall (Forall P) a → at2 a i j = Some x → P x.
Proof.
  intros Ha. unfold at2. destruct (a !! i) as [r|] eqn:Hr; simpl; [|done].
  intros Hx. pose proof (proj1 (Forall_lookup _ _) Ha _ _ Hr) as Hrow.
  exact (proj1 (Forall_lookup _ _) Hrow _ _ Hx).
Qed.

Lemma at3_Forall {A} (P : A → Prop) (a : list (list (list A))) i j k x :
  Forall (Forall (Forall P)) a → at3 a i j k = Some x → P x.
Proof.
  intros Ha. unfold at3. destruct (a !! i) as [p|] eqn:Hp; simpl; [|done].
  apply at2_Forall. exact (proj1 (Forall_lookup _ _) Ha _ _ Hp).
Qed.

Lemma getpad2_positive (a : list (list Z)) (y x : Z) :
  rect2 (length a) (width a) a → Forall (Forall (fun v => 0 < v)) a →
  inb2 a y x = true → getpad2 0 (map2 positive a) y x = 1.
Proof.
  intros Hrect Hpos Hin. apply inb2_spec in Hin as [Hy Hx]. unfold getpad2.
  destruct (Z.leb_spec 0 y); [|lia]. destruct (Z.leb_spec 0 x); [|lia]. simpl.
  fold (at2 (map2 positive a) (Z.to_nat y) (Z.to_nat x)). rewrite at2_map2.
  destruct (at2_inside _ _ a (Z.to_nat y) (Z.to_nat x) Hrect) as [v Hv]; [lia..|].
  rewrite Hv. simpl. pose proof (at2_Forall _ _ _ _ _ Hpos Hv) as Hv0.
  unfold positive. simpl in Hv0. by destruct (Z.ltb_spec 0 v); [|lia].
Qed.

Lemma at3_map3 {A B} (f : A → B) (a : list (list (list A))) i j k :
  at3 (map3 f a) i j k = f <$> at3 a i j k.
Proof.
  unfold at3, map3. rewrite list_lookup_fmap.
  destruct (a !! i) as [p|]; simpl; [|done]. apply (at2_map2 f p j k).
Qed.

Lemma getpad3_positive (a : list (list (list Z))) (y x z : Z) :
  rect3 (length a) (width a) (depth a) a →
  Forall (Forall (Forall (fun v => 0 < v))) a →
  inb3 a y x z = true → getpad3 0 (map3 positive a) y x z = 1.
Proof.
  intros Hrect Hpos Hin. apply inb3_spec in Hin as (Hy & Hx & Hz). unfold getpad3.
  destruct (Z.leb_spec 0 y); [|lia]. destruct (Z.leb_spec 0 x); [|lia].
  destruct (Z.leb_spec 0 z); [|lia]. simpl.
  fold (at3 (map3 positive a) (Z.to_nat y) (Z.to_nat x) (Z.to_nat z)).
  rewrite at3_map3.
  destruct (at3_inside _ _ _ a (Z.to_nat y) (Z.to_nat x) (Z.to_nat z) Hrect)
    as [v Hv]; [lia..|].
  rewrite Hv. simpl. pose proof (at3_Forall _ _ _ _ _ _ Hpos Hv) as Hv0.
  unfold positive. simpl in Hv0. by destruct (Z.ltb_spec 0 v); [|lia].
Qed.

Lemma forallb_Forall {A} (f : A → bool) (l : list A) :
  Forall (fun x => f x = true) l → forallb f l = true.
Proof. induction 1 as [|x l Hx _ IH]; simpl; [done|]. by rewrite Hx, IH. Qed.

Lemma is_binary_ones (mask : ndarray) :
  all_cells (fun v => v = 1) mask → is_binary mask = true.
Proof.
  destruct mask as [m|m]; simpl; intros H.
  - apply forallb_Forall. eapply Forall_impl; [exact H|]. intros r Hr. simpl.
    apply forallb_Forall. eapply Forall_impl; [exact Hr|]. by intros v ->.
  - apply forallb_Forall. eapply Forall_impl; [exact H|]. intros p Hp. simpl.
    apply forallb_Forall. eapply Forall_impl; [exact Hp|]. intros r Hr. simpl.
    apply forallb_Forall. eapply Forall_impl; [exact Hr|]. by intros v ->.
Qed.

Lemma spot_oob_inside (image : ndarray) (rows : list (list Z)) :
  Forall (fun spot => in_bounds image spot = true) rows →
  spot_oob rows ((fun n => n - 1) <$> shape image) = Ok [].
Proof.
  induction 1 as [|spot rows Hspot _ IH]; [done|].
  simpl. rewrite IH.
  assert ((if min_list spot <? 0 then Ok true
           else any_gt spot ((fun n => n - 1) <$> shape image)) = Ok false) as ->;
    [|done].
  destruct image as [a|a]; simpl in Hspot.
  - destruct spot as [|y [|x [|? ?]]]; try done.
    apply inb2_spec in Hspot as [Hy Hx]. unfold width in Hx.
    unfold any_gt. simpl.
    repeat match goal with
    | |- context [?p <? ?q] => destruct (Z.ltb_spec p q); try lia
    end. done.
  - destruct spot as [|y [|x [|z [|? ?]]]]; try done.
    apply inb3_spec in Hspot as (Hy & Hx & Hz). unfold depth, width in Hx, Hz.
    unfold any_gt. simpl.
    repeat match goal with
    | |- context [?p <? ?q] => destruct (Z.ltb_spec p q); try lia
    end. done.
Qed.

Lemma mapM_res_Forall {A B} (f : A → result B) (R : A → B → Prop) (l : list A) :
  Forall (fun x => ∃ y, f x = Ok y ∧ R x y) l →
  ∃ ys, mapM_res f l = Ok ys ∧ Forall2 R l ys.
Proof.
  induction 1 as [|x l (y & Hy & HR) _ (ys & Hys & IH)]; simpl.
  - exists []. split; [done|constructor].
  - rewrite Hy. simpl. rewrite Hys. simpl. exists (y :: ys).
    split; [done|by constructor].
Qed.

Lemma footprint_inside_2d (a m : list (list Z)) (y x : Z) u v kv :
  footprint_inside (Arr2 a) (Arr2 m) [y; x] = true →
  at2 (ensure_odd_kernel2 true m) u v = Some kv → kv ≠ 0 →
  inb2 a (y + Z.of_nat u - Z.of_nat (length (ensure_odd_kernel2 true m)) / 2)
         (x + Z.of_nat v - Z.of_nat (width (ensure_odd_kernel2 true m)) / 2) = true.
Proof.
  unfold footprint_inside. set (k := ensure_odd_kernel2 true m). cbv zeta.
  intros Hfoot Huv Hkv. unfold at2 in Huv.
  destruct (k !! u) as [kr|] eqn:Hu; [|done]. simpl in Huv.
  pose proof (proj1 (ifoldr_and _ _ _) Hfoot u kr Hu) as Hrow.
  pose proof (proj1 (ifoldr_and _ _ _) Hrow v kv Huv) as Hcell.
  simpl in Hcell. by destruct (Z.eqb_spec kv 0).
Qed.

Lemma footprint_inside_3d (a m : list (list (list Z))) (y x z : Z) u v w kv :
  footprint_inside (Arr3 a) (Arr3 m) [y; x; z] = true →
  at3 (ensure_odd_kernel3 true m) u v w = Some kv → kv ≠ 0 →
  inb3 a (y + Z.of_nat u - Z.of_nat (length (ensure_odd_kernel3 true m)) / 2)
         (x + Z.of_nat v - Z.of_nat (width (ensure_odd_kernel3 true m)) / 2)
         (z + Z.of_nat w - Z.of_nat (depth (ensure_odd_kernel3 true m)) / 2) = true.
Proof.
  unfold footprint_inside. set (k := ensure_odd_kernel3 true m). cbv zeta.
  intros Hfoot Huv Hkv. unfold at3 in Huv.
  destruct (k !! u) as [kp|] eqn:Hu; [|done]. simpl in Huv.
  destruct (kp !! v) as [kr|] eqn:Hv; [|done]. simpl in Huv.
  pose proof (proj1 (ifoldr_and _ _ _) Hfoot u kp Hu) as Hplane.
  pose proof (proj1 (ifoldr_and _ _ _) Hplane v kr Hv) as Hrow.
  pose proof (proj1 (ifoldr_and _ _ _) Hrow w kv Huv) as Hcell.
  simpl in Hcell. by destruct (Z.eqb_spec kv 0).
Qed.

Lemma count_spot_neighbours_2d (a m : list (list Z)) (l : list yx) :
  rect2 (length a) (width a) a →
  Forall (Forall (fun v => 0 < v)) a →
  all_cells (fun v => v = 1) (Arr2 m) →
  l ≠ [] →
  Forall (fun spot => in_bounds (Arr2 a) spot = true) (spot_rows (Yx l)) →
  ∃ counts,
    count_spot_neighbours (Arr2 a) (Yx l) (Arr2 m) None = Ok (counts, None)
    ∧ Forall2 (fun (p : yx) c =>
                 footprint_inside (Arr2 a) (Arr2 m) [p.1; p.2] = true →
                 c = sum2 m) l counts.
Proof.
  intros Hrect Hpos Hones Hne Hin. unfold count_spot_neighbours.
  destruct (max_abs_nonempty (last_column (Yx l))) as [zmax ->].
  { simpl. by destruct l. }
  change (Ok zmax ≫= ?f) with (f zmax). cbv beta iota zeta.
  unfold flatten_filter.
  change (Ok None ≫= ?f) with (f (@None ndarray)). cbv beta iota.
  rewrite (is_binary_ones _ Hones). simpl negb. cbv iota.
  rewrite (spot_oob_inside (Arr2 a) _ Hin).
  change (Ok [] ≫= ?f) with (f (@nil (list Z))). cbv beta iota.
  unfold count_sign, middle_plane, imfilter, amap, ensure_odd_kernel, correlate.
  change (Ok (Arr2 m) ≫= ?f) with (f (Arr2 m)). cbv beta iota.
  set (k := ensure_odd_kernel2 true m).
  set (c := correlate2 0 (map2 positive a) k).
  change (Ok (Arr2 c) ≫= ?f) with (f (Arr2 c)). cbv beta iota. unfold sample.
  assert (rect2 (length a) (width a) c) as Hc.
  { unfold c, correlate2. apply rect2_imap2. by apply rect2_map2. }
  destruct (mapM_res_Forall (fun p : yx => get2 c p.1 p.2)
              (fun (p : yx) n =>
                 footprint_inside (Arr2 a) (Arr2 m) [p.1; p.2] = true → n = sum2 m)
              l) as (counts & -> & Hcounts).
  - apply Forall_forall. intros p Hp.
    assert (inb2 a p.1 p.2 = true) as Hinb.
    { apply (proj1 (Forall_forall _ _) Hin [p.1; p.2]).
      simpl. apply list_elem_of_fmap. by exists p. }
    apply inb2_spec in Hinb as [Hy Hx].
    destruct (get2_inside _ _ c p.1 p.2 Hc Hy Hx) as (n & Hat & Hget).
    exists n. split; [done|]. intros Hfoot.
    assert (at2 c (Z.to_nat p.1) (Z.to_nat p.2) = Some (sum2 k)) as Hsum.
    { apply correlate2_footprint.
      - rewrite at2_map2. apply fmap_is_Some.
        apply (at2_inside _ _ a _ _ Hrect); lia.
      - intros u v kv Huv Hkv. rewrite !Z2Nat.id by lia.
        apply getpad2_positive; [done..|].
        by apply (footprint_inside_2d a m p.1 p.2 u v kv). }
    rewrite Hsum in Hat. injection Hat as <-. apply sum2_ensure_odd.
  - simpl. eexists. split; [done|]. done.
Qed.

Lemma count_spot_neighbours_3d (a m : list (list (list Z))) (l : list yxz) :
  rect3 (length a) (width a) (depth a) a →
  Forall (Forall (Forall (fun v => 0 < v))) a →
  all_cells (fun v => v = 1) (Arr3 m) →
  l ≠ [] →
  Forall (fun spot => in_bounds (Arr3 a) spot = true) (spot_rows (Yxz l)) →
  ∃ counts,
    count_spot_neighbours (Arr3 a) (Yxz l) (Arr3 m) None = Ok (counts, None)
    ∧ Forall2 (fun (p : yxz) c =>
                 footprint_inside (Arr3 a) (Arr3 m) [p.1.1; p.1.2; p.2] = true →
                 c = sum3 m) l counts.
Proof.
  intros Hrect Hpos Hones Hne Hin. unfold count_spot_neighbours.
  destruct (max_abs_nonempty (last_column (Yxz l))) as [zmax ->].
  { simpl. by destruct l. }
  change (Ok zmax ≫= ?f) with (f zmax). cbv beta iota zeta.
  unfold flatten_filter.
  change (Ok None ≫= ?f) with (f (@None ndarray)). cbv beta iota.
  rewrite (is_binary_ones _ Hones). simpl negb. cbv iota.
  rewrite (spot_oob_inside (Arr3 a) _ Hin).
  change (Ok [] ≫= ?f) with (f (@nil (list Z))). cbv beta iota.
  unfold count_sign, middle_plane, imfilter, amap, ensure_odd_kernel, correlate.
  change (Ok (Arr3 m) ≫= ?f) with (f (Arr3 m)). cbv beta iota.
  set (k := ensure_odd_kernel3 true m).
  set (c := correlate3 0 (map3 positive a) k).
  change (Ok (Arr3 c) ≫= ?f) with (f (Arr3 c)). cbv beta iota. unfold sample.
  assert (rect3 (length a) (width a) (depth a) c) as Hc.
  { unfold c, correlate3. destruct Hrect as [Hh Hplanes].
    split; [by unfold map3; rewrite length_imap, length_fmap|].
    apply Forall_lookup. intros i p Hi. rewrite list_lookup_imap in Hi.
    unfold map3 in Hi. rewrite list_lookup_fmap in Hi.
    destruct (a !! i) as [plane|] eqn:Hplane; simplify_eq/=.
    apply (rect2_imap2 (fun j l => _)), rect2_map2.
    exact (proj1 (Forall_lookup _ _) Hplanes _ _ Hplane). }
  destruct (mapM_res_Forall (fun p : yxz => get3 c p.1.1 p.1.2 p.2)
              (fun (p : yxz) n =>
                 footprint_inside (Arr3 a) (Arr3 m) [p.1.1; p.1.2; p.2] = true →
                 n = sum3 m)
              l) as (counts & -> & Hcounts).
  - apply Forall_forall. intros p Hp.
    assert (inb3 a p.1.1 p.1.2 p.2 = true) as Hinb.
    { apply (proj1 (Forall_forall _ _) Hin [p.1.1; p.1.2; p.2]).
      simpl. apply list_elem_of_fmap. by exists p. }
    apply inb3_spec in Hinb as (Hy & Hx & Hz).
    destruct (get3_inside _ _ _ c p.1.1 p.1.2 p.2 Hc Hy Hx Hz) as (n & Hat & Hget).
    exists n. split; [done|]. intros Hfoot.
    assert (at3 c (Z.to_nat p.1.1) (Z.to_nat p.1.2) (Z.to_nat p.2)
            = Some (sum3 k)) as Hsum.
    { apply correlate3_footprint.
      - rewrite at3_map3. apply fmap_is_Some.
        apply (at3_inside _ _ _ a _ _ _ Hrect); lia.
      - intros u v w kv Huv Hkv. rewrite !Z2Nat.id by lia.
        apply getpad3_positive; [done..|].
        by apply (footprint_inside_3d a m p.1.1 p.1.2 p.2 u v w kv). }
    rewrite Hsum in Hat. injection Hat as <-. apply sum3_ensure_odd.
  - simpl. eexists. split; [done|]. done.
Qed.

Lemma sumZ_ones (r : list Z) : Forall (fun v => v = 1) r → sumZ r = Z.of_nat (length r).
Proof.
  induction 1 as [|v r -> _ IH]; [done|].
  change (1 + sumZ r = Z.of_nat (S (length r))). lia.
Qed.

Lemma sum2_ones h w (m : list (list Z)) :
  rect2 h w m → Forall (Forall (fun v => v = 1)) m →
  sum2 m = Z.of_nat h * Z.of_nat w.
Proof.
  intros [<- Hrows] Hones. unfold sum2.
  induction m as [|r m IH]; [simpl; lia|].
  apply Forall_cons in Hrows as [Hr Hrows]. apply Forall_cons in Hones as [H1 Hones].
  change (sumZ r + sumZ (sumZ <$> m) = Z.of_nat (S (length m)) * Z.of_nat w).
  rewrite (IH Hrows Hones), (sumZ_ones r H1), Hr. lia.
Qed.

Lemma sum3_ones h w d (m : list (list (list Z))) :
  rect3 h w d m → Forall (Forall (Forall (fun v => v = 1))) m →
  sum3 m = Z.of_nat h * (Z.of_nat w * Z.of_nat d).
Proof.
  intros [<- Hplanes] Hones. unfold sum3.
  induction m as [|p m IH]; [simpl; lia|].
  apply Forall_cons in Hplanes as [Hp Hplanes].
  apply Forall_cons in Hones as [H1 Hones].
  change (sum2 p + sumZ (sum2 <$> m)
          = Z.of_nat (S (length m)) * (Z.of_nat w * Z.of_nat d)).
  rewrite (IH Hplanes Hones), (sum2_ones w d p Hp H1). lia.
Qed.

Lemma np_sum_ones (mask : ndarray) :
  rect mask → all_cells (fun v => v = 1) mask → np_sum mask = n_cells mask.
Proof.
  destruct mask as [m|m]; simpl; intros Hrect Hones.
  - rewrite (sum2_ones _ _ m Hrect Hones). unfold n_cells, width. simpl. lia.
  - rewrite (sum3_ones _ _ _ m Hrect Hones). unfold n_cells, depth, width. simpl. lia.
Qed.

(** C7: for an image whose pixels are all positive, a mask of ones and
    spots inside the image (all of the same rank),
    [count_spot_neighbours] returns one count per spot, and the count of
    every spot at which the footprint of the mask lies inside the image is
    the number of cells of the mask. *)
Theorem count_spot_neighbours_all_ones (image mask : ndarray) (spot_yxz : spots) :
  same_rank image mask spot_yxz →
  rect image → rect mask →
  all_cells (fun v => 0 < v) image →
  all_cells (fun v => v = 1) mask →
  (0 < n_spots spot_yxz)%nat →
  Forall (fun spot => in_bounds image spot = true) (spot_rows spot_yxz) →
  ∃ counts,
    count_spot_neighbours image spot_yxz mask None = Ok (counts, None)
    ∧ length counts = n_spots spot_yxz
    ∧ np_sum mask = n_cells mask
    ∧ ∀ i spot, spot_rows spot_yxz !! i = Some spot →
        footprint_inside image mask spot = true →
        counts !! i = Some (n_cells mask).
Proof.
  intros Hrank Hrect Hmask Hpos Hones Hn Hin.
  pose proof (np_sum_ones mask Hmask Hones) as Hsum.
  destruct image as [a|a], mask as [m|m], spot_yxz as [l|l]; try done.
  - destruct (count_spot_neighbours_2d a m l Hrect Hpos Hones) as (counts & Hc & Hall);
      [intros ->; simpl in Hn; lia|done|].
    exists counts. split; [done|].
    split; [symmetry; apply (Forall2_length _ _ _ Hall)|]. split; [done|].
    intros i spot Hi Hfoot. simpl in Hi. rewrite list_lookup_fmap in Hi.
    destruct (l !! i) as [p|] eqn:Hp; simplify_eq/=.
    destruct (Forall2_lookup_l _ _ _ _ _ Hall Hp) as (c & -> & Hcount).
    by rewrite (Hcount Hfoot), <- Hsum.
  - destruct (count_spot_neighbours_3d a m l Hrect Hpos Hones) as (counts & Hc & Hall);
      [intros ->; simpl in Hn; lia|done|].
    exists counts. split; [done|].
    split; [symmetry; apply (Forall2_length _ _ _ Hall)|]. split; [done|].
    intros i spot Hi Hfoot. simpl in Hi. rewrite list_lookup_fmap in Hi.
    destruct (l !! i) as [p|] eqn:Hp; simplify_eq/=.
    destruct (Forall2_lookup_l _ _ _ _ _ Hall Hp) as (c & -> & Hcount).
    by rewrite (Hcount Hfoot), <- Hsum.
Qed.

Lemma count_spot_neighbours_all_ones_witness :
  ∃ counts,
    count_spot_neighbours (Arr2 [[3; 1; 2; 5]; [1; 1; 4; 1]; [2; 7; 1; 1]])
                          (Yx [(1, 1); (0, 0); (1, 2)])
                          (Arr2 [[1; 1]; [1; 1]; [1; 1]]) None
    = Ok (counts, None)
    ∧ counts !! 2%nat = Some 6.
Proof.
  destruct (count_spot_neighbours_all_ones
              (Arr2 [[3; 1; 2; 5]; [1; 1; 4; 1]; [2; 7; 1; 1]])
              (Arr2 [[1; 1]; [1; 1]; [1; 1]])
              (Yx [(1, 1); (0, 0); (1, 2)]))
    as (counts & Hc & _ & _ & Hcount).
  - exact I.
  - split; [reflexivity|]. repeat constructor.
  - split; [reflexivity|]. repeat constructor.
  - repeat constructor.
  - repeat constructor.
  - simpl. lia.
  - repeat constructor.
  - exists counts. split; [exact Hc|].
    apply (Hcount 2%nat [1; 2]); reflexivity.
Defined.

(** ** [get_spots]: the spots that are retained *)

Lemma sample_length (filtered : ndarray) (s : spots) (l : list Z) :
  sample filtered s = Ok l → length l = n_spots s.
Proof.
  destruct filtered, s; simpl; try done; intros H;
    apply mapM_res_Forall2, Forall2_length in H; done.
Qed.

Lemma count_sign_length sign image s filter (l : list Z) :
  count_sign sign image s filter = Ok l → length l = n_spots s.
Proof.
  unfold count_sign. intros H.
  apply bind_Ok in H as (f & _ & H). apply bind_Ok in H as (im & _ & H).
  by apply sample_length in H.
Qed.

Lemma count_spot_neighbours_length image s pos_filter neg_filter n_pos o :
  count_spot_neighbours image s pos_filter neg_filter = Ok (n_pos, o) →
  length n_pos = n_spots s
  ∧ match neg_filter with
    | Some _ => ∃ n_neg, o = Some n_neg ∧ length n_neg = n_spots s
    | None => o = None
    end.
Proof.
  unfold count_spot_neighbours. intros H.
  apply bind_Ok in H as (zmax & _ & H).
  set (s' := match image, s with
             | Arr2 _, Yxz l =>
                 if zmax =? 0 then Yx ((fun p : yxz => p.1) <$> l) else s
             | _, _ => s
             end) in *.
  assert (n_spots s' = n_spots s) as Hn.
  { unfold s'. destruct image, s; try done.
    destruct (zmax =? 0); [|done]. simpl. by rewrite length_fmap. }
  apply bind_Ok in H as (nf & Hnf & H).
  destruct (negb _); [done|].
  apply bind_Ok in H as (oob & _ & H).
  destruct oob; [|done].
  apply bind_Ok in H as (np & Hnp & H).
  apply count_sign_length in Hnp.
  destruct neg_filter as [f|]; simpl in Hnf.
  - destruct (is_binary _); [|done]. injection Hnf as <-.
    apply bind_Ok in H as (nn & Hnn & [= <- <-]).
    apply count_sign_length in Hnn.
    split; [lia|]. exists nn. split; [done|lia].
  - injection Hnf as <-. injection H as <- <-. split; [lia|done].
Qed.

Lemma select_true {A} (l : list A) : select (replicate (length l) true) l = l.
Proof. induction l as [|x l IH]; simpl; [done|]. by rewrite IH. Qed.

Lemma select_fmap {A B} (f : A → B) (mask : list bool) (l : list A) :
  select mask (f <$> l) = f <$> select mask l.
Proof.
  revert l. induction mask as [|b mask IH]; intros [|x l]; simpl; try done.
  destruct b; simpl; by rewrite IH.
Qed.

Lemma place_spots_select coef_image s keep coord_shift placed :
  place_spots coef_image s keep coord_shift = Ok placed →
  ∃ all, place_spots coef_image s (replicate (n_spots s) true) coord_shift = Ok all
         ∧ length all = n_spots s
         ∧ placed = select keep all.
Proof.
  unfold place_spots. destruct coef_image, s; try done; simpl; intros [= <-];
    rewrite select_true; (eexists; split; [done|]);
    rewrite length_fmap, select_fmap; done.
Qed.

Lemma retained_select (thresh : Z) (g : nat) (all : list yxz) (n_pos n_neg : list Z) :
  length n_pos = length all → length n_neg = length all →
  zip_with (fun (p : yxz) nb => (p.1.1, p.1.2, p.2, Z.of_nat g, nb))
    (select ((fun c => thresh <? c) <$> n_pos) all)
    (Some <$> zip (select ((fun c => thresh <? c) <$> n_pos) n_pos)
                  (select ((fun c => thresh <? c) <$> n_pos) n_neg))
  = retained thresh g all n_pos n_neg.
Proof.
  revert n_pos n_neg.
  induction all as [|p all IH]; intros [|c n_pos] [|d n_neg]; simpl; try done.
  intros [= H1] [= H2]. destruct (thresh <? c); simpl; by rewrite IH.
Qed.

Lemma foldM_append {A B} (f : A → result (list B)) (l : list A) (acc out : list B) :
  foldM (fun acc x => r ← f x; Ok (acc ++ r)) acc l = Ok out →
  ∃ per, Forall2 (fun x r => f x = Ok r) l per ∧ out = acc ++ concat per.
Proof.
  revert acc. induction l as [|x l IH]; intros acc; simpl.
  - intros [= <-]. exists []. split; [constructor|]. by rewrite app_nil_r.
  - intros H. apply bind_Ok in H as (acc' & Hacc & H).
    apply bind_Ok in Hacc as (r & Hr & [= <-]).
    destruct (IH _ H) as (per & Hper & ->).
    exists (r :: per). split; [by constructor|]. simpl. by rewrite app_assoc.
Qed.

Section GetSpotsRetained.

Variable detect_spots : ndarray → Z → Z → option Z → spots.
Variable choice : nat → nat → list nat.

Lemma gene_spots_retained pixel_coefs pixel_yxz radius_xy radius_z coef_thresh
    pos_filter neg_filter thresh spot_yxzg g rows :
  gene_spots detect_spots pixel_coefs pixel_yxz radius_xy radius_z coef_thresh
             (Some (pos_filter, neg_filter)) thresh spot_yxzg g = Ok rows →
  ∃ coef_image coord_shift,
    cropped_coef_image pixel_yxz (sparse pixel_coefs) (column pixel_coefs g)
    = Ok (coef_image, coord_shift)
    ∧ ((n_spots (gene_candidates detect_spots radius_xy radius_z coef_thresh
                   spot_yxzg coef_image coord_shift g) = 0%nat ∧ rows = [])
       ∨ ∃ n_pos n_neg placed,
           count_spot_neighbours coef_image
             (gene_candidates detect_spots radius_xy radius_z coef_thresh
                spot_yxzg coef_image coord_shift g)
             pos_filter (Some neg_filter) = Ok (n_pos, Some n_neg)
           ∧ place_spots coef_image
               (gene_candidates detect_spots radius_xy radius_z coef_thresh
                  spot_yxzg coef_image coord_shift g)
               (replicate (length n_pos) true) coord_shift = Ok placed
           ∧ length placed = length n_pos ∧ length n_neg = length n_pos
           ∧ rows = retained thresh g placed n_pos n_neg).
Proof.
  unfold gene_spots. intros H.
  apply bind_Ok in H as ([coef_image coord_shift] & Hcrop & H).
  exists coef_image, coord_shift. split; [done|].
  set (cand := gene_candidates detect_spots radius_xy radius_z coef_thresh
                 spot_yxzg coef_image coord_shift g) in *.
  destruct (Nat.ltb_spec 0 (n_spots cand)) as [Hpos|Hzero].
  - right. apply bind_Ok in H as ([keep nb] & Hcount & H).
    apply bind_Ok in Hcount as ([n_pos o] & Hcount & [= <- <-]).
    destruct (count_spot_neighbours_length _ _ _ _ _ _ Hcount)
      as (Hlen & n_neg & -> & Hlen').
    apply bind_Ok in H as (placed & Hplaced & [= <-]).
    destruct (place_spots_select _ _ _ _ _ Hplaced) as (all & Hall & Hlen_all & ->).
    exists n_pos, n_neg, all. rewrite Hlen.
    split; [done|]. split; [done|]. split; [lia|]. split; [lia|].
    simpl. apply retained_select; lia.
  - left. injection H as <-. split; [lia|done].
Qed.

(** C5: with a spot shape, [get_spots] raises a [ValueError] when the shape
    has no cell equal to 1 or no cell equal to -1, and an
    [OutOfBoundsError] when the threshold is not below the number of
    pixels of the positive mask.  When it returns, the threshold is in
    [0, that number), and the rows of each gene are those of the spots of
    the gene whose number of positive neighbours exceeds the threshold,
    each with its two counts. *)
Theorem get_spots_with_shape pixel_coefs pixel_yxz radius_xy radius_z coef_thresh
    (spot_shape : ndarray) thresh spot_yxzg :
  length pixel_yxz = n_pixels pixel_coefs →
  (count_eq 1 spot_shape = 0 ∨ count_eq (-1) spot_shape = 0 →
   ∃ msg, get_spots detect_spots choice pixel_coefs pixel_yxz radius_xy radius_z
                    coef_thresh (Some spot_shape) thresh spot_yxzg
          = Err (ValueError msg))
  ∧ (count_eq 1 spot_shape ≠ 0 → count_eq (-1) spot_shape ≠ 0 →
     np_sum (amap positive spot_shape) ≤ thresh →
     get_spots detect_spots choice pixel_coefs pixel_yxz radius_xy radius_z
               coef_thresh (Some spot_shape) thresh spot_yxzg
     = Err (OutOfBoundsError "pos_neighbour_thresh" [thresh] [0]
                             [np_sum (amap positive spot_shape) - 1]))
  ∧ ∀ spot_info,
      get_spots detect_spots choice pixel_coefs pixel_yxz radius_xy radius_z
                coef_thresh (Some spot_shape) thresh spot_yxzg = Ok spot_info →
      0 ≤ thresh < np_sum (amap positive spot_shape)
      ∧ ∃ per_gene,
          spot_info = concat per_gene
          ∧ length per_gene = n_genes pixel_coefs
          ∧ ∀ g rows, per_gene !! g = Some rows →
            ∃ coef_image coord_shift,
              cropped_coef_image pixel_yxz (sparse pixel_coefs)
                                 (column pixel_coefs g)
              = Ok (coef_image, coord_shift)
              ∧ ((n_spots (gene_candidates detect_spots radius_xy radius_z
                             coef_thresh spot_yxzg coef_image coord_shift g)
                  = 0%nat ∧ rows = [])
                 ∨ ∃ n_pos n_neg placed,
                     count_spot_neighbours coef_image
                       (gene_candidates detect_spots radius_xy radius_z
                          coef_thresh spot_yxzg coef_image coord_shift g)
                       (amap positive spot_shape)
                       (Some (amap negative spot_shape))
                     = Ok (n_pos, Some n_neg)
                     ∧ place_spots coef_image
                         (gene_candidates detect_spots radius_xy radius_z
                            coef_thresh spot_yxzg coef_image coord_shift g)
                         (replicate (length n_pos) true) coord_shift = Ok placed
                     ∧ length placed = length n_pos
                     ∧ length n_neg = length n_pos
                     ∧ rows = retained thresh g placed n_pos n_neg).
Proof.
  intros Hlen. split; [|split].
  - intros Hsign.
    destruct (shape_filters_no_sign spot_shape thresh Hsign) as [msg Hmsg].
    exists msg. by apply get_spots_invalid_shape.
  - intros Hpos Hneg Hthresh. apply get_spots_invalid_shape; [done|].
    apply shape_filters_out_of_bounds; auto.
  - intros spot_info H. unfold get_spots in H.
    rewrite Hlen, Nat.eqb_refl in H. simpl in H.
    apply bind_Ok in H as (filters & Hfilters & H).
    apply shape_filters_Some in Hfilters as (-> & _ & _ & Hthresh).
    split; [done|].
    apply bind_Ok in H as (_ & _ & H).
    apply foldM_append in H as (per & Hper & ->).
    exists per. split; [done|].
    split; [by rewrite <- (Forall2_length _ _ _ Hper), length_seq|].
    intros g rows Hg.
    destruct (Forall2_lookup_r _ _ _ _ _ Hper Hg) as (g' & Hg' & Hrows).
    apply lookup_seq in Hg' as [-> _]. simpl in Hrows.
    by apply gene_spots_retained in Hrows.
Qed.

End GetSpotsRetained.

Lemma get_spots_with_shape_witness :
  (∃ msg, get_spots example_detect_spots example_choice example_coefs example_yxz
                    1 None 0 (Some (Arr3 [[[1; 0]; [0; 0]]])) 0 None
          = Err (ValueError msg))
  ∧ get_spots example_detect_spots example_choice example_coefs example_yxz
              1 None 0 (Some (Arr3 [[[1; 0]; [-1; 0]]])) 1 None
    = Err (OutOfBoundsError "pos_neighbour_thresh" [1] [0] [0])
  ∧ get_spots example_detect_spots example_choice example_coefs example_yxz
              1 None 0 (Some (Arr3 [[[1; 0]; [-1; 0]]])) 0 None
    = Ok [(0, 0, 0, 0, Some (1, 0)); (1, 0, 0, 0, Some (1, 1))]
  ∧ 0 < np_sum (amap positive (Arr3 [[[1; 0]; [-1; 0]]])).
Proof.
  destruct (get_spots_with_shape example_detect_spots example_choice
              example_coefs example_yxz 1 None 0
              (Arr3 [[[1; 0]; [0; 0]]]) 0 None eq_refl) as (Hsign & _ & _).
  destruct (get_spots_with_shape example_detect_spots example_choice
              example_coefs example_yxz 1 None 0
              (Arr3 [[[1; 0]; [-1; 0]]]) 1 None eq_refl) as (_ & Hbound & _).
  destruct (get_spots_with_shape example_detect_spots example_choice
              example_coefs example_yxz 1 None 0
              (Arr3 [[[1; 0]; [-1; 0]]]) 0 None eq_refl) as (_ & _ & Hkept).
  split; [apply Hsign; by right|].
  split; [apply Hbound; vm_compute; congruence|].
  split; [reflexivity|].
  destruct (Hkept _ eq_refl) as [Hthresh _]. lia.
Defined.

(** ** [spot_neighbourhood]: the spots that are used *)

Lemma select_lookup_from (use : list bool) (n s : nat) :
  (∃ k, select use (seq n (length use)) !! k = Some (n + s)%nat)
  ↔ use !! s = Some true.
Proof.
  revert n s. induction use as [|b use IH]; intros n s.
  - simpl. split; [by intros [k Hk]|done].
  - change (seq n (length (b :: use))) with (n :: seq (S n) (length use)).
    destruct s as [|s].
    + rewrite Nat.add_0_r. simpl. split.
      * intros [k Hk]. destruct b; [done|].
        apply list_elem_of_lookup_2 in Hk.
        assert (n ∈ seq (S n) (length use)) as Hin.
        { clear -Hk. revert Hk. generalize (seq (S n) (length use)).
          induction use as [|b use IH]; intros [|x l]; simpl; try by intros ?%elem_of_nil.
          destruct b; rewrite ?elem_of_cons; intros H; [destruct H as [->|H]|];
            [by left|right; eauto|right; eauto]. }
        apply elem_of_seq in Hin. lia.
      * intros [= ->]. by exists 0%nat.
    + replace (n + S s)%nat with (S n + s)%nat by lia. simpl.
      rewrite <- (IH (S n) s). destruct b; [|done]. split.
      * intros [[|k] Hk]; simpl in Hk; [injection Hk; lia|by exists k].
      * intros [k Hk]. by exists (S k).
Qed.

Lemma where_true_lookup (use : list bool) (s : nat) :
  (∃ k, where_true use !! k = Some s) ↔ use !! s = Some true.
Proof. apply (select_lookup_from use 0 s). Qed.

Lemma select_sublist {A} (mask : list bool) (l : list A) (x : A) :
  x ∈ select mask l → x ∈ l.
Proof.
  revert l. induction mask as [|b mask IH]; intros [|y l]; simpl;
    try by intros ?%elem_of_nil.
  destruct b; rewrite ?elem_of_cons; intros H.
  - destruct H as [->|H]; [by left|right; eauto].
  - right. eauto.
Qed.

Lemma NoDup_select {A} (mask : list bool) (l : list A) :
  NoDup l → NoDup (select mask l).
Proof.
  revert l. induction mask as [|b mask IH]; intros [|y l] Hnd; simpl;
    try constructor.
  apply NoDup_cons in Hnd as [Hy Hnd]. destruct b; [|by apply IH].
  apply NoDup_cons. split; [|by apply IH].
  intros Hin. by apply select_sublist in Hin.
Qed.

Lemma length_select_same {A B} (mask : list bool) (l1 : list A) (l2 : list B) :
  length l1 = length mask → length l2 = length mask →
  length (select mask l1) = length (select mask l2).
Proof.
  revert l1 l2. induction mask as [|b mask IH]; intros [|x l1] [|y l2]; simpl;
    try done.
  intros [= H1] [= H2]. destruct b; simpl; by rewrite (IH l1 l2).
Qed.

(** A spot that stays in [use] is one of the spots of the gene, and its
    entry of [g_use] is true. *)
Lemma refine_lookup_from (use g_use : list bool) (n s : nat) :
  length g_use = length (select use (seq n (length use))) →
  refine use g_use !! s = Some true →
  ∃ k, select use (seq n (length use)) !! k = Some (n + s)%nat
       ∧ g_use !! k = Some true.
Proof.
  revert g_use n s. induction use as [|b use IH]; intros g_use n s Hlen Hs.
  - by destruct s.
  - change (seq n (length (b :: use))) with (n :: seq (S n) (length use)) in *.
    destruct b; simpl in *.
    + destruct g_use as [|b' g_use]; [done|]. simpl in Hlen.
      destruct s as [|s]; simpl in Hs.
      * injection Hs as ->. exists 0%nat. by rewrite Nat.add_0_r.
      * destruct (IH g_use (S n) s) as (k & Hk & Hg); [lia|done|].
        exists (S k). simpl. split; [|done].
        rewrite Hk. f_equal. lia.
    + destruct s as [|s]; simpl in Hs; [done|].
      destruct (IH g_use (S n) s Hlen Hs) as (k & Hk & Hg).
      exists k. split; [|done]. rewrite Hk. f_equal. lia.
Qed.

Lemma positive_neighbours_length pixel_coefs pixel_yxz spot_yxz use pos_filter g
    coef_sign_image g_spot_yxz counts :
  positive_neighbours pixel_coefs pixel_yxz spot_yxz use pos_filter g
  = Ok (coef_sign_image, g_spot_yxz, counts) →
  length counts = length (select use spot_yxz).
Proof.
  unfold positive_neighbours. intros H.
  apply bind_Ok in H as ([coef_image coord_shift] & _ & H).
  apply bind_Ok in H as ([n o] & Hcount & [= <- <- <-]).
  apply count_spot_neighbours_length in Hcount as [Hlen _].
  simpl in *. by rewrite length_fmap in Hlen.
Qed.

Lemma positive_count_functional pixel_coefs pixel_yxz spot_yxz spot_gene_no
    pos_filter s c c' :
  positive_count pixel_coefs pixel_yxz spot_yxz spot_gene_no pos_filter s c →
  positive_count pixel_coefs pixel_yxz spot_yxz spot_gene_no pos_filter s c' →
  c = c'.
Proof.
  intros (g & im & sp & counts & k & Hg & Hn & Hk & Hc)
         (g' & im' & sp' & counts' & k' & Hg' & Hn' & Hk' & Hc').
  assert (g' = g) as -> by (rewrite Hg in Hg'; injection Hg'; lia).
  rewrite Hn in Hn'. injection Hn' as <- <- <-.
  assert (k' = k) as ->.
  { eapply (NoDup_lookup (where_true (gene_mask spot_gene_no g))); [|done..].
    apply NoDup_select, NoDup_seq. }
  congruence.
Qed.

Section SpotNeighbourhoodFacts.

Variable get_spot_images :
  ndarray → list yxz → list Z → list (list (list (list (option Z)))).
Variable get_isolated_points : list (Q * Q * Q) → Q → list bool.
Variable get_average_spot_image :
  list (list (list (list Z))) → list (list (list Q)).

Lemma collect_gene_used pixel_coefs pixel_yxz spot_yxz spot_gene_no pos_filter
    max_size spot_images spots_used g spot_images' spots_used' :
  length spot_yxz = length spot_gene_no →
  collect_gene get_spot_images pixel_coefs pixel_yxz spot_yxz spot_gene_no
               pos_filter max_size (spot_images, spots_used) g
  = Ok (spot_images', spots_used') →
  ∀ s, spots_used' !! s = Some true →
       spots_used !! s = Some true
       ∨ positive_count pixel_coefs pixel_yxz spot_yxz spot_gene_no pos_filter
                        s (sum3 pos_filter).
Proof.
  intros Hlen. unfold collect_gene. fold (gene_mask spot_gene_no g).
  set (use := gene_mask spot_gene_no g).
  destruct (any use); [|intros [= <- <-]; auto].
  intros H. apply bind_Ok in H as ([[im sp] counts] & Hn & H).
  set (g_use := (fun n => n =? sum3 pos_filter) <$> counts) in *.
  destruct (any (refine use g_use)); [|injection H as <- <-; auto].
  apply bind_Ok in H as (imgs & _ & [= <- <-]).
  intros s Hs. apply lookup_zip_with_Some in Hs as (a & b & Hab & Ha & Hb).
  destruct b; [by left|right].
  destruct a; [|done].
  assert (length g_use = length (select use (seq 0 (length use)))) as Hlen'.
  { unfold g_use. rewrite length_fmap.
    rewrite (positive_neighbours_length _ _ _ _ _ _ _ _ _ Hn).
    apply length_select_same; unfold use, gene_mask;
      rewrite ?length_fmap, ?length_seq; done. }
  destruct (refine_lookup_from use g_use 0 s Hlen' Ha) as (k & Hk & Hg).
  simpl in Hk. unfold g_use in Hg. rewrite list_lookup_fmap in Hg.
  destruct (counts !! k) as [c|] eqn:Hc; [|done].
  injection Hg as Hg. apply Z.eqb_eq in Hg as ->.
  exists g, im, sp, counts, k. split; [|done].
  assert (use !! s = Some true) as Huse by (apply where_true_lookup; eauto).
  unfold use, gene_mask in Huse. rewrite list_lookup_fmap in Huse.
  destruct (spot_gene_no !! s) as [gene|]; [|done].
  injection Huse as Huse. apply Z.eqb_eq in Huse. by subst.
Qed.

Lemma collect_genes_used pixel_coefs pixel_yxz spot_yxz spot_gene_no pos_filter
    max_size genes st st' :
  length spot_yxz = length spot_gene_no →
  foldM (collect_gene get_spot_images pixel_coefs pixel_yxz spot_yxz
                      spot_gene_no pos_filter max_size) st genes = Ok st' →
  ∀ s, st'.2 !! s = Some true →
       st.2 !! s = Some true
       ∨ positive_count pixel_coefs pixel_yxz spot_yxz spot_gene_no pos_filter
                        s (sum3 pos_filter).
Proof.
  intros Hlen. revert st. induction genes as [|g genes IH]; intros st; simpl.
  - intros [= <-]. auto.
  - intros H. apply bind_Ok in H as (st1 & Hst1 & H). intros s Hs.
    destruct (IH st1 H s Hs) as [Hs1|Hcount]; [|by right].
    destruct st as [imgs used], st1 as [imgs1 used1].
    by apply (collect_gene_used _ _ _ _ _ _ _ _ _ _ _ Hlen Hst1).
Qed.

(** C4: a spot is used to learn the shape only if its number of positive
    neighbours under the filter of expected positive coefficients equals
    the sum of that filter; a spot with a smaller count is not among the
    spots used. *)
Theorem spot_neighbourhood_full_agreement pixel_coefs pixel_yxz spot_yxz
    spot_gene_no max_size pos_neighbour_thresh isolation_dist z_scale
    mean_sign_thresh av_spot_image spot_indices_used av_spot_image_float :
  spot_neighbourhood get_spot_images get_isolated_points get_average_spot_image
                     pixel_coefs pixel_yxz spot_yxz spot_gene_no max_size
                     pos_neighbour_thresh isolation_dist z_scale mean_sign_thresh
  = Ok (av_spot_image, spot_indices_used, av_spot_image_float) →
  ∃ top pos_filter,
    max_axis0 pixel_yxz = Ok top
    ∧ make_pos_filter pos_neighbour_thresh (top.2 + 1) = Ok pos_filter
    ∧ (∀ s, s ∈ spot_indices_used →
            positive_count pixel_coefs pixel_yxz spot_yxz spot_gene_no
                           pos_filter s (sum3 pos_filter))
    ∧ (∀ s c, positive_count pixel_coefs pixel_yxz spot_yxz spot_gene_no
                             pos_filter s c →
              c < sum3 pos_filter → s ∉ spot_indices_used).
Proof.
  unfold spot_neighbourhood. intros H.
  destruct (Nat.eqb_spec (length pixel_yxz) (n_pixels pixel_coefs)); [|done].
  destruct (Nat.eqb_spec (length spot_yxz) (length spot_gene_no)) as [Hlen|];
    [|done].
  simpl in H. apply bind_Ok in H as (top & Htop & H).
  destruct (pos_neighbour_thresh <? 0); [done|].
  apply bind_Ok in H as (pos_filter & Hfilter & H).
  apply bind_Ok in H as (sizes & _ & H).
  apply bind_Ok in H as ([[n0 n1] n2] & _ & H).
  apply bind_Ok in H as ([spot_images spots_used] & Hfold & H).
  destruct (negb (any spots_used)); [done|].
  destruct (negb _); [done|]. injection H as <- <- <-.
  exists top, pos_filter. split; [done|]. split; [done|].
  assert (∀ s, s ∈ select
                 (get_isolated_points
                    ((fun p : yxz => (inject_Z p.1.1, inject_Z p.1.2,
                                      (inject_Z p.2 * z_scale)%Q))
                     <$> select spots_used spot_yxz) isolation_dist)
                 (where_true spots_used) →
            positive_count pixel_coefs pixel_yxz spot_yxz spot_gene_no
                           pos_filter s (sum3 pos_filter)) as Hused.
  { intros s Hs. apply select_sublist in Hs.
    apply list_elem_of_lookup in Hs as [k Hk].
    assert (spots_used !! s = Some true) as Hs by (apply where_true_lookup; eauto).
    destruct (collect_genes_used _ _ _ _ _ _ _ _ _ Hlen Hfold s Hs) as [Hinit|Hc];
      [|done].
    simpl in Hinit. apply lookup_replicate in Hinit as [[=] _]. }
  split; [done|].
  intros s c Hc Hlt Hs.
  pose proof (positive_count_functional _ _ _ _ _ _ _ _ Hc (Hused s Hs)). lia.
Qed.

End SpotNeighbourhoodFacts.

Lemma spot_neighbourhood_full_agreement_witness :
  ∃ pos_filter,
    make_pos_filter 1 2 = Ok pos_filter
    ∧ positive_count example_coefs example_yxz [(0, 0, 0); (1, 1, 0); (2, 2, 0)]
                     [0; 0; 0] pos_filter 2 (sum3 pos_filter)
    ∧ (positive_count example_coefs example_yxz [(0, 0, 0); (1, 1, 0); (2, 2, 0)]
                      [0; 0; 0] pos_filter 1 0 → 0 < sum3 pos_filter →
       1%nat ∉ [0%nat; 2%nat]).
Proof.
  destruct (spot_neighbourhood_full_agreement
              example_get_spot_images example_get_isolated_points
              example_get_average_spot_image
              example_coefs example_yxz [(0, 0, 0); (1, 1, 0); (2, 2, 0)]
              [0; 0; 0] [3; 3; 1] 1 2 1 (1 # 2)
              [[[1]]] [0%nat; 2%nat] [[[1%Q]]] eq_refl)
    as (top & pos_filter & Htop & Hfilter & Hused & Hunused).
  injection Htop as <-. exists pos_filter. split; [exact Hfilter|].
  split.
  - apply Hused. right. left.
  - apply Hunused.
Defined.

(** ** A 2-D image with 3-D spots and a 3-D filter

    The pipeline passes spots with a z column and a filter with a z axis
    also for a tile with a single z-plane.  When every z is 0 and the filter
    has one z-plane, [count_spot_neighbours] drops the z column and the z
    axis, and counts as for 2-D arguments. *)

Lemma max_abs_zeros (l : list Z) :
  l ≠ [] → Forall (fun z => z = 0) l → max_abs l = Ok 0.
Proof.
  destruct l as [|z l]; [done|]. intros _ Hl.
  apply Forall_cons in Hl as [-> Hl]. unfold max_abs. f_equal.
  induction Hl as [|z l -> _ IH]; [done|].
  change (Z.max (Z.abs 0) (foldr Z.max (Z.abs 0) (Z.abs <$> l)) = 0).
  rewrite IH. done.
Qed.

Lemma count_spot_neighbours_single_plane (a : list (list Z))
    (m : list (list (list Z))) (l : list yxz) :
  l ≠ [] → Forall (fun p : yxz => p.2 = 0) l → depth m = 1%nat →
  count_spot_neighbours (Arr2 a) (Yxz l) (Arr3 m) None
  = count_spot_neighbours (Arr2 a) (Yx ((fun p : yxz => p.1) <$> l))
                          (Arr2 (mean_last_axis m)) None.
Proof.
  intros Hne Hz Hd. unfold count_spot_neighbours.
  rewrite (max_abs_zeros (last_column (Yxz l))).
  2:{ simpl. by destruct l. }
  2:{ simpl. by apply Forall_fmap. }
  destruct (max_abs_nonempty (last_column (Yx ((fun p : yxz => p.1) <$> l))))
    as [zmax ->].
  { simpl. by destruct l. }
  change (Ok 0 ≫= ?f) with (f 0).
  change (Ok zmax ≫= ?f) with (f zmax). cbv beta iota zeta.
  change (0 =? 0) with true. cbv iota.
  unfold flatten_filter. by rewrite Hd.
Qed.

(** * Further properties *)

(** ** The members of the structuring elements *)

Lemma foldr_max_attained (l : list Z) (m0 : Z) :
  foldr Z.max m0 l = m0 ∨ foldr Z.max m0 l ∈ l.
Proof.
  induction l as [|x l IH]; [by left|].
  change (foldr Z.max m0 (x :: l)) with (Z.max x (foldr Z.max m0 l)).
  destruct (Z.max_spec x (foldr Z.max m0 l)) as [[_ ->]|[_ ->]].
  - destruct IH as [->|H]; [by left|]. right. by right.
  - right. by left.
Qed.

Lemma max_abs_attained (l : list Z) (m : Z) :
  max_abs l = Ok m → ∃ x, x ∈ l ∧ Z.abs x = m.
Proof.
  destruct l as [|x l]; [done|]. intros [= <-].
  destruct (foldr_max_attained (Z.abs <$> l) (Z.abs x)) as [->|H].
  - exists x. split; [by left|done].
  - apply list_elem_of_fmap in H as (y & Hy & Hin).
    exists y. split; [by right|done].
Qed.

Lemma elem_of_arange (lo hi k : Z) : k ∈ arange lo hi ↔ lo ≤ k < hi.
Proof. unfold arange. rewrite elem_of_seqZ. lia. Qed.

(** The largest absolute offset of a line of [2 p + 1] steps of [c]. *)
Lemma max_abs_line (p c : Z) :
  0 ≤ p → max_abs ((fun k => k * c) <$> arange (- p) (p + 1)) = Ok (p * Z.abs c).
Proof.
  intros Hp.
  destruct (max_abs_nonempty ((fun k => k * c) <$> arange (- p) (p + 1))) as [m Hm].
  { intros H. apply (f_equal length) in H.
    rewrite length_fmap, length_arange in H. simpl in H. lia. }
  rewrite Hm. f_equal.
  destruct (max_abs_bound _ _ Hm) as [_ Hall].
  destruct (max_abs_attained _ _ Hm) as (x & Hx & Habs).
  apply list_elem_of_fmap in Hx as (k & -> & Hk). apply elem_of_arange in Hk.
  assert (Z.abs (p * c) ≤ m) as Hle.
  { apply (proj1 (Forall_forall _ _) Hall). apply list_elem_of_fmap.
    exists p. split; [done|]. apply elem_of_arange. lia. }
  rewrite Z.abs_mul in Hle, Habs. nia.
Qed.

Lemma foldM_fmap {A B C} (f : B → A → result B) (g : C → A) (l : list C) (acc : B) :
  foldM f acc (g <$> l) = foldM (fun b x => f b (g x)) acc l.
Proof.
  revert acc. induction l as [|x l IH]; intros acc; [done|].
  simpl. destruct (f acc (g x)); [apply IH|done].
Qed.

Lemma zip_fmap_same {A B C} (f : A → B) (g : A → C) (l : list A) :
  zip (f <$> l) (g <$> l) = (fun x => (f x, g x)) <$> l.
Proof. induction l as [|x l IH]; [done|]. simpl. f_equal. apply IH. Qed.

(** Writing one value at a list of cells of a 2-D array. *)
Lemma set2_fold_const h w (keys : list (Z * Z)) (a : list (list Z)) (c : Z) :
  rect2 h w a →
  Forall (fun k : Z * Z => 0 ≤ k.1 < Z.of_nat h ∧ 0 ≤ k.2 < Z.of_nat w) keys →
  ∃ a', foldM (fun a (k : Z * Z) => set2 a k.1 k.2 c) a keys = Ok a'
        ∧ rect2 h w a'
        ∧ (∀ i j, (Z.of_nat i, Z.of_nat j) ∈ keys → at2 a' i j = Some c)
        ∧ (∀ i j, (Z.of_nat i, Z.of_nat j) ∉ keys → at2 a' i j = at2 a i j).
Proof.
  intros Ha Hkeys. revert a Ha.
  induction Hkeys as [|k keys [Hk1 Hk2] _ IH]; intros a Ha.
  - exists a. split; [done|]. split; [done|]. split; [|done].
    intros i j H. by apply elem_of_nil in H.
  - destruct (set2_inside h w a k.1 k.2 c Ha Hk1 Hk2) as (a1 & Hset & Ha1 & Hat).
    destruct (IH a1 Ha1) as (a' & Hfold & Ha' & Hin & Hout).
    exists a'. simpl. rewrite Hset. simpl. split; [done|]. split; [done|]. split.
    + intros i j Hij.
      destruct (decide ((Z.of_nat i, Z.of_nat j) ∈ keys)) as [Hks|Hks]; [by apply Hin|].
      rewrite Hout by done. rewrite Hat.
      apply elem_of_cons in Hij as [Hij|Hij]; [|done].
      rewrite decide_True; [done|]. destruct k as [k1 k2]. simpl.
      injection Hij as <- <-. lia.
    + intros i j Hij. apply not_elem_of_cons in Hij as [Hne Hks].
      rewrite Hout by done. rewrite Hat.
      rewrite decide_False; [done|]. intros [-> ->]. apply Hne.
      destruct k as [k1 k2]. simpl in *. f_equal; lia.
Qed.

Lemma getpad2_outside {A} (cval : A) h w (a : list (list A)) (y x : Z) :
  rect2 h w a → ¬ (0 ≤ y < Z.of_nat h ∧ 0 ≤ x < Z.of_nat w) →
  getpad2 cval a y x = cval.
Proof.
  intros [Hlen Hrows] Hout. unfold getpad2.
  destruct (Z.leb_spec 0 y); [|done]. destruct (Z.leb_spec 0 x); [|done]. simpl.
  destruct (a !! Z.to_nat y) as [r|] eqn:Hr; [|done]. simpl.
  assert (length r = w) as Hw by (by eapply (proj1 (Forall_lookup _ _) Hrows)).
  apply lookup_lt_Some in Hr.
  rewrite lookup_ge_None_2; [done|]. lia.
Qed.

Lemma getpad2_at2 {A} (cval : A) (a : list (list A)) (y x : Z) :
  0 ≤ y → 0 ≤ x →
  getpad2 cval a y x = default cval (at2 a (Z.to_nat y) (Z.to_nat x)).
Proof.
  intros Hy Hx. unfold getpad2, at2.
  destruct (Z.leb_spec 0 y); [|lia]. by destruct (Z.leb_spec 0 x); [|lia].
Qed.

(** X1: for [p >= 0], [Strel.periodic_line(p, v)] returns a mask of
    [2 p |v0| + 1] rows and [2 p |v1| + 1] columns.  Counted from the centre
    cell, the cell at the offset [(d0, d1)] is 1 exactly when
    [(d0, d1) = k v] for some [-p <= k <= p]; every other cell is 0, and the
    mask is symmetric under the point reflection in the centre. *)
Theorem periodic_line_members (p : Z) (v : Z * Z) :
  0 ≤ p →
  ∃ nhood,
    periodic_line p v = Ok nhood
    ∧ rect2 (Z.to_nat (2 * (p * Z.abs v.1) + 1)) (Z.to_nat (2 * (p * Z.abs v.2) + 1))
            nhood
    ∧ ∀ d0 d1 : Z,
        let m := getpad2 0 nhood (p * Z.abs v.1 + d0) (p * Z.abs v.2 + d1) in
        (m = 1 ↔ ∃ k, - p ≤ k ≤ p ∧ d0 = k * v.1 ∧ d1 = k * v.2)
        ∧ (m = 0 ∨ m = 1)
        ∧ getpad2 0 nhood (p * Z.abs v.1 - d0) (p * Z.abs v.2 - d1) = m.
Proof.
  intros Hp. unfold periodic_line.
  rewrite !max_abs_line by done. simpl.
  set (mr := p * Z.abs v.1). set (mc := p * Z.abs v.2).
  assert (0 ≤ mr ∧ 0 ≤ mc) as [Hmr Hmc] by (unfold mr, mc; lia).
  rewrite zip_fmap_same.
  rewrite (foldM_fmap (fun nhood (rc : Z * Z) => set2 nhood (rc.1 + mr) (rc.2 + mc) 1)).
  set (keys := (fun k => (k * v.1 + mr, k * v.2 + mc)) <$> arange (- p) (p + 1)).
  assert (foldM (fun b x => set2 b ((x * v.1, x * v.2).1 + mr) ((x * v.1, x * v.2).2 + mc) 1)
                (full2 (2 * mr + 1) (2 * mc + 1) 0) (arange (- p) (p + 1))
          = foldM (fun a (k : Z * Z) => set2 a k.1 k.2 1)
                  (full2 (2 * mr + 1) (2 * mc + 1) 0) keys) as ->.
  { unfold keys. by rewrite foldM_fmap. }
  assert (∀ y x, (y, x) ∈ keys ↔ ∃ k, - p ≤ k ≤ p ∧ y = k * v.1 + mr ∧ x = k * v.2 + mc)
    as Hkeys.
  { intros y x. unfold keys. rewrite list_elem_of_fmap. split.
    - intros (k & [= -> ->] & Hk). apply elem_of_arange in Hk. exists k. lia.
    - intros (k & Hk & -> & ->). exists k. split; [done|]. apply elem_of_arange. lia. }
  destruct (set2_fold_const (Z.to_nat (2 * mr + 1)) (Z.to_nat (2 * mc + 1)) keys
              (full2 (2 * mr + 1) (2 * mc + 1) 0) 1) as (nhood & -> & Hrect & Hin & Hout).
  { apply rect2_full. }
  { apply Forall_forall. intros [y x] Hyx. apply Hkeys in Hyx as (k & Hk & -> & ->).
    simpl. unfold mr, mc. nia. }
  exists nhood. split; [done|]. split; [done|].
  assert (∀ d0 d1,
    getpad2 0 nhood (mr + d0) (mc + d1) =
    if decide ((mr + d0, mc + d1) ∈ keys) then 1 else 0) as Hval.
  { intros d0 d1.
    destruct (decide (0 ≤ mr + d0 < Z.of_nat (Z.to_nat (2 * mr + 1))
                      ∧ 0 ≤ mc + d1 < Z.of_nat (Z.to_nat (2 * mc + 1)))) as [Hi|Ho].
    - rewrite getpad2_at2 by lia.
      replace (mr + d0, mc + d1)
        with (Z.of_nat (Z.to_nat (mr + d0)), Z.of_nat (Z.to_nat (mc + d1)))
        by (f_equal; lia).
      case_decide as Hk.
      + by rewrite Hin.
      + rewrite Hout by done. rewrite at2_full by lia. done.
    - rewrite (getpad2_outside 0 _ _ nhood _ _ Hrect Ho).
      rewrite decide_False; [done|]. intros Hk. apply Ho.
      apply Hkeys in Hk as (k & Hk & H1 & H2). unfold mr, mc in *. nia. }
  intros d0 d1. simpl.
  replace (mr - d0) with (mr + - d0) by lia.
  replace (mc - d1) with (mc + - d1) by lia.
  rewrite !Hval. split; [|split].
  - case_decide as Hmem.
    + split; [|done]. intros _. apply Hkeys in Hmem as (k & Hk & H1 & H2).
      exists k. lia.
    + split; [done|]. intros (k & Hk & -> & ->). exfalso. apply Hmem.
      apply Hkeys. exists k. lia.
  - case_decide; [by right|by left].
  - assert ((mr + - d0, mc + - d1) ∈ keys ↔ (mr + d0, mc + d1) ∈ keys) as Hsym.
    { rewrite !Hkeys. split; intros (k & Hk & H1 & H2); exists (- k); lia. }
    repeat case_decide; tauto.
Qed.

Lemma periodic_line_members_witness :
  ∃ nhood,
    periodic_line 2 (1, 2) = Ok nhood
    ∧ rect2 (Z.to_nat (2 * (2 * Z.abs 1) + 1)) (Z.to_nat (2 * (2 * Z.abs 2) + 1)) nhood
    ∧ ∀ d0 d1 : Z,
        let m := getpad2 0 nhood (2 * Z.abs 1 + d0) (2 * Z.abs 2 + d1) in
        (m = 1 ↔ ∃ k, - 2 ≤ k ≤ 2 ∧ d0 = k * 1 ∧ d1 = k * 2)
        ∧ (m = 0 ∨ m = 1)
        ∧ getpad2 0 nhood (2 * Z.abs 1 - d0) (2 * Z.abs 2 - d1) = m.
Proof. apply (periodic_line_members 2 (1, 2)). lia. Defined.

Lemma disk_exact_at2 (repetition : Z → Z → Z * Z → Z) (r n : Z) (i j : nat) :
  r < 3 ∨ n = 0 →
  ∃ nhood, disk repetition r n = Ok nhood
    ∧ at2 nhood i j =
      if decide (Z.of_nat i < 2 * r + 1 ∧ Z.of_nat j < 2 * r + 1)
      then Some (Z.b2z ((- r + Z.of_nat j) ^ 2 + (- r + Z.of_nat i) ^ 2 <=? r ^ 2))
      else None.
Proof.
  intros Hn. unfold disk.
  assert ((if r <? 3 then 0 else n) = 0) as ->.
  { destruct (Z.ltb_spec r 3); [done|]. lia. }
  simpl. eexists. split; [done|].
  rewrite at2_map2, at2_zip2.
  rewrite at2_meshgrid2_1, at2_meshgrid2_2.
  rewrite !lookup_arange.
  replace (r + 1 - - r) with (2 * r + 1) by lia.
  repeat case_decide; simpl; try done; lia.
Qed.

(** X2: for a radius [r >= 0], with the order 0 or with [r < 3] (where the
    order is ignored), [Strel.disk] returns the mask that is 1 exactly at
    the offsets [(d0, d1)] from the centre with [d0^2 + d1^2 <= r^2] and 0
    elsewhere.  The mask is symmetric under the point reflection in the
    centre and under the exchange of the two axes. *)
Theorem disk_exact_members (repetition : Z → Z → Z * Z → Z) (r n : Z) :
  0 ≤ r → r < 3 ∨ n = 0 →
  ∃ nhood,
    disk repetition r n = Ok nhood
    ∧ ∀ d0 d1 : Z,
        (mask_at nhood r d0 d1 = 1 ↔ d0 ^ 2 + d1 ^ 2 ≤ r ^ 2)
        ∧ (mask_at nhood r d0 d1 = 0 ∨ mask_at nhood r d0 d1 = 1)
        ∧ mask_at nhood r (- d0) (- d1) = mask_at nhood r d0 d1
        ∧ mask_at nhood r d1 d0 = mask_at nhood r d0 d1.
Proof.
  intros Hr Hn.
  destruct (disk_exact_at2 repetition r n 0 0 Hn) as (nhood & Hd & _).
  exists nhood. split; [done|].
  assert (∀ d0 d1, mask_at nhood r d0 d1 = Z.b2z (d0 ^ 2 + d1 ^ 2 <=? r ^ 2)) as Hval.
  { intros d0 d1. unfold mask_at, getpad2.
    fold (at2 nhood (Z.to_nat (r + d0)) (Z.to_nat (r + d1))).
    destruct (disk_exact_at2 repetition r n (Z.to_nat (r + d0)) (Z.to_nat (r + d1)) Hn)
      as (nhood' & Hd' & Hat).
    rewrite Hd in Hd'. injection Hd' as <-. rewrite Hat. clear Hat.
    destruct (decide (Z.abs d0 ≤ r ∧ Z.abs d1 ≤ r)) as [Hin|Hout].
    - destruct (Z.leb_spec 0 (r + d0)); [|lia].
      destruct (Z.leb_spec 0 (r + d1)); [|lia].
      simpl. rewrite decide_True by lia. simpl.
      replace (- r + Z.of_nat (Z.to_nat (r + d0))) with d0 by lia.
      replace (- r + Z.of_nat (Z.to_nat (r + d1))) with d1 by lia.
      by rewrite (Z.add_comm (d1 ^ 2)).
    - destruct (Z.leb_spec (d0 ^ 2 + d1 ^ 2) (r ^ 2)) as [Hle|Hgt]; [exfalso; nia|].
      destruct (Z.leb_spec 0 (r + d0)); [|done].
      destruct (Z.leb_spec 0 (r + d1)); [|done].
      simpl. case_decide; [lia|done]. }
  intros d0 d1. rewrite !Hval.
  replace ((- d0) ^ 2 + (- d1) ^ 2) with (d0 ^ 2 + d1 ^ 2) by lia.
  rewrite (Z.add_comm (d1 ^ 2)).
  destruct (Z.leb_spec (d0 ^ 2 + d1 ^ 2) (r ^ 2)); simpl.
  - split; [tauto|]. split; [by right|done].
  - split; [split; [done|lia]|]. split; [by left|done].
Qed.

Lemma disk_exact_members_witness :
  ∃ nhood,
    disk (fun _ _ _ => 0) 2 4 = Ok nhood
    ∧ ∀ d0 d1 : Z,
        (mask_at nhood 2 d0 d1 = 1 ↔ d0 ^ 2 + d1 ^ 2 ≤ 2 ^ 2)
        ∧ (mask_at nhood 2 d0 d1 = 0 ∨ mask_at nhood 2 d0 d1 = 1)
        ∧ mask_at nhood 2 (- d0) (- d1) = mask_at nhood 2 d0 d1
        ∧ mask_at nhood 2 d1 d0 = mask_at nhood 2 d0 d1.
Proof. apply (disk_exact_members (fun _ _ _ => 0) 2 4); lia. Defined.

(** Cells of the 3-D grids. *)
Lemma at3_zip3 {A B C} (f : A → B → C)
    (a : list (list (list A))) (b : list (list (list B))) i j k :
  at3 (zip3 f a b) i j k = x ← at3 a i j k; y ← at3 b i j k; Some (f x y).
Proof.
  unfold at3, zip3. rewrite lookup_zip_with.
  destruct (a !! i) as [pa|]; simpl; [|done].
  destruct (b !! i) as [pb|]; simpl.
  - change (zip2 f pa pb !! j ≫= λ r, r !! k) with (at2 (zip2 f pa pb) j k).
    by rewrite at2_zip2.
  - destruct (pa !! j) as [r|]; simpl; [|done]. by destruct (r !! k).
Qed.

Lemma at3_meshgrid3 (a b c : list Z) i j k :
  at3 (meshgrid3 a b c).1.1 i j k = (_ ← b !! i; aj ← a !! j; _ ← c !! k; Some aj)
  ∧ at3 (meshgrid3 a b c).1.2 i j k = (bi ← b !! i; _ ← a !! j; _ ← c !! k; Some bi)
  ∧ at3 (meshgrid3 a b c).2 i j k = (_ ← b !! i; _ ← a !! j; c !! k).
Proof.
  unfold meshgrid3, at3. simpl. rewrite !list_lookup_fmap.
  destruct (b !! i) as [bi|]; [|done]. simpl. rewrite !list_lookup_fmap.
  destruct (a !! j) as [aj|]; [|done]. simpl. rewrite !list_lookup_fmap.
  by destruct (c !! k).
Qed.

Lemma getpad3_at3 {A} (cval : A) (a : list (list (list A))) (y x z : Z) :
  0 ≤ y → 0 ≤ x → 0 ≤ z →
  getpad3 cval a y x z = default cval (at3 a (Z.to_nat y) (Z.to_nat x) (Z.to_nat z)).
Proof.
  intros Hy Hx Hz. unfold getpad3, at3.
  destruct (Z.leb_spec 0 y); [|lia]. destruct (Z.leb_spec 0 x); [|lia].
  by destruct (Z.leb_spec 0 z); [|lia].
Qed.

Lemma getpad3_negative {A} (cval : A) (a : list (list (list A))) (y x z : Z) :
  y < 0 ∨ x < 0 ∨ z < 0 → getpad3 cval a y x z = cval.
Proof.
  intros H. unfold getpad3.
  destruct (Z.leb_spec 0 y); [|done]. destruct (Z.leb_spec 0 x); [|done].
  destruct (Z.leb_spec 0 z); [lia|done].
Qed.

(** The cell of the grid of squared distances, shared by [disk_3d] and the
    3-D [annulus]. *)
Lemma at3_squares {C} (rxy rz : Z) (g : Z → Z → C) (i j k : nat) :
  let '(y, x, z) := meshgrid3 (arange (- rxy) (rxy + 1)) (arange (- rxy) (rxy + 1))
                              (arange (- rz) (rz + 1)) in
  at3 (zip3 g (zip3 (fun x y => x ^ 2 + y ^ 2) x y) z) i j k =
  if decide (Z.of_nat i < 2 * rxy + 1 ∧ Z.of_nat j < 2 * rxy + 1
             ∧ Z.of_nat k < 2 * rz + 1)
  then Some (g ((- rxy + Z.of_nat i) ^ 2 + (- rxy + Z.of_nat j) ^ 2)
               (- rz + Z.of_nat k))
  else None.
Proof.
  pose proof (at3_meshgrid3 (arange (- rxy) (rxy + 1)) (arange (- rxy) (rxy + 1))
                (arange (- rz) (rz + 1)) i j k) as (H1 & H2 & H3).
  destruct (meshgrid3 _ _ _) as [[y x] z]. simpl in H1, H2, H3.
  rewrite !at3_zip3, H1, H2, H3, !lookup_arange.
  replace (rxy + 1 - - rxy) with (2 * rxy + 1) by lia.
  replace (rz + 1 - - rz) with (2 * rz + 1) by lia.
  repeat case_decide; simpl; try done; try lia.
Qed.

Lemma getpad3_squares {C} (rxy rz : Z) (g : Z → Z → C) (f : C → Z) (d0 d1 d2 : Z) :
  0 ≤ rxy →
  let '(y, x, z) := meshgrid3 (arange (- rxy) (rxy + 1)) (arange (- rxy) (rxy + 1))
                              (arange (- rz) (rz + 1)) in
  getpad3 0 (map3 f (zip3 g (zip3 (fun x y => x ^ 2 + y ^ 2) x y) z))
          (rxy + d0) (rxy + d1) (rz + d2) =
  if decide (Z.abs d0 ≤ rxy ∧ Z.abs d1 ≤ rxy ∧ Z.abs d2 ≤ rz)
  then f (g (d0 ^ 2 + d1 ^ 2) d2) else 0.
Proof.
  intros Hr.
  pose proof (at3_squares rxy rz g (Z.to_nat (rxy + d0)) (Z.to_nat (rxy + d1))
                (Z.to_nat (rz + d2))) as Hat.
  destruct (meshgrid3 _ _ _) as [[y x] z].
  destruct (decide (Z.abs d0 ≤ rxy ∧ Z.abs d1 ≤ rxy ∧ Z.abs d2 ≤ rz)) as [Hin|Hout].
  - rewrite getpad3_at3 by lia. rewrite at3_map3, Hat, decide_True by lia. simpl.
    rewrite !Z2Nat.id by lia.
    replace (- rxy + (rxy + d0)) with d0 by lia.
    replace (- rxy + (rxy + d1)) with d1 by lia.
    by replace (- rz + (rz + d2)) with d2 by lia.
  - destruct (decide (0 ≤ rxy + d0 ∧ 0 ≤ rxy + d1 ∧ 0 ≤ rz + d2)) as [Hpos|Hneg].
    + rewrite getpad3_at3 by lia. rewrite at3_map3, Hat, decide_False by lia. done.
    + apply getpad3_negative. lia.
Qed.

(** X3: for [r_xy >= 0] the mask of [Strel.disk_3d(r_xy, r_z)] is 1 exactly
    at the offsets [(d0, d1, d2)] from the centre with [|d2| <= r_z] and
    [d0^2 + d1^2 + d2^2 <= r_xy^2], and 0 at every other cell: the z offset
    is not scaled, and the ball is cut off at the planes [+- r_z]. *)
Theorem disk_3d_members (r_xy r_z : Z) :
  0 ≤ r_xy →
  ∀ d0 d1 d2 : Z,
    let m := getpad3 0 (disk_3d r_xy r_z) (r_xy + d0) (r_xy + d1) (r_z + d2) in
    (m = 1 ↔ Z.abs d2 ≤ r_z ∧ d0 ^ 2 + d1 ^ 2 + d2 ^ 2 ≤ r_xy ^ 2)
    ∧ (m = 0 ∨ m = 1).
Proof.
  intros Hr d0 d1 d2. unfold disk_3d.
  pose proof (getpad3_squares r_xy r_z (fun xy z => xy + z ^ 2 <=? r_xy ^ 2)
                Z.b2z d0 d1 d2 Hr) as Hval.
  destruct (meshgrid3 _ _ _) as [[y x] z]. simpl.
  rewrite Hval.
  case_decide as Hin.
  - destruct (Z.leb_spec (d0 ^ 2 + d1 ^ 2 + d2 ^ 2) (r_xy ^ 2)); simpl.
    + split; [|by right]. split; [lia|done].
    + split; [|by left]. split; [done|lia].
  - split; [|by left]. split; [done|]. intros [H1 H2]. nia.
Qed.

Lemma disk_3d_members_witness :
  0 ≤ 2
  ∧ ∀ d0 d1 d2 : Z,
      let m := getpad3 0 (disk_3d 2 1) (2 + d0) (2 + d1) (1 + d2) in
      (m = 1 ↔ Z.abs d2 ≤ 1 ∧ d0 ^ 2 + d1 ^ 2 + d2 ^ 2 ≤ 2 ^ 2)
      ∧ (m = 0 ∨ m = 1).
Proof. split; [lia|]. apply (disk_3d_members 2 1). lia. Defined.



(** ** Binary masks *)

Lemma is_binary_spec (a : ndarray) :
  is_binary a = true ↔ all_cells (fun v => v = 0 ∨ v = 1) a.
Proof.
  assert (∀ x : Z, (x =? 0) || (x =? 1) = true ↔ x = 0 ∨ x = 1) as Hok.
  { intros x. rewrite orb_true_iff, !Z.eqb_eq. done. }
  destruct a as [a|a]; simpl.
  - rewrite forallb_forall, Forall_forall. apply forall_proper. intros r.
    rewrite <- list_elem_of_In. apply forall_proper. intros _.
    rewrite forallb_forall, Forall_forall. apply forall_proper. intros x.
    rewrite <- list_elem_of_In. by rewrite Hok.
  - rewrite forallb_forall, Forall_forall. apply forall_proper. intros p.
    rewrite <- list_elem_of_In. apply forall_proper. intros _.
    rewrite forallb_forall, Forall_forall. apply forall_proper. intros r.
    rewrite <- list_elem_of_In. apply forall_proper. intros _.
    rewrite forallb_forall, Forall_forall. apply forall_proper. intros x.
    rewrite <- list_elem_of_In. by rewrite Hok.
Qed.

Lemma Forall_map2 {A B} (P : B → Prop) (f : A → B) (a : list (list A)) :
  (∀ x, P (f x)) → Forall (Forall P) (map2 f a).
Proof.
  intros H. unfold map2. apply Forall_fmap, Forall_true. intros r. simpl.
  apply Forall_fmap, Forall_true. intros x. apply H.
Qed.

Lemma Forall_map3 {A B} (P : B → Prop) (f : A → B) (a : list (list (list A))) :
  (∀ x, P (f x)) → Forall (Forall (Forall P)) (map3 f a).
Proof.
  intros H. unfold map3. apply Forall_fmap, Forall_true. intros p. simpl.
  by apply Forall_map2.
Qed.

Lemma b2z_binary (b : bool) : Z.b2z b = 0 ∨ Z.b2z b = 1.
Proof. destruct b; [by right|by left]. Qed.

Lemma foldM_preserves {A B} (P : B → Prop) (f : B → A → result B)
    (l : list A) (acc b : B) :
  (∀ b a b', P b → f b a = Ok b' → P b') →
  P acc → foldM f acc l = Ok b → P b.
Proof.
  intros Hf. revert acc. induction l as [|x l IH]; intros acc Hacc; simpl.
  - by intros [= <-].
  - destruct (f acc x) as [acc'|] eqn:Hx; [|done]. simpl. apply IH. by eapply Hf.
Qed.

Lemma set2_Forall (P : Z → Prop) (a a' : list (list Z)) (y x v : Z) :
  Forall (Forall P) a → P v → set2 a y x v = Ok a' → Forall (Forall P) a'.
Proof.
  intros Ha Hv. unfold set2. intros H. apply of_option_Ok in H.
  destruct (py_index (length a) y) as [i|]; [|done]. simpl in H.
  destruct (a !! i) as [r|] eqn:Hr; [|done]. simpl in H.
  destruct (py_index (length r) x) as [j|]; [|done]. simpl in H.
  injection H as <-.
  apply Forall_insert; [done|]. apply Forall_insert; [|done].
  by eapply (proj1 (Forall_lookup _ _) Ha).
Qed.

(** X5: every mask that [Strel.disk], [Strel.periodic_line],
    [Strel.disk_3d] or [Strel.annulus] returns holds only the values 0 and
    1, so it passes the check that [count_spot_neighbours] makes on its
    filters. *)
Theorem structuring_elements_binary :
  (∀ (repetition : Z → Z → Z * Z → Z) (r n : Z) nhood,
     disk repetition r n = Ok nhood → is_binary (Arr2 nhood) = true)
  ∧ (∀ (p : Z) (v : Z * Z) nhood,
       periodic_line p v = Ok nhood → is_binary (Arr2 nhood) = true)
  ∧ (∀ r_xy r_z : Z, is_binary (Arr3 (disk_3d r_xy r_z)) = true)
  ∧ (∀ (r0 r_xy : Q) (r_z : option Q), is_binary (annulus r0 r_xy r_z) = true).
Proof.
  split; [|split; [|split]].
  - intros repetition r n nhood H. apply is_binary_spec. revert H. unfold disk.
    destruct (_ =? 0).
    + simpl. intros [= <-]. apply Forall_map2. intros b. apply b2z_binary.
    + intros H. apply bind_Ok in H as (v & _ & H).
      apply bind_Ok in H as (nh & _ & H). revert H. simpl.
      destruct (0 <? _); intros [= <-]; apply Forall_map2; intros b;
        apply b2z_binary.
  - intros p v nhood. unfold periodic_line. intros H.
    apply bind_Ok in H as (mr & _ & H). apply bind_Ok in H as (mc & _ & H).
    apply is_binary_spec. simpl.
    eapply (foldM_preserves (Forall (Forall (fun v => v = 0 ∨ v = 1)))); [| |exact H].
    + intros b a b' Hb Hset. eapply set2_Forall; [exact Hb| |exact Hset]. by right.
    + unfold full2. apply Forall_replicate, Forall_replicate. by left.
  - intros r_xy r_z. apply is_binary_spec. unfold disk_3d.
    destruct (meshgrid3 _ _ _) as [[y x] z]. simpl.
    apply Forall_map3. intros b. apply b2z_binary.
  - intros r0 r_xy r_z. apply is_binary_spec. unfold annulus.
    destruct r_z as [r_z|].
    + destruct (meshgrid3 _ _ _) as [[y x] z]. simpl.
      apply Forall_map3. intros b. apply b2z_binary.
    + simpl. apply Forall_map2. intros b. apply b2z_binary.
Qed.

Lemma structuring_elements_binary_witness :
  is_binary (Arr2 [[0; 0; 1; 0; 0]; [0; 1; 1; 1; 0]; [1; 1; 1; 1; 1];
                   [0; 1; 1; 1; 0]; [0; 0; 1; 0; 0]]) = true
  ∧ is_binary (Arr2 [[1; 0; 0]; [0; 1; 0]; [0; 0; 1]]) = true.
Proof.
  destruct structuring_elements_binary as (Hdisk & Hline & _).
  split.
  - apply (Hdisk (fun _ _ _ => 0) 2 5). reflexivity.
  - apply (Hline 1 (1, 1)). reflexivity.
Defined.

(** ** [ensure_odd_kernel] *)

Lemma odd_pad_of (n : nat) : Z.odd (Z.of_nat (n + pad_of n)) = true.
Proof.
  unfold pad_of. destruct (Nat.even n) eqn:He.
  - apply Nat.even_spec in He as [m ->].
    replace (Z.of_nat (2 * m + 1)) with (2 * Z.of_nat m + 1) by lia. apply odd_2n1.
  - rewrite Nat.add_0_r.
    assert (Nat.odd n = true) as Ho by (by rewrite <- Nat.negb_even, He).
    apply Nat.odd_spec in Ho as [m ->].
    replace (Z.of_nat (2 * m + 1)) with (2 * Z.of_nat m + 1) by lia. apply odd_2n1.
Qed.

Lemma pad_of_odd (n : nat) : Z.odd (Z.of_nat n) = true → Nat.even n = false.
Proof.
  intros Ho. destruct (Nat.even n) eqn:He; [|done].
  apply Nat.even_spec in He as [m ->].
  replace (Z.of_nat (2 * m)) with (2 * Z.of_nat m) in Ho by lia.
  by rewrite Z.odd_mul, Z.odd_2 in Ho.
Qed.

Lemma length_pad1 {A} (b : bool) (z : A) (l : list A) :
  length (pad1 b z l) = (length l + 1)%nat.
Proof. destruct b; simpl; [lia|]. by rewrite length_app. Qed.

Lemma Forall_pad1 {A} (P : A → Prop) (b : bool) (z : A) (l : list A) :
  P z → Forall P l → Forall P (pad1 b z l).
Proof.
  intros Hz Hl. destruct b; simpl.
  - by constructor.
  - apply Forall_app. split; [done|]. by constructor.
Qed.

Lemma rect2_pad_cols {A} (b : bool) (z : A) h w (k : list (list A)) :
  rect2 h w k → rect2 h (w + 1) (pad1 b z <$> k).
Proof.
  intros [Hlen Hrows]. split; [by rewrite length_fmap|].
  apply Forall_fmap. eapply Forall_impl; [exact Hrows|].
  intros r Hr. simpl. by rewrite length_pad1, Hr.
Qed.

Lemma rect2_pad_rows {A} (b : bool) (r : list A) h w (k : list (list A)) :
  rect2 h w k → length r = w → rect2 (h + 1) w (pad1 b r k).
Proof.
  intros [Hlen Hrows] Hr. split; [by rewrite length_pad1, Hlen|].
  by apply Forall_pad1.
Qed.

Lemma rect2_ensure_odd (b : bool) h w (k : list (list Z)) :
  rect2 h w k → (0 < h)%nat →
  rect2 (h + pad_of h) (w + pad_of w) (ensure_odd_kernel2 b k).
Proof.
  intros Hk Hh. unfold ensure_odd_kernel2.
  rewrite (rect2_width h w k Hk Hh), (proj1 Hk).
  set (k1 := if Nat.even w then pad1 b 0 <$> k else k).
  assert (rect2 h (w + pad_of w) k1) as Hk1.
  { unfold k1, pad_of. destruct (Nat.even w).
    - by apply rect2_pad_cols.
    - by rewrite Nat.add_0_r. }
  rewrite (rect2_width _ _ k1 Hk1 Hh).
  unfold pad_of at 1. destruct (Nat.even h).
  - apply rect2_pad_rows; [done|]. by rewrite length_replicate.
  - by rewrite Nat.add_0_r.
Qed.

Lemma rect3_pad_depth {A} (b : bool) (z : A) h w d (k : list (list (list A))) :
  rect3 h w d k →
  rect3 h w (d + 1) ((fun p : list (list A) => pad1 b z <$> p) <$> k).
Proof.
  intros [Hlen Hp]. split; [by rewrite length_fmap|].
  apply Forall_fmap. eapply Forall_impl; [exact Hp|].
  intros p Hr. simpl. by apply rect2_pad_cols.
Qed.

Lemma rect3_pad_width {A} (b : bool) (r : list A) h w d (k : list (list (list A))) :
  rect3 h w d k → length r = d → rect3 h (w + 1) d (pad1 b r <$> k).
Proof.
  intros [Hlen Hp] Hr. split; [by rewrite length_fmap|].
  apply Forall_fmap. eapply Forall_impl; [exact Hp|].
  intros p Hrect. simpl. by apply rect2_pad_rows.
Qed.

Lemma rect3_pad_length {A} (b : bool) (p : list (list A)) h w d
    (k : list (list (list A))) :
  rect3 h w d k → rect2 w d p → rect3 (h + 1) w d (pad1 b p k).
Proof.
  intros [Hlen Hp] Hr. split; [by rewrite length_pad1, Hlen|].
  by apply Forall_pad1.
Qed.

Lemma rect2_replicate {A} (h w : nat) (v : A) : rect2 h w (replicate h (replicate w v)).
Proof.
  split; [by rewrite length_replicate|].
  apply Forall_replicate. by rewrite length_replicate.
Qed.

Lemma rect3_ensure_odd (b : bool) h w d (k : list (list (list Z))) :
  rect3 h w d k → (0 < h)%nat → (0 < w)%nat →
  rect3 (h + pad_of h) (w + pad_of w) (d + pad_of d) (ensure_odd_kernel3 b k).
Proof.
  intros Hk Hh Hw. unfold ensure_odd_kernel3.
  destruct (rect3_depth h w d k Hk Hh Hw) as [_ ->].
  set (k1 := if Nat.even d then _ else k).
  assert (rect3 h w (d + pad_of d) k1) as Hk1.
  { unfold k1, pad_of. destruct (Nat.even d).
    - by apply rect3_pad_depth.
    - by rewrite Nat.add_0_r. }
  destruct (rect3_depth _ _ _ k1 Hk1 Hh Hw) as [-> ->].
  set (k2 := if Nat.even w then _ else k1).
  assert (rect3 h (w + pad_of w) (d + pad_of d) k2) as Hk2.
  { unfold k2, pad_of at 1. destruct (Nat.even w).
    - apply rect3_pad_width; [done|]. by rewrite length_replicate.
    - by rewrite Nat.add_0_r. }
  assert (0 < w + pad_of w)%nat as Hw' by lia.
  destruct (rect3_depth _ _ _ k2 Hk2 Hh Hw') as [-> ->].
  rewrite (proj1 Hk2).
  unfold pad_of at 1. destruct (Nat.even h).
  - apply rect3_pad_length; [done|]. apply rect2_replicate.
  - by rewrite Nat.add_0_r.
Qed.

Lemma sumZ_pad1 (b : bool) (l : list Z) : sumZ (pad1 b 0 l) = sumZ l.
Proof.
  destruct b; [done|]. simpl. induction l as [|x l IH]; [done|].
  change (x + sumZ (l ++ [0]) = x + sumZ l). by rewrite IH.
Qed.

Lemma sum2_pad1_cols (b : bool) (k : list (list Z)) :
  sum2 (pad1 b 0 <$> k) = sum2 k.
Proof.
  unfold sum2. rewrite <- list_fmap_compose. f_equal.
  apply list_fmap_ext. intros i r _. simpl. apply sumZ_pad1.
Qed.

Lemma sum2_pad1_rows (b : bool) (w : nat) (k : list (list Z)) :
  sum2 (pad1 b (replicate w 0) k) = sum2 k.
Proof.
  unfold sum2. destruct b; simpl.
  - change (sumZ (replicate w 0) + sumZ (sumZ <$> k) = sumZ (sumZ <$> k)).
    by rewrite sumZ_replicate_0.
  - rewrite fmap_app. simpl. rewrite sumZ_replicate_0.
    apply (sumZ_pad1 false).
Qed.

Lemma sum2_ensure_odd_any (b : bool) (k : list (list Z)) :
  sum2 (ensure_odd_kernel2 b k) = sum2 k.
Proof.
  unfold ensure_odd_kernel2.
  repeat match goal with
         | |- context [if ?c then _ else _] => destruct c
         end; rewrite ?sum2_pad1_rows, ?sum2_pad1_cols; done.
Qed.

Lemma sum3_pad1_depth (b : bool) (k : list (list (list Z))) :
  sum3 ((fun p : list (list Z) => pad1 b 0 <$> p) <$> k) = sum3 k.
Proof.
  unfold sum3. rewrite <- list_fmap_compose. f_equal.
  apply list_fmap_ext. intros i p _. simpl. apply sum2_pad1_cols.
Qed.

Lemma sum3_pad1_width (b : bool) (d : nat) (k : list (list (list Z))) :
  sum3 (pad1 b (replicate d 0) <$> k) = sum3 k.
Proof.
  unfold sum3. rewrite <- list_fmap_compose. f_equal.
  apply list_fmap_ext. intros i p _. simpl. apply sum2_pad1_rows.
Qed.

Lemma sum3_pad1_length (b : bool) (w d : nat) (k : list (list (list Z))) :
  sum3 (pad1 b (replicate w (replicate d 0)) k) = sum3 k.
Proof.
  unfold sum3. destruct b; simpl.
  - change (sum2 (replicate w (replicate d 0)) + sumZ (sum2 <$> k) = sumZ (sum2 <$> k)).
    by rewrite sum2_replicate_0.
  - rewrite fmap_app. simpl. rewrite sum2_replicate_0.
    apply (sumZ_pad1 false).
Qed.

Lemma sum3_ensure_odd_any (b : bool) (k : list (list (list Z))) :
  sum3 (ensure_odd_kernel3 b k) = sum3 k.
Proof.
  unfold ensure_odd_kernel3.
  repeat match goal with
         | |- context [if ?c then _ else _] => destruct c
         end;
    rewrite ?sum3_pad1_length, ?sum3_pad1_width, ?sum3_pad1_depth; done.
Qed.

(** X6: for a rectangular kernel with no empty axis, the result of
    [ensure_odd_kernel] has an odd extent along every axis, is rectangular
    and has the sum of the kernel (the padding adds only zeros); a kernel
    whose extents are odd already is returned unchanged. *)
Theorem ensure_odd_kernel_odd (at_start : bool) (k : ndarray) :
  rect k → Forall (fun n => 0 < n) (shape k) →
  odd_extents (shape (ensure_odd_kernel at_start k))
  ∧ rect (ensure_odd_kernel at_start k)
  ∧ np_sum (ensure_odd_kernel at_start k) = np_sum k
  ∧ (odd_extents (shape k) → ensure_odd_kernel at_start k = k).
Proof.
  intros Hrect Hpos. destruct k as [k|k]; simpl in *.
  - apply Forall_cons in Hpos as [Hh _].
    assert (0 < length k)%nat as Hh' by lia.
    pose proof (rect2_ensure_odd at_start _ _ k Hrect Hh') as Hr.
    assert (0 < length k + pad_of (length k))%nat as Hh'' by lia.
    split; [|split; [|split]].
    + rewrite (rect2_shape _ _ _ Hr Hh'').
      repeat constructor; apply odd_pad_of.
    + by rewrite (proj1 Hr), (rect2_width _ _ _ Hr Hh'').
    + apply sum2_ensure_odd_any.
    + intros Hodd. unfold shape2 in Hodd.
      apply Forall_cons in Hodd as [H1 H2]. apply Forall_cons in H2 as [H2 _].
      unfold ensure_odd_kernel2. f_equal. fold (width k) in H2.
      by rewrite (pad_of_odd _ H2), (pad_of_odd _ H1).
  - apply Forall_cons in Hpos as [Hh Hpos]. unfold shape2 in Hpos.
    apply Forall_cons in Hpos as [Hw _].
    assert (0 < length k)%nat as Hh' by lia.
    assert (0 < width k)%nat as Hw' by (unfold width; lia).
    pose proof (rect3_ensure_odd at_start _ _ _ k Hrect Hh' Hw') as Hr.
    assert (0 < length k + pad_of (length k))%nat as Hh'' by lia.
    assert (0 < width k + pad_of (width k))%nat as Hw'' by lia.
    split; [|split; [|split]].
    + rewrite (rect3_shape _ _ _ _ Hr Hh'' Hw'').
      repeat constructor; apply odd_pad_of.
    + destruct (rect3_depth _ _ _ _ Hr Hh'' Hw'') as [-> ->].
      by rewrite (proj1 Hr).
    + apply sum3_ensure_odd_any.
    + intros Hodd. unfold shape3, shape2 in Hodd.
      apply Forall_cons in Hodd as [H1 H2]. apply Forall_cons in H2 as [H2 H3].
      apply Forall_cons in H3 as [H3 _].
      fold (width k) in H2.
      change (length (default [] (head (default [] (head k))))) with (depth k) in H3.
      unfold ensure_odd_kernel3. f_equal.
      by rewrite (pad_of_odd _ H3), (pad_of_odd _ H2), (pad_of_odd _ H1).
Qed.

Lemma ensure_odd_kernel_odd_witness :
  odd_extents (shape (ensure_odd_kernel true (Arr2 [[5; 4]; [3; 1]])))
  ∧ rect (ensure_odd_kernel true (Arr2 [[5; 4]; [3; 1]]))
  ∧ np_sum (ensure_odd_kernel true (Arr2 [[5; 4]; [3; 1]])) = np_sum (Arr2 [[5; 4]; [3; 1]])
  ∧ (odd_extents (shape (Arr2 [[5; 4]; [3; 1]])) →
     ensure_odd_kernel true (Arr2 [[5; 4]; [3; 1]]) = Arr2 [[5; 4]; [3; 1]]).
Proof.
  apply (ensure_odd_kernel_odd true (Arr2 [[5; 4]; [3; 1]])).
  - split; [reflexivity|]. repeat constructor.
  - repeat constructor.
Defined.

Lemma default_pad_end (r : list Z) (n : nat) :
  default 0 ((r ++ [0]) !! n) = default 0 (r !! n).
Proof.
  destruct (decide (n < length r)%nat) as [Hlt|Hge].
  - by rewrite lookup_app_l.
  - rewrite (lookup_ge_None_2 r) by lia.
    destruct (decide (n = length r)) as [->|Hne].
    + by rewrite list_lookup_middle.
    + rewrite lookup_ge_None_2; [done|]. rewrite length_app. simpl. lia.
Qed.

Lemma default_replicate_0 (w n : nat) : default 0 (replicate w 0 !! n) = 0.
Proof.
  destruct (replicate w 0 !! n) as [x|] eqn:H; [|done].
  by apply lookup_replicate in H as [-> _].
Qed.

Lemma getpad2_pad_cols (b : bool) (k : list (list Z)) (y x : Z) :
  getpad2 0 (pad1 b 0 <$> k) y (x + (if b then 1 else 0)) = getpad2 0 k y x.
Proof.
  unfold getpad2. rewrite list_lookup_fmap.
  destruct (Z.leb_spec 0 y); simpl; [|done].
  destruct (k !! Z.to_nat y) as [r|]; simpl.
  2: { by destruct (0 <=? _), (0 <=? x). }
  destruct b; simpl.
  - destruct (Z.leb_spec 0 x).
    + destruct (Z.leb_spec 0 (x + 1)); [|lia].
      by replace (Z.to_nat (x + 1)) with (S (Z.to_nat x)) by lia.
    + destruct (Z.leb_spec 0 (x + 1)); [|done]. by assert (x = -1) as -> by lia.
  - rewrite Z.add_0_r. destruct (Z.leb_spec 0 x); [|done]. apply default_pad_end.
Qed.

Lemma getpad2_pad_rows (b : bool) (w : nat) (k : list (list Z)) (y x : Z) :
  getpad2 0 (pad1 b (replicate w 0) k) (y + (if b then 1 else 0)) x = getpad2 0 k y x.
Proof.
  unfold getpad2. destruct b; simpl.
  - destruct (Z.leb_spec 0 y).
    + destruct (Z.leb_spec 0 (y + 1)); [|lia].
      by replace (Z.to_nat (y + 1)) with (S (Z.to_nat y)) by lia.
    + destruct (Z.leb_spec 0 (y + 1)); [|done]. assert (y = -1) as -> by lia.
      simpl. destruct (0 <=? x); [|done]. apply default_replicate_0.
  - rewrite Z.add_0_r. destruct (Z.leb_spec 0 y); [|done].
    destruct (Z.leb_spec 0 x); [|done]. simpl.
    destruct (decide (Z.to_nat y < length k)%nat) as [Hlt|Hge].
    + by rewrite lookup_app_l.
    + rewrite (lookup_ge_None_2 k) by lia.
      destruct (decide (Z.to_nat y = length k)) as [->|Hne].
      * rewrite list_lookup_middle by done. apply default_replicate_0.
      * rewrite lookup_ge_None_2; [done|]. rewrite length_app. simpl. lia.
Qed.

(** X7: for a 2-D kernel of [h >= 1] rows and [w] columns,
    [ensure_odd_kernel] adds one row when [h] is even and one column when
    [w] is even.  With [pad_location = 'start'] every cell moves by the
    padding along each axis, with ['end'] every cell stays where it was; the
    cells that are added are 0. *)
Theorem ensure_odd_kernel2_cells (at_start : bool) h w (k : list (list Z)) :
  rect2 h w k → (0 < h)%nat →
  rect2 (h + pad_of h) (w + pad_of w) (ensure_odd_kernel2 at_start k)
  ∧ ∀ y x : Z,
      getpad2 0 (ensure_odd_kernel2 at_start k)
                (y + (if at_start then Z.of_nat (pad_of h) else 0))
                (x + (if at_start then Z.of_nat (pad_of w) else 0))
      = getpad2 0 k y x.
Proof.
  intros Hk Hh. split; [by apply rect2_ensure_odd|].
  intros y x. unfold ensure_odd_kernel2.
  rewrite (rect2_width h w k Hk Hh), (proj1 Hk).
  unfold pad_of.
  destruct (Nat.even h), (Nat.even w).
  - pose proof (getpad2_pad_rows at_start (width (pad1 at_start 0 <$> k))
                  (pad1 at_start 0 <$> k) y
                  (x + (if at_start then 1 else 0))) as H1.
    pose proof (getpad2_pad_cols at_start k y x) as H2.
    destruct at_start; by rewrite <- H2, <- H1.
  - pose proof (getpad2_pad_rows at_start (width k) k y x) as H1.
    destruct at_start; rewrite <- H1; by rewrite ?Z.add_0_r.
  - pose proof (getpad2_pad_cols at_start k y x) as H2.
    destruct at_start; rewrite <- H2; by rewrite ?Z.add_0_r.
  - destruct at_start; by rewrite ?Z.add_0_r.
Qed.

Lemma ensure_odd_kernel2_cells_witness :
  rect2 (2 + pad_of 2) (2 + pad_of 2) (ensure_odd_kernel2 true [[5; 4]; [3; 1]])
  ∧ ∀ y x : Z,
      getpad2 0 (ensure_odd_kernel2 true [[5; 4]; [3; 1]])
                (y + Z.of_nat (pad_of 2)) (x + Z.of_nat (pad_of 2))
      = getpad2 0 [[5; 4]; [3; 1]] y x.
Proof.
  apply (ensure_odd_kernel2_cells true 2 2 [[5; 4]; [3; 1]]).
  - split; [reflexivity|]. repeat constructor.
  - lia.
Defined.

(** ** [top_hat] *)




(** ** [imfilter] *)

Lemma shape2_imap {A B} (F : nat → list A → list B) (a : list (list A)) :
  (∀ i r, length (F i r) = length r) → shape2 (imap F a) = shape2 a.
Proof.
  intros HF. unfold shape2. rewrite length_imap. do 2 f_equal.
  destruct a as [|r a]; [done|]. simpl. by rewrite HF.
Qed.

Lemma shape3_imap {A B} (F : nat → list (list A) → list (list B))
    (a : list (list (list A))) :
  (∀ i p, shape2 (F i p) = shape2 p) → shape3 (imap F a) = shape3 a.
Proof.
  intros HF. unfold shape3. rewrite length_imap. f_equal.
  destruct a as [|p a]; [done|]. simpl. by rewrite HF.
Qed.

Lemma shape2_correlate2 (cval : Z) (a k : list (list Z)) :
  shape2 (correlate2 cval a k) = shape2 a.
Proof. unfold correlate2. apply shape2_imap. intros. apply length_imap. Qed.

Lemma shape3_correlate3 (cval : Z) (a k : list (list (list Z))) :
  shape3 (correlate3 cval a k) = shape3 a.
Proof.
  unfold correlate3. apply shape3_imap. intros i p.
  apply shape2_imap. intros. apply length_imap.
Qed.

Lemma rect3_imap3 {A B} (F : nat → nat → nat → B) h w d (a : list (list (list A))) :
  rect3 h w d a →
  rect3 h w d (imap (fun i (plane : list (list A)) =>
                 imap (fun j (row : list A) =>
                   imap (fun l (_ : A) => F i j l) row) plane) a).
Proof.
  intros [Hh Ha]. split; [by rewrite length_imap|].
  apply Forall_lookup. intros i p Hi.
  rewrite list_lookup_imap in Hi.
  destruct (a !! i) as [plane|] eqn:Hplane; simplify_eq/=.
  apply rect2_imap2. exact (proj1 (Forall_lookup _ _) Ha _ _ Hplane).
Qed.

Lemma rect_shape (a b : ndarray) :
  ndim a = ndim b → shape a = shape b →
  match a, b with
  | Arr2 a, Arr2 b => length b = length a ∧ width b = width a
  | Arr3 a, Arr3 b => length b = length a ∧ width b = width a ∧ depth b = depth a
  | _, _ => False
  end.
Proof.
  destruct a as [a|a], b as [b|b]; simpl; try done.
  - unfold shape2, width. intros _ [= H1 H2]. lia.
  - unfold shape3, shape2, width, depth, width. intros _ [= H1 H2 H3]. lia.
Qed.

(** X9: for an image and a kernel of the same number of dimensions
    [imfilter] returns an array with the dimensions and the shape of the
    image, whatever the shape of the kernel, the padding value and the
    choice between correlation and convolution; the result of a rectangular
    image is rectangular.  When the numbers of dimensions differ it raises
    the error of the underlying filter. *)
Theorem imfilter_same_shape (image kernel : ndarray) (padding : Z) (conv : bool) :
  (ndim image = ndim kernel →
   ∃ out, imfilter image kernel padding conv = Ok out
          ∧ ndim out = ndim image
          ∧ shape out = shape image
          ∧ (rect image → rect out))
  ∧ (ndim image ≠ ndim kernel →
     imfilter image kernel padding conv = Err RuntimeError).
Proof.
  split.
  - intros Hrank. unfold imfilter.
    destruct image as [a|a], kernel as [k|k]; try done; destruct conv; simpl;
      eexists; (split; [done|]); (split; [done|]).
    + split; [apply shape2_correlate2|]. intros Ha. simpl in *.
      match goal with |- context [correlate2 _ _ ?k] =>
        pose proof (rect_shape (Arr2 a) (Arr2 (correlate2 padding a k)) eq_refl
                      (eq_sym (shape2_correlate2 _ _ _))) as [-> ->] end.
      by apply rect2_imap2.
    + split; [apply shape2_correlate2|]. intros Ha. simpl in *.
      match goal with |- context [correlate2 _ _ ?k] =>
        pose proof (rect_shape (Arr2 a) (Arr2 (correlate2 padding a k)) eq_refl
                      (eq_sym (shape2_correlate2 _ _ _))) as [-> ->] end.
      by apply rect2_imap2.
    + split; [apply shape3_correlate3|]. intros Ha. simpl in *.
      match goal with |- context [correlate3 _ _ ?k] =>
        pose proof (rect_shape (Arr3 a) (Arr3 (correlate3 padding a k)) eq_refl
                      (eq_sym (shape3_correlate3 _ _ _))) as (-> & -> & ->) end.
      by apply rect3_imap3.
    + split; [apply shape3_correlate3|]. intros Ha. simpl in *.
      match goal with |- context [correlate3 _ _ ?k] =>
        pose proof (rect_shape (Arr3 a) (Arr3 (correlate3 padding a k)) eq_refl
                      (eq_sym (shape3_correlate3 _ _ _))) as (-> & -> & ->) end.
      by apply rect3_imap3.
  - intros Hrank. unfold imfilter.
    destruct image as [a|a], kernel as [k|k]; try done; by destruct conv.
Qed.

Lemma imfilter_same_shape_witness :
  (∃ out, imfilter (Arr2 [[1; 2; 3]; [4; 5; 6]]) (Arr2 [[1; 1]]) 0 false = Ok out
          ∧ ndim out = 2
          ∧ shape out = [2; 3]
          ∧ (rect (Arr2 [[1; 2; 3]; [4; 5; 6]]) → rect out))
  ∧ imfilter (Arr2 [[1; 2; 3]; [4; 5; 6]]) (Arr3 [[[1]]]) 0 false = Err RuntimeError.
Proof.
  split.
  - apply (proj1 (imfilter_same_shape (Arr2 [[1; 2; 3]; [4; 5; 6]]) (Arr2 [[1; 1]])
                    0 false)).
    reflexivity.
  - apply (proj2 (imfilter_same_shape (Arr2 [[1; 2; 3]; [4; 5; 6]]) (Arr3 [[[1]]])
                    0 false)).
    discriminate.
Defined.

Lemma getpad2_lookup {A} (cval : A) (a : list (list A)) (i j : nat) row x :
  a !! i = Some row → row !! j = Some x →
  getpad2 cval a (Z.of_nat i) (Z.of_nat j) = x.
Proof.
  intros Hi Hj. unfold getpad2.
  destruct (Z.leb_spec 0 (Z.of_nat i)); [|lia].
  destruct (Z.leb_spec 0 (Z.of_nat j)); [|lia].
  simpl. rewrite !Nat2Z.id, Hi. simpl. by rewrite Hj.
Qed.

Lemma getpad3_lookup {A} (cval : A) (a : list (list (list A))) (i j l : nat) p row x :
  a !! i = Some p → p !! j = Some row → row !! l = Some x →
  getpad3 cval a (Z.of_nat i) (Z.of_nat j) (Z.of_nat l) = x.
Proof.
  intros Hi Hj Hl. unfold getpad3.
  destruct (Z.leb_spec 0 (Z.of_nat i)); [|lia].
  destruct (Z.leb_spec 0 (Z.of_nat j)); [|lia].
  destruct (Z.leb_spec 0 (Z.of_nat l)); [|lia].
  simpl. rewrite !Nat2Z.id, Hi. simpl. rewrite Hj. simpl. by rewrite Hl.
Qed.

Lemma correlate2_unit (cval c : Z) (a : list (list Z)) :
  correlate2 cval a [[c]] = map2 (Z.mul c) a.
Proof.
  unfold correlate2, map2. rewrite <- imap_const. apply imap_ext.
  intros i row Hi. simpl. rewrite <- imap_const. apply imap_ext.
  intros j x Hj. unfold isum. simpl.
  change (Z.of_nat (width [[c]]) `div` 2) with 0.
  change (Z.of_nat 1 `div` 2) with 0. change (Z.of_nat 0) with 0.
  rewrite !Z.add_0_r, !Z.sub_0_r.
  by rewrite (getpad2_lookup cval a i j row x Hi Hj).
Qed.

Lemma correlate3_unit (cval c : Z) (a : list (list (list Z))) :
  correlate3 cval a [[[c]]] = map3 (Z.mul c) a.
Proof.
  unfold correlate3, map3, map2. rewrite <- imap_const. apply imap_ext.
  intros i p Hi. simpl. rewrite <- imap_const. apply imap_ext.
  intros j row Hj. simpl. rewrite <- imap_const. apply imap_ext.
  intros l x Hl. unfold isum. simpl.
  change (Z.of_nat (depth [[[c]]]) `div` 2) with 0.
  change (Z.of_nat (width [[[c]]]) `div` 2) with 0.
  change (Z.of_nat 1 `div` 2) with 0. change (Z.of_nat 0) with 0.
  rewrite !Z.add_0_r, !Z.sub_0_r.
  by rewrite (getpad3_lookup cval a i j l p row x Hi Hj Hl).
Qed.

(** X10: with a kernel of a single cell [c], [imfilter] multiplies every
    cell of the image by [c], in 2-D and in 3-D, for correlation and for
    convolution and whatever the padding value: the kernel [[1]] is the
    identity, and the padding is never read. *)
Theorem imfilter_unit_kernel (c padding : Z) (conv : bool) :
  (∀ a, imfilter (Arr2 a) (Arr2 [[c]]) padding conv = Ok (Arr2 (map2 (Z.mul c) a)))
  ∧ (∀ a, imfilter (Arr3 a) (Arr3 [[[c]]]) padding conv
          = Ok (Arr3 (map3 (Z.mul c) a))).
Proof.
  split; intros a; unfold imfilter; destruct conv; simpl;
    change (flip2 (ensure_odd_kernel2 false [[c]])) with [[c]];
    change (ensure_odd_kernel2 true [[c]]) with [[c]];
    change (flip3 (ensure_odd_kernel3 false [[[c]]])) with [[[c]]];
    change (ensure_odd_kernel3 true [[[c]]]) with [[[c]]];
    by rewrite ?correlate2_unit, ?correlate3_unit.
Qed.

(** ** [dilate] *)

Lemma ext_le_refl (a : ext) : ext_le a a.
Proof. destruct a; simpl; [done|lia]. Qed.

Lemma ext_le_trans (a b c : ext) : ext_le a b → ext_le b c → ext_le a c.
Proof. destruct a, b, c; simpl; try done; lia. Qed.

Lemma ext_le_max_l (a b : ext) : ext_le a (ext_max a b).
Proof. destruct a, b; simpl; try done; lia. Qed.

Lemma ext_le_max_r (a b : ext) : ext_le b (ext_max a b).
Proof. destruct a, b; simpl; try done; lia. Qed.

Lemma ifoldr_ext_max_ge {A} (f : nat → A → ext) (l : list A) (n u : nat) (x : A) :
  l !! u = Some x → ext_le (f (n + u)%nat x) (ifoldr ext_max NegInf f n l).
Proof.
  revert n u. induction l as [|y l IH]; intros n u Hu; [done|].
  destruct u as [|u]; simpl in *.
  - injection Hu as ->. rewrite Nat.add_0_r. apply ext_le_max_l.
  - eapply ext_le_trans; [|apply ext_le_max_r].
    rewrite Nat.add_succ_r. by apply (IH (S n) u).
Qed.

Lemma ensure_odd_kernel2_id (b : bool) (k : list (list Z)) :
  Nat.even (length k) = false → Nat.even (width k) = false →
  ensure_odd_kernel2 b k = k.
Proof. intros H1 H2. unfold ensure_odd_kernel2. by rewrite H2, H1. Qed.

Lemma odd_half (n : nat) :
  Nat.odd n = true → (n / 2 < n ∧ n - S (n / 2) = n / 2)%nat ∧ Nat.even n = false.
Proof.
  intros Ho. split; [|by rewrite <- Nat.negb_odd, Ho].
  apply Nat.odd_spec in Ho as [m ->].
  assert ((2 * m + 1) / 2 = m)%nat as ->; [|lia].
  symmetry. apply (Nat.div_unique _ 2 m 1); lia.
Qed.

(** The centre cell of a kernel with odd extents stays in place when the
    kernel is reversed. *)
Lemma flip2_centre {A} h w (k : list (list A)) (c : A) :
  rect2 h w k → Nat.odd h = true → Nat.odd w = true →
  at2 k (h / 2) (w / 2) = Some c →
  length (flip2 k) = h ∧ width (flip2 k) = w ∧ at2 (flip2 k) (h / 2) (w / 2) = Some c.
Proof.
  intros [Hlen Hrows] Hh Hw Hc.
  destruct (odd_half h Hh) as [[Hh1 Hh2] _].
  destruct (odd_half w Hw) as [[Hw1 Hw2] _].
  assert (rect2 h w (flip2 k)) as Hflip.
  { unfold flip2. split; [by rewrite length_reverse, length_fmap|].
    apply Forall_reverse, Forall_fmap. eapply Forall_impl; [exact Hrows|].
    intros r Hr. simpl. by rewrite length_reverse. }
  split; [apply Hflip|]. split; [apply (rect2_width h w); [done|lia]|].
  unfold at2 in *. unfold flip2.
  destruct (k !! (h / 2)%nat) as [row|] eqn:Hrow; [|done]. simpl in Hc.
  rewrite reverse_lookup by (rewrite length_fmap; lia).
  rewrite length_fmap, Hlen, Hh2, list_lookup_fmap, Hrow. simpl.
  change (Nat.divmod w 1 0 1).1 with (w / 2)%nat in *.
  assert (length row = w) as Hlr by (by eapply (proj1 (Forall_lookup _ _) Hrows)).
  rewrite reverse_lookup by lia. by rewrite Hlr, Hw2.
Qed.

(** X11: when the kernel has odd extents and a non-zero centre cell, every
    pixel of the dilated image is at least the pixel of the image at the
    same place. *)
Theorem dilate_extensive h w (image : list (list ext)) (kernel : list (list Z))
    (c : Z) :
  rect2 h w kernel → Nat.odd h = true → Nat.odd w = true →
  at2 kernel (h / 2) (w / 2) = Some c → c ≠ 0 →
  ∀ i j x, at2 image i j = Some x →
    ∃ y, at2 (dilate image kernel) i j = Some y ∧ ext_le x y.
Proof.
  intros Hk Hh Hw Hc Hc0 i j x Hx.
  destruct (odd_half h Hh) as [Hh1 Hhe]. destruct (odd_half w Hw) as [Hw1 Hwe].
  unfold dilate, grey_dilation.
  rewrite ensure_odd_kernel2_id;
    [|by rewrite (proj1 Hk)|by rewrite (rect2_width h w kernel Hk); [|lia]].
  destruct (flip2_centre h w kernel c Hk Hh Hw Hc) as (Hlen & Hwid & Hfc).
  unfold max_filter2. rewrite at2_imap2, Hx. simpl. eexists. split; [done|].
  rewrite Hlen, Hwid.
  unfold at2 in Hfc.
  destruct (flip2 kernel !! (h / 2)%nat) as [kr|] eqn:Hkr; [|done]. simpl in Hfc.
  change (Nat.divmod w 1 0 1).1 with (w / 2)%nat in Hfc.
  eapply ext_le_trans;
    [|apply (ifoldr_ext_max_ge _ (flip2 kernel) 0 (h / 2)%nat kr Hkr)].
  eapply ext_le_trans; [|apply (ifoldr_ext_max_ge _ kr 0 (w / 2)%nat c Hfc)].
  cbv beta. rewrite !Nat.add_0_l. destruct (Z.eqb_spec c 0); [done|].
  replace (Z.of_nat i + Z.of_nat (h / 2) - Z.of_nat h `div` 2) with (Z.of_nat i)
    by (rewrite Nat2Z.inj_div; change (Z.of_nat 2) with 2; lia).
  replace (Z.of_nat j + Z.of_nat (w / 2) - Z.of_nat w `div` 2) with (Z.of_nat j)
    by (rewrite Nat2Z.inj_div; change (Z.of_nat 2) with 2; lia).
  unfold at2 in Hx. destruct (image !! i) as [row|] eqn:Hrow; [|done].
  rewrite (getpad2_lookup (Fin 0) image i j row x Hrow Hx). apply ext_le_refl.
Qed.

Lemma dilate_extensive_witness :
  at2 [[0; 1; 0]; [1; 1; 1]; [0; 1; 0]] (3 / 2) (3 / 2) = Some 1
  ∧ ∀ i j x, at2 [[NegInf; Fin 2]; [Fin 1; NegInf]] i j = Some x →
      ∃ y, at2 (dilate [[NegInf; Fin 2]; [Fin 1; NegInf]]
                       [[0; 1; 0]; [1; 1; 1]; [0; 1; 0]]) i j = Some y
           ∧ ext_le x y.
Proof.
  split; [reflexivity|].
  apply (dilate_extensive 3 3 [[NegInf; Fin 2]; [Fin 1; NegInf]]
           [[0; 1; 0]; [1; 1; 1]; [0; 1; 0]] 1).
  - split; [reflexivity|]. repeat constructor.
  - reflexivity.
  - reflexivity.
  - reflexivity.
  - discriminate.
Defined.

(** ** [count_spot_neighbours]: the counts are bounded by the size of the filter *)

Lemma ifoldr_sum_bound {A} (f : nat → A → Z) (g : A → Z) (l : list A) (n : nat) :
  (∀ i x, l !! i = Some x → 0 ≤ f (n + i)%nat x ≤ g x) →
  0 ≤ ifoldr Z.add 0 f n l ≤ sumZ (g <$> l).
Proof.
  revert n. induction l as [|x l IH]; intros n Hf.
  - unfold sumZ. simpl. lia.
  - change (0 ≤ f n x + ifoldr Z.add 0 f (S n) l ≤ g x + sumZ (g <$> l)).
    pose proof (Hf 0%nat x eq_refl) as H0. rewrite Nat.add_0_r in H0.
    assert (0 ≤ ifoldr Z.add 0 f (S n) l ≤ sumZ (g <$> l)) as H1.
    { apply IH. intros i y Hi. rewrite Nat.add_succ_l, <- Nat.add_succ_r.
      by apply (Hf (S i)). }
    lia.
Qed.

Lemma getpad2_Forall {A} (P : A → Prop) (cval : A) (a : list (list A)) (y x : Z) :
  Forall (Forall P) a → P cval → P (getpad2 cval a y x).
Proof.
  intros Ha Hc. unfold getpad2. destruct (_ && _); [|done].
  destruct (a !! Z.to_nat y) as [r|] eqn:Hr; [|done]. simpl.
  destruct (r !! Z.to_nat x) as [v|] eqn:Hv; [|done]. simpl.
  eapply (proj1 (Forall_lookup _ _)); [|exact Hv].
  by eapply (proj1 (Forall_lookup _ _) Ha).
Qed.

Lemma getpad3_Forall {A} (P : A → Prop) (cval : A) (a : list (list (list A)))
    (y x z : Z) :
  Forall (Forall (Forall P)) a → P cval → P (getpad3 cval a y x z).
Proof.
  intros Ha Hc. unfold getpad3. destruct (_ && _); [|done].
  destruct (a !! Z.to_nat y) as [p|] eqn:Hp; [|done]. simpl.
  destruct (p !! Z.to_nat x) as [r|] eqn:Hr; [|done]. simpl.
  destruct (r !! Z.to_nat z) as [v|] eqn:Hv; [|done]. simpl.
  eapply (proj1 (Forall_lookup _ _)); [|exact Hv].
  eapply (proj1 (Forall_lookup _ _)); [|exact Hr].
  by eapply (proj1 (Forall_lookup _ _) Ha).
Qed.

Lemma bit_mul_bound (kv pad : Z) : bit kv → bit pad → 0 ≤ kv * pad ≤ kv.
Proof. unfold bit. intros [-> | ->] [-> | ->]; lia. Qed.

Lemma correlate2_bounded (a k : list (list Z)) :
  Forall (Forall bit) a → Forall (Forall bit) k →
  Forall (Forall (fun c => 0 ≤ c ≤ sum2 k)) (correlate2 0 a k).
Proof.
  intros Ha Hk. unfold correlate2.
  apply Forall_lookup. intros i r Hi. rewrite list_lookup_imap in Hi.
  destruct (a !! i) as [row|]; simplify_eq/=.
  apply Forall_lookup. intros j c Hj. rewrite list_lookup_imap in Hj.
  destruct (row !! j) as [x|]; simplify_eq/=.
  unfold isum, sum2. apply ifoldr_sum_bound. intros u kr Hu.
  replace (sumZ kr) with (sumZ (id <$> kr)) by (by rewrite list_fmap_id).
  apply ifoldr_sum_bound. intros v kv Hv.
  apply bit_mul_bound.
  - eapply (proj1 (Forall_lookup _ _)); [|exact Hv].
    by eapply (proj1 (Forall_lookup _ _) Hk).
  - apply getpad2_Forall; [done|by left].
Qed.

Lemma correlate3_bounded (a k : list (list (list Z))) :
  Forall (Forall (Forall bit)) a → Forall (Forall (Forall bit)) k →
  Forall (Forall (Forall (fun c => 0 ≤ c ≤ sum3 k))) (correlate3 0 a k).
Proof.
  intros Ha Hk. unfold correlate3.
  apply Forall_lookup. intros i p Hi. rewrite list_lookup_imap in Hi.
  destruct (a !! i) as [plane|]; simplify_eq/=.
  apply Forall_lookup. intros j r Hj. rewrite list_lookup_imap in Hj.
  destruct (plane !! j) as [row|]; simplify_eq/=.
  apply Forall_lookup. intros l c Hl. rewrite list_lookup_imap in Hl.
  destruct (row !! l) as [x|]; simplify_eq/=.
  unfold isum, sum3. apply ifoldr_sum_bound. intros u kp Hu.
  unfold sum2. apply ifoldr_sum_bound. intros v kr Hv.
  replace (sumZ kr) with (sumZ (id <$> kr)) by (by rewrite list_fmap_id).
  apply ifoldr_sum_bound. intros w kv Hw.
  apply bit_mul_bound.
  - eapply (proj1 (Forall_lookup _ _)); [|exact Hw].
    eapply (proj1 (Forall_lookup _ _)); [|exact Hv].
    by eapply (proj1 (Forall_lookup _ _) Hk).
  - apply getpad3_Forall; [done|by left].
Qed.

Lemma Forall_ensure_odd_kernel2 (P : Z → Prop) (b : bool) (k : list (list Z)) :
  P 0 → Forall (Forall P) k → Forall (Forall P) (ensure_odd_kernel2 b k).
Proof.
  intros H0 Hk. unfold ensure_odd_kernel2.
  set (k1 := if Nat.even (width k) then _ else k).
  assert (Forall (Forall P) k1) as Hk1.
  { unfold k1. destruct (Nat.even (width k)); [|done].
    apply Forall_fmap. eapply Forall_impl; [exact Hk|]. intros r Hr. simpl.
    by apply Forall_pad1. }
  clearbody k1. destruct (Nat.even (length k)); [|done].
  apply Forall_pad1; [|done]. by apply Forall_replicate.
Qed.

Lemma Forall_ensure_odd_kernel3 (P : Z → Prop) (b : bool) (k : list (list (list Z))) :
  P 0 → Forall (Forall (Forall P)) k →
  Forall (Forall (Forall P)) (ensure_odd_kernel3 b k).
Proof.
  intros H0 Hk. unfold ensure_odd_kernel3.
  set (k1 := if Nat.even (depth k) then _ else k).
  assert (Forall (Forall (Forall P)) k1) as Hk1.
  { unfold k1. destruct (Nat.even (depth k)); [|done].
    apply Forall_fmap. eapply Forall_impl; [exact Hk|]. intros p Hp. simpl.
    apply Forall_fmap. eapply Forall_impl; [exact Hp|]. intros r Hr. simpl.
    by apply Forall_pad1. }
  clearbody k1.
  set (k2 := if Nat.even (width k1) then _ else k1).
  assert (Forall (Forall (Forall P)) k2) as Hk2.
  { unfold k2. destruct (Nat.even (width k1)); [|done].
    apply Forall_fmap. eapply Forall_impl; [exact Hk1|]. intros p Hp. simpl.
    apply Forall_pad1; [|done]. by apply Forall_replicate. }
  clearbody k2. destruct (Nat.even (length k2)); [|done].
  apply Forall_pad1; [|done]. by apply Forall_replicate, Forall_replicate.
Qed.

Lemma py_get_elem {A} (l : list A) (i : Z) (x : A) : py_get l i = Some x → x ∈ l.
Proof.
  unfold py_get. destruct (py_index _ _) as [k|]; [|done]. simpl.
  apply list_elem_of_lookup_2.
Qed.

Lemma get2_Forall (P : Z → Prop) (a : list (list Z)) (y x v : Z) :
  Forall (Forall P) a → get2 a y x = Ok v → P v.
Proof.
  intros Ha H. unfold get2 in H. apply of_option_Ok in H.
  destruct (py_get a y) as [r|] eqn:Hr; [|done]. simpl in H.
  apply py_get_elem in Hr, H.
  eapply (proj1 (Forall_forall _ _)); [|exact H].
  by eapply (proj1 (Forall_forall _ _) Ha).
Qed.

Lemma get3_Forall (P : Z → Prop) (a : list (list (list Z))) (y x z v : Z) :
  Forall (Forall (Forall P)) a → get3 a y x z = Ok v → P v.
Proof.
  intros Ha H. unfold get3 in H. apply of_option_Ok in H.
  destruct (py_get a y) as [p|] eqn:Hp; [|done]. simpl in H.
  destruct (py_get p x) as [r|] eqn:Hr; [|done]. simpl in H.
  apply py_get_elem in Hp, Hr, H.
  eapply (proj1 (Forall_forall _ _)); [|exact H].
  eapply (proj1 (Forall_forall _ _)); [|exact Hr].
  by eapply (proj1 (Forall_forall _ _) Ha).
Qed.

Lemma mapM_res_Forall_out {A B} (P : B → Prop) (f : A → result B)
    (l : list A) (ys : list B) :
  (∀ x y, f x = Ok y → P y) → mapM_res f l = Ok ys → Forall P ys.
Proof.
  intros Hf H. apply mapM_res_Forall2 in H.
  induction H as [|x y l ys Hxy _ IH]; constructor; [by eapply Hf|done].
Qed.

Lemma sample_Forall (P : Z → Prop) (out : ndarray) (s : spots) (l : list Z) :
  all_cells P out → sample out s = Ok l → Forall P l.
Proof.
  intros Hout. destruct out as [a|a], s as [sp|sp]; simpl in *; try done;
    apply mapM_res_Forall_out; intros p v Hv.
  - by eapply get2_Forall.
  - by eapply get2_Forall.
  - by eapply get3_Forall.
Qed.

Lemma sumZ_Forall2_le {A B} (f : A → Z) (g : B → Z) (l1 : list A) (l2 : list B) :
  Forall2 (fun a b => f a ≤ g b) l1 l2 → sumZ (f <$> l1) ≤ sumZ (g <$> l2).
Proof.
  induction 1 as [|a b l1 l2 Hab _ IH]; [done|].
  change (f a + sumZ (f <$> l1) ≤ g b + sumZ (g <$> l2)). lia.
Qed.

Lemma elem_le_sumZ (l : list Z) (x : Z) :
  Forall (fun v => 0 ≤ v) l → x ∈ l → x ≤ sumZ l.
Proof.
  induction 1 as [|y l Hy Hl IH]; intros Hx; [by apply elem_of_nil in Hx|].
  change (x ≤ y + sumZ l). pose proof (sumZ_nonneg l Hl).
  apply elem_of_cons in Hx as [->|Hx]; [lia|]. specialize (IH Hx). lia.
Qed.

Lemma bit_nonneg (l : list Z) : Forall bit l → Forall (fun v => 0 ≤ v) l.
Proof. intros H. eapply Forall_impl; [exact H|]. intros x. unfold bit. lia. Qed.

Lemma plane_row_bounded (pl : list (list Z)) (k : Z) (row : list Z) :
  Forall (Forall bit) pl →
  mapM_res (fun col : list Z => of_option IndexError (py_get col k)) pl = Ok row →
  Forall bit row ∧ sumZ row ≤ sum2 pl.
Proof.
  intros Hpl H. apply mapM_res_Forall2 in H.
  induction H as [|col x pl row Hx _ IH]; [by split|].
  apply Forall_cons in Hpl as [Hcol Hpl]. destruct (IH Hpl) as [IH1 IH2].
  apply of_option_Ok, py_get_elem in Hx. split.
  - constructor; [|done]. by eapply (proj1 (Forall_forall _ _) Hcol).
  - change (x + sumZ row ≤ sumZ col + sum2 pl).
    pose proof (elem_le_sumZ col x (bit_nonneg _ Hcol) Hx). lia.
Qed.

(** The plane of a binary 3-D filter is binary and no larger than the filter. *)
Lemma plane_bounded (f : list (list (list Z))) (k : Z) (p : list (list Z)) :
  Forall (Forall (Forall bit)) f → plane f k = Ok p →
  Forall (Forall bit) p ∧ sum2 p ≤ sum3 f.
Proof.
  intros Hf H. unfold plane in H. apply mapM_res_Forall2 in H.
  induction H as [|pl row f p Hrow _ IH]; [by split|].
  apply Forall_cons in Hf as [Hpl Hf]. destruct (IH Hf) as [IH1 IH2].
  destruct (plane_row_bounded pl k row Hpl Hrow) as [H1 H2]. split.
  - by constructor.
  - change (sumZ row + sum2 p ≤ sum2 pl + sum3 f). lia.
Qed.

Lemma middle_plane_bounded (image filter filter' : ndarray) :
  all_cells bit filter → middle_plane image filter = Ok filter' →
  all_cells bit filter' ∧ np_sum filter' ≤ np_sum filter.
Proof.
  intros Hf H. destruct image as [a|a], filter as [f|f]; simpl in H;
    try (injection H as <-; split; [done|lia]).
  apply bind_Ok in H as (p & Hp & [= <-]).
  by apply (plane_bounded f (Z.of_nat (depth f) `div` 2) p).
Qed.

Lemma count_sign_bounded (sign : Z → Z) (image : ndarray) (s : spots)
    (filter : ndarray) (l : list Z) :
  (∀ x, bit (sign x)) → all_cells bit filter →
  count_sign sign image s filter = Ok l →
  Forall (fun c => 0 ≤ c ≤ np_sum filter) l.
Proof.
  intros Hsign Hf H. unfold count_sign in H.
  apply bind_Ok in H as (filter' & Hmid & H).
  apply bind_Ok in H as (out & Hout & H).
  destruct (middle_plane_bounded _ _ _ Hf Hmid) as [Hf' Hsum].
  eapply Forall_impl; [eapply (sample_Forall (fun c => 0 ≤ c ≤ np_sum filter'));
                       [|exact H]|].
  2: { intros c. simpl. lia. }
  unfold imfilter, correlate in Hout.
  destruct image as [a|a], filter' as [k|k]; simpl in Hout; try done;
    injection Hout as <-; simpl.
  - rewrite <- (sum2_ensure_odd k). apply correlate2_bounded.
    + by apply Forall_map2.
    + apply Forall_ensure_odd_kernel2; [by left|done].
  - rewrite <- (sum3_ensure_odd k). apply correlate3_bounded.
    + by apply Forall_map3.
    + apply Forall_ensure_odd_kernel3; [by left|done].
Qed.

Lemma sum2_mean_last_axis (f : list (list (list Z))) h w :
  rect3 h w 1 f → sum2 (mean_last_axis f) = sum3 f.
Proof.
  intros [_ Hf]. unfold mean_last_axis, map2, sum2, sum3.
  rewrite <- list_fmap_compose. f_equal.
  apply Forall_fmap_ext_1. eapply Forall_impl; [exact Hf|].
  intros p [_ Hp]. unfold compose, sum2. f_equal.
  apply Forall_fmap_ext_1. eapply Forall_impl; [exact Hp|].
  intros col Hcol. destruct col as [|x [|? ?]]; try done.
  unfold sumZ. simpl. lia.
Qed.

Lemma np_sum_flatten_filter (image filter : ndarray) :
  rect filter → np_sum (flatten_filter image filter) = np_sum filter.
Proof.
  intros Hf. destruct image as [a|a], filter as [f|f]; simpl; try done.
  destruct (Z.eqb_spec (Z.of_nat (depth f)) 1) as [Hd|Hd]; [|done].
  simpl in *. apply (sum2_mean_last_axis f (length f) (width f)).
  by replace 1%nat with (depth f) by lia.
Qed.

Lemma positive_bit (x : Z) : bit (positive x).
Proof. unfold positive. destruct (0 <? x); [by right|by left]. Qed.

Lemma negative_bit (x : Z) : bit (negative x).
Proof. unfold negative. destruct (x <? 0); [by right|by left]. Qed.

(** What a successful call of [count_spot_neighbours] has checked and
    computed: [image'] and [s'] are the image and the spots after the
    removal of an empty dimension. *)
Lemma count_spot_neighbours_Ok (image : ndarray) (s : spots) (pf : ndarray)
    (nf : option ndarray) (n_pos : list Z) (o : option (list Z)) :
  count_spot_neighbours image s pf nf = Ok (n_pos, o) →
  ∃ image' s',
    is_binary (flatten_filter image' pf) = true
    ∧ spot_oob (spot_rows s') ((fun n => n - 1) <$> shape image') = Ok []
    ∧ count_sign positive image' s' (flatten_filter image' pf) = Ok n_pos
    ∧ match nf with
      | None => o = None
      | Some f =>
          is_binary (flatten_filter image' f) = true
          ∧ ∃ n_neg, o = Some n_neg
              ∧ count_sign negative image' s' (flatten_filter image' f) = Ok n_neg
      end
    ∧ (same_rank image pf s → image' = image ∧ s' = s).
Proof.
  unfold count_spot_neighbours. intros H.
  apply bind_Ok in H as (zmax & _ & H). cbv zeta in H.
  match type of H with
  | context [flatten_filter ?im pf] => set (image' := im) in *
  end.
  match type of H with
  | context [spot_rows ?sp] => set (s' := sp) in *
  end.
  exists image', s'.
  apply bind_Ok in H as (nf' & Hnf & H).
  destruct (is_binary (flatten_filter image' pf)) eqn:Hbin; [|done]. simpl in H.
  apply bind_Ok in H as (oob & Hoob & H).
  destruct oob as [|val oob]; [|done].
  apply bind_Ok in H as (n_pos' & Hpos & H).
  split; [done|]. split; [done|].
  assert (n_pos' = n_pos ∧
          match nf with
          | None => o = None
          | Some f =>
              is_binary (flatten_filter image' f) = true
              ∧ ∃ n_neg, o = Some n_neg
                  ∧ count_sign negative image' s' (flatten_filter image' f) = Ok n_neg
          end) as [-> Hneg].
  { destruct nf as [f|].
    - destruct (is_binary (flatten_filter image' f)) eqn:Hbf; [|done].
      injection Hnf as <-. apply bind_Ok in H as (n_neg & Hn & [= -> <-]).
      split; [done|]. split; [done|]. by exists n_neg.
    - injection Hnf as <-. by injection H as -> <-. }
  split; [done|]. split; [done|].
  intros Hrank. unfold image', s'.
  destruct image as [a|a], pf as [k|k], s as [l|l]; simpl in Hrank; done.
Qed.

Lemma count_spot_neighbours_bound (image : ndarray) (s : spots) (pf : ndarray)
    (nf : option ndarray) (n_pos : list Z) (o : option (list Z)) :
  rect pf → from_option rect True nf →
  count_spot_neighbours image s pf nf = Ok (n_pos, o) →
  Forall (fun c => 0 ≤ c ≤ np_sum pf) n_pos
  ∧ match nf, o with
    | Some f, Some n_neg => Forall (fun c => 0 ≤ c ≤ np_sum f) n_neg
    | None, None => True
    | _, _ => False
    end.
Proof.
  intros Hpf Hnf H.
  apply count_spot_neighbours_Ok in H as (image' & s' & Hbin & _ & Hpos & Hneg & _).
  split.
  - rewrite <- (np_sum_flatten_filter image' pf Hpf).
    eapply count_sign_bounded; [apply positive_bit| |exact Hpos].
    by apply is_binary_spec.
  - destruct nf as [f|]; [|by rewrite Hneg].
    destruct Hneg as (Hbf & n_neg & -> & Hn). simpl in Hnf.
    rewrite <- (np_sum_flatten_filter image' f Hnf).
    eapply count_sign_bounded; [apply negative_bit| |exact Hn].
    by apply is_binary_spec.
Qed.

(** X12: whenever [count_spot_neighbours] returns, every count of positive
    neighbours lies between 0 and the sum of the positive filter, and every
    count of negative neighbours between 0 and the sum of the negative
    filter; negative counts are returned exactly when a negative filter is
    given. *)
Theorem count_spot_neighbours_bounded (image : ndarray) (s : spots) (pf : ndarray)
    (nf : option ndarray) (n_pos : list Z) (o : option (list Z)) :
  rect pf → from_option rect True nf →
  count_spot_neighbours image s pf nf = Ok (n_pos, o) →
  Forall (fun c => 0 ≤ c ≤ np_sum pf) n_pos
  ∧ match nf, o with
    | Some f, Some n_neg => Forall (fun c => 0 ≤ c ≤ np_sum f) n_neg
    | None, None => True
    | _, _ => False
    end.
Proof. apply count_spot_neighbours_bound. Qed.

Lemma count_spot_neighbours_bounded_witness :
  Forall (fun c => 0 ≤ c ≤ np_sum (Arr2 [[1; 1]; [1; 0]])) [2; 2]
  ∧ Forall (fun c => 0 ≤ c ≤ np_sum (Arr2 [[0; 1]])) [1; 1].
Proof.
  apply (count_spot_neighbours_bounded
           (Arr2 [[3; -1; 2; 5]; [1; 1; -4; 1]; [2; 7; 1; 1]])
           (Yx [(1, 1); (0, 0)]) (Arr2 [[1; 1]; [1; 0]]) (Some (Arr2 [[0; 1]]))
           [2; 2] (Some [1; 1])).
  - split; [reflexivity|]. repeat constructor.
  - split; [reflexivity|]. repeat constructor.
  - reflexivity.
Defined.

(** ** [count_spot_neighbours]: the checks *)

Lemma spot_oob_filter (image : ndarray) (rows : list (list Z)) :
  Forall (fun spot : list Z => Z.of_nat (length spot) = ndim image) rows →
  spot_oob rows ((fun n => n - 1) <$> shape image)
  = Ok (filter (fun spot => in_bounds image spot = false) rows).
Proof.
  induction 1 as [|spot rows Hspot _ IH]; [done|].
  simpl. rewrite IH.
  assert ((if min_list spot <? 0 then Ok true
           else any_gt spot ((fun n => n - 1) <$> shape image))
          = Ok (negb (in_bounds image spot))) as ->.
  { destruct image as [a|a]; simpl in Hspot.
    - destruct spot as [|y [|x [|? ?]]]; simpl in Hspot; try lia.
      simpl. unfold inb2, any_gt, width. simpl.
      repeat match goal with
      | |- context [?p <? ?q] => destruct (Z.ltb_spec p q); try lia
      | |- context [?p <=? ?q] => destruct (Z.leb_spec p q); try lia
      end; done.
    - destruct spot as [|y [|x [|z [|? ?]]]]; simpl in Hspot; try lia.
      simpl. unfold inb3, any_gt, depth, width. simpl.
      repeat match goal with
      | |- context [?p <? ?q] => destruct (Z.ltb_spec p q); try lia
      | |- context [?p <=? ?q] => destruct (Z.leb_spec p q); try lia
      end; done. }
  simpl. rewrite filter_cons.
  by destruct (in_bounds image spot).
Qed.

Lemma spot_rows_rank (image mask : ndarray) (s : spots) :
  same_rank image mask s →
  Forall (fun spot : list Z => Z.of_nat (length spot) = ndim image) (spot_rows s).
Proof.
  destruct image, mask, s; simpl; try done; intros _;
    apply Forall_fmap, Forall_true; done.
Qed.

Lemma filter_nil_Forall {A} (P : A → Prop) `{!∀ x, Decision (P x)} (l : list A) :
  filter P l = [] → Forall (fun x => ¬ P x) l.
Proof.
  induction l as [|x l IH]; [done|]. rewrite filter_cons.
  destruct (decide (P x)); [done|]. intros Hf. constructor; [done|by apply IH].
Qed.

(** X13: [count_spot_neighbours] raises a [ValueError] for an empty set of
    spots.  For an image, a filter and spots of the same number of
    dimensions it raises a [ValueError] when the positive filter has a value
    other than 0 and 1, and with binary filters it raises the
    [OutOfBoundsError] for the first spot that lies outside the image,
    reporting that spot and the bounds [0 .. shape - 1].  So whenever it
    returns, the positive filter is binary and every spot lies in the
    image. *)
Theorem count_spot_neighbours_rejects (image : ndarray) (s : spots) (pf : ndarray)
    (nf : option ndarray) :
  (n_spots s = 0%nat →
   count_spot_neighbours image s pf nf
   = Err (ValueError "zero-size array to reduction operation maximum"))
  ∧ (same_rank image pf s → (0 < n_spots s)%nat →
     is_binary pf = false →
     ∃ msg, count_spot_neighbours image s pf nf = Err (ValueError msg))
  ∧ (same_rank image pf s →
     is_binary pf = true →
     from_option (fun f => is_binary (flatten_filter image f) = true) True nf →
     ∀ val,
       head (filter (fun spot => in_bounds image spot = false) (spot_rows s))
       = Some val →
       count_spot_neighbours image s pf nf
       = Err (OutOfBoundsError "spot_yxz" val ((fun _ => 0) <$> shape image)
                               ((fun n => n - 1) <$> shape image)))
  ∧ (same_rank image pf s →
     ∀ r, count_spot_neighbours image s pf nf = Ok r →
          is_binary pf = true
          ∧ Forall (fun spot => in_bounds image spot = true) (spot_rows s)).
Proof.
  split; [|split; [|split]].
  - intros Hn. unfold count_spot_neighbours.
    assert (last_column s = []) as ->; [|done].
    destruct s as [l|l]; simpl in *; by destruct l.
  - intros Hrank Hn Hbin. unfold count_spot_neighbours.
    destruct (max_abs_nonempty (last_column s)) as [zmax ->].
    { destruct s as [l|l]; simpl in *; destruct l; simpl in *; done || lia. }
    change (Ok zmax ≫= ?f) with (f zmax). cbv beta zeta.
    destruct image as [a|a], pf as [k|k], s as [l|l]; try done; cbv iota;
      unfold flatten_filter; rewrite Hbin;
      (destruct nf as [f|]; simpl;
       [match goal with
        | |- context [if is_binary ?x then _ else _] => destruct (is_binary x)
        end|]); simpl; by eexists.
  - intros Hrank Hbin Hnf val Hval. unfold count_spot_neighbours.
    pose proof (spot_oob_filter image _ (spot_rows_rank _ _ _ Hrank)) as Hoob.
    destruct (max_abs_nonempty (last_column s)) as [zmax ->].
    { destruct s as [l|l]; simpl in *; destruct l; simpl in *; done. }
    change (Ok zmax ≫= ?f) with (f zmax). cbv beta zeta.
    destruct (filter _ (spot_rows s)) as [|val' rest] eqn:Hf; [done|].
    simpl in Hval. injection Hval as ->.
    destruct image as [a|a], pf as [k|k], s as [l|l]; try done;
      unfold flatten_filter in *; cbv iota;
      rewrite Hbin, Hoob;
      (destruct nf as [f|]; [simpl in Hnf; rewrite Hnf|]); done.
  - intros Hrank [n_pos o] H.
    apply count_spot_neighbours_Ok in H as (image' & s' & Hbin & Hoob & _ & _ & Heq).
    destruct (Heq Hrank) as [-> ->].
    split.
    + by destruct image as [a|a], pf as [k|k], s as [l|l].
    + rewrite (spot_oob_filter image _ (spot_rows_rank _ _ _ Hrank)) in Hoob.
      injection Hoob as Hoob. apply filter_nil_Forall in Hoob.
      eapply Forall_impl; [exact Hoob|]. intros spot. simpl.
      by destruct (in_bounds image spot).
Qed.

Lemma count_spot_neighbours_rejects_witness :
  count_spot_neighbours (Arr2 [[1; 2]; [3; 4]]) (Yx [(0, 0); (5, 1)]) (Arr2 [[1]]) None
  = Err (OutOfBoundsError "spot_yxz" [5; 1] [0; 0] [1; 1])
  ∧ count_spot_neighbours (Arr2 [[1; 2]; [3; 4]]) (Yx []) (Arr2 [[1]]) None
    = Err (ValueError "zero-size array to reduction operation maximum").
Proof.
  split.
  - apply (proj1 (proj2 (proj2 (count_spot_neighbours_rejects
             (Arr2 [[1; 2]; [3; 4]]) (Yx [(0, 0); (5, 1)]) (Arr2 [[1]]) None)))).
    + exact I.
    + reflexivity.
    + exact I.
    + reflexivity.
  - apply (proj1 (count_spot_neighbours_rejects
             (Arr2 [[1; 2]; [3; 4]]) (Yx []) (Arr2 [[1]]) None)).
    reflexivity.
Defined.

(** ** [count_spot_neighbours] depends on the signs of the image only *)

Lemma map2_map2 {A B C} (g : B → C) (f : A → B) (a : list (list A)) :
  map2 g (map2 f a) = map2 (fun x => g (f x)) a.
Proof.
  unfold map2. rewrite <- list_fmap_compose. apply list_fmap_ext.
  intros i r _. unfold compose. by rewrite <- list_fmap_compose.
Qed.

Lemma map3_map3 {A B C} (g : B → C) (f : A → B) (a : list (list (list A))) :
  map3 g (map3 f a) = map3 (fun x => g (f x)) a.
Proof.
  unfold map3. rewrite <- list_fmap_compose. apply list_fmap_ext.
  intros i r _. unfold compose. apply map2_map2.
Qed.

Lemma map2_ext {A B} (f g : A → B) (a : list (list A)) :
  (∀ x, f x = g x) → map2 f a = map2 g a.
Proof.
  intros H. unfold map2. apply list_fmap_ext. intros i r _.
  apply list_fmap_ext. intros j x _. apply H.
Qed.

Lemma map3_ext {A B} (f g : A → B) (a : list (list (list A))) :
  (∀ x, f x = g x) → map3 f a = map3 g a.
Proof.
  intros H. unfold map3. apply list_fmap_ext. intros i r _. by apply map2_ext.
Qed.

Lemma amap_amap (g f : Z → Z) (a : ndarray) :
  amap g (amap f a) = amap (fun x => g (f x)) a.
Proof. destruct a; simpl; by rewrite ?map2_map2, ?map3_map3. Qed.

Lemma amap_ext (f g : Z → Z) (a : ndarray) :
  (∀ x, f x = g x) → amap f a = amap g a.
Proof.
  intros H. destruct a; simpl; f_equal; [by apply map2_ext|by apply map3_ext].
Qed.

Lemma shape2_map2 {A B} (f : A → B) (a : list (list A)) : shape2 (map2 f a) = shape2 a.
Proof.
  unfold shape2, map2. rewrite length_fmap. do 2 f_equal.
  destruct a as [|r a]; [done|]. simpl. by rewrite length_fmap.
Qed.

Lemma shape3_map3 {A B} (f : A → B) (a : list (list (list A))) :
  shape3 (map3 f a) = shape3 a.
Proof.
  unfold shape3, map3. rewrite length_fmap. f_equal.
  destruct a as [|p a]; [done|]. simpl. apply shape2_map2.
Qed.

Lemma shape_amap (f : Z → Z) (a : ndarray) : shape (amap f a) = shape a.
Proof. destruct a; simpl; [apply shape2_map2|apply shape3_map3]. Qed.

Lemma depth_map3 {A B} (f : A → B) (a : list (list (list A))) :
  depth (map3 f a) = depth a.
Proof.
  pose proof (shape3_map3 f a) as H. unfold shape3, shape2 in H.
  injection H as _ _ H. unfold depth, width. lia.
Qed.

Lemma mean_last_axis_map3 (f : Z → Z) (a : list (list (list Z))) :
  f 0 = 0 → mean_last_axis (map3 f a) = map2 f (mean_last_axis a).
Proof.
  intros H0. unfold mean_last_axis, map3. rewrite !map2_map2.
  unfold map2. rewrite <- list_fmap_compose. apply list_fmap_ext.
  intros i p _. unfold compose. rewrite <- list_fmap_compose.
  apply list_fmap_ext. intros j col _. unfold compose. by destruct col.
Qed.

Lemma count_sign_sgn (sign : Z → Z) (image : ndarray) (s : spots) (filter : ndarray) :
  (∀ x, sign (Z.sgn x) = sign x) →
  count_sign sign (amap Z.sgn image) s filter = count_sign sign image s filter.
Proof.
  intros H. unfold count_sign. rewrite amap_amap, (amap_ext _ sign); [|done].
  by destruct image, filter.
Qed.

Lemma flatten_filter_amap (f : Z → Z) (image filter : ndarray) :
  flatten_filter (amap f image) filter = flatten_filter image filter.
Proof. by destruct image, filter. Qed.

(** X14: [count_spot_neighbours] depends on the image only through the
    signs of its pixels: replacing every pixel by its sign changes neither
    the counts nor the errors. *)
Theorem count_spot_neighbours_sign (image : ndarray) (s : spots) (pf : ndarray)
    (nf : option ndarray) :
  count_spot_neighbours (amap Z.sgn image) s pf nf
  = count_spot_neighbours image s pf nf.
Proof.
  assert (∀ x, positive (Z.sgn x) = positive x) as Hp.
  { intros x. unfold positive. by destruct x. }
  assert (∀ x, negative (Z.sgn x) = negative x) as Hn.
  { intros x. unfold negative. by destruct x. }
  assert (∀ (im : ndarray) (sp : spots) (zmax' : Z),
    (neg_filter ←
       match nf with
       | None => Ok None
       | Some f =>
           let f := flatten_filter (amap Z.sgn im) f in
           if is_binary f then Ok (Some f)
           else Err (ValueError "neg_filter contains values other than 0 or 1.")
       end;
     if negb (is_binary (flatten_filter (amap Z.sgn im) pf))
     then Err (ValueError "pos_filter contains values other than 0 or 1.")
     else
       let max_yxz := (fun n => n - 1) <$> shape (amap Z.sgn im) in
       oob ← spot_oob (spot_rows sp) max_yxz;
       match oob with
       | val :: _ =>
           Err (OutOfBoundsError "spot_yxz" val ((fun _ => 0) <$> max_yxz) max_yxz)
       | [] =>
           n_pos_neighbours ←
             count_sign positive (amap Z.sgn im) sp
                        (flatten_filter (amap Z.sgn im) pf);
           match neg_filter with
           | None => Ok (n_pos_neighbours, None)
           | Some neg_filter =>
               n_neg_neighbours ←
                 count_sign negative (amap Z.sgn im) sp neg_filter;
               Ok (n_pos_neighbours, Some n_neg_neighbours)
           end
       end)
    = (neg_filter ←
       match nf with
       | None => Ok None
       | Some f =>
           let f := flatten_filter im f in
           if is_binary f then Ok (Some f)
           else Err (ValueError "neg_filter contains values other than 0 or 1.")
       end;
     if negb (is_binary (flatten_filter im pf))
     then Err (ValueError "pos_filter contains values other than 0 or 1.")
     else
       let max_yxz := (fun n => n - 1) <$> shape im in
       oob ← spot_oob (spot_rows sp) max_yxz;
       match oob with
       | val :: _ =>
           Err (OutOfBoundsError "spot_yxz" val ((fun _ => 0) <$> max_yxz) max_yxz)
       | [] =>
           n_pos_neighbours ←
             count_sign positive im sp (flatten_filter im pf);
           match neg_filter with
           | None => Ok (n_pos_neighbours, None)
           | Some neg_filter =>
               n_neg_neighbours ← count_sign negative im sp neg_filter;
               Ok (n_pos_neighbours, Some n_neg_neighbours)
           end
       end)) as Hrest.
  { intros im sp _. cbv zeta.
    rewrite !flatten_filter_amap, !shape_amap, (count_sign_sgn positive) by done.
    destruct nf as [f|]; [|done].
    rewrite flatten_filter_amap. destruct (is_binary (flatten_filter im f)); [|done].
    change (Ok ?x ≫= ?g) with (g x). cbv beta iota.
    by rewrite (count_sign_sgn negative). }
  unfold count_spot_neighbours.
  destruct (max_abs (last_column s)) as [zmax|]; [|done].
  change (Ok zmax ≫= ?f) with (f zmax). cbv beta zeta.
  destruct image as [a|a], s as [l|l]; simpl amap; cbv iota.
  - exact (Hrest (Arr2 a) (Yx l) zmax).
  - destruct (zmax =? 0).
    + exact (Hrest (Arr2 a) (Yx ((fun p : Z * Z * Z => p.1) <$> l)) zmax).
    + exact (Hrest (Arr2 a) (Yxz l) zmax).
  - rewrite depth_map3. destruct (Z.of_nat (depth a) =? 1).
    + rewrite mean_last_axis_map3 by done.
      exact (Hrest (Arr2 (mean_last_axis a)) (Yx l) zmax).
    + exact (Hrest (Arr3 a) (Yx l) zmax).
  - exact (Hrest (Arr3 a) (Yxz l) zmax).
Qed.

(** ** [cropped_coef_image]: the rank of the image, and translations *)

Lemma nonzero_pixels_inv (sparse : bool) (pixel_yxz : list yxz) (coefs : list Z) nz :
  nonzero_pixels sparse pixel_yxz coefs = Ok nz → nz = nz_pixels pixel_yxz coefs.
Proof.
  unfold nonzero_pixels, nz_pixels. destruct (if sparse then _ else _); [|done].
  by intros [= <-].
Qed.

Lemma reduce_axis0_nonempty (f : Z → Z → Z) msg (l : list yxz) m :
  reduce_axis0 f msg l = Ok m → l ≠ [].
Proof. by destruct l. Qed.

(** X15: the volume that [cropped_coef_image] returns is 2-D or 3-D, and it
    is 2-D exactly when all the pixels with a non-zero coefficient lie on
    one z-plane, the plane of the returned shift. *)
Theorem cropped_coef_image_rank (pixel_yxz : list yxz) (sparse : bool)
    (coefs : list Z) (vol : ndarray) (shift : yxz) :
  cropped_coef_image pixel_yxz sparse coefs = Ok (vol, shift) →
  (ndim vol = 2 ∨ ndim vol = 3)
  ∧ (ndim vol = 2 ↔
     ∀ p c, (p, c) ∈ nz_pixels pixel_yxz coefs → p.2 = shift.2).
Proof.
  unfold cropped_coef_image. intros H.
  apply bind_Ok in H as (nz & Hnz & H). apply nonzero_pixels_inv in Hnz as ->.
  set (nz := nz_pixels pixel_yxz coefs) in *.
  apply bind_Ok in H as (shift' & Hmin & H).
  apply bind_Ok in H as (top & Hmax & H).
  destruct (min_axis0_corner nz.*1 (reduce_axis0_nonempty _ _ _ _ Hmin))
    as (m & Hm & Hlow).
  unfold min_axis0 in *. rewrite Hmin in Hm. injection Hm as <-.
  destruct (max_axis0_corner _ (reduce_axis0_nonempty _ _ _ _ Hmax))
    as (m & Hm & Hup).
  unfold max_axis0 in *. rewrite Hmax in Hm. injection Hm as <-.
  destruct Hlow as (Hlow & _).
  destruct Hup as (Hup & _ & _ & (q & Hq & Hqz)).
  assert (top.2 = 0 ↔ ∀ p c, (p, c) ∈ nz → p.2 = shift'.2) as Hz.
  { split.
    - intros Htop p c Hpc.
      assert (p ∈ nz.*1) as Hp by (apply list_elem_of_fmap; by exists (p, c)).
      destruct (Hlow p Hp) as (_ & _ & Hge).
      destruct (Hup (zip_yxz Z.sub p shift')) as (_ & _ & Hle).
      { apply list_elem_of_fmap. by exists p. }
      unfold zip_yxz in Hle. simpl in Hle. lia.
    - intros Hall. apply list_elem_of_fmap in Hq as (p & -> & Hp).
      apply list_elem_of_fmap in Hp as ([p' c] & -> & Hpc).
      specialize (Hall p' c Hpc). unfold zip_yxz in Hqz. simpl in *. lia. }
  destruct top as [[ty tx] tz]. unfold zip_yxz in H at 1. simpl in H, Hz.
  destruct (Z.eqb_spec (tz + 1) 1) as [Htz|Htz].
  - apply bind_Ok in H as (im & _ & [= <- <-]). simpl.
    split; [by left|]. split; [|done]. intros _. apply Hz. lia.
  - apply bind_Ok in H as (im & _ & [= <- <-]). simpl.
    split; [by right|]. split; [done|]. intros Hall. apply Hz in Hall. lia.
Qed.

Lemma cropped_coef_image_rank_witness :
  (ndim (Arr2 [[1; 2]]) = 2 ∨ ndim (Arr2 [[1; 2]]) = 3)
  ∧ (ndim (Arr2 [[1; 2]]) = 2 ↔
     ∀ p c, (p, c) ∈ nz_pixels [(0, 0, 4); (0, 1, 4)] [1; 2] → p.2 = 4).
Proof.
  apply (cropped_coef_image_rank [(0, 0, 4); (0, 1, 4)] true [1; 2]
           (Arr2 [[1; 2]]) (0, 0, 4)).
  reflexivity.
Defined.

(** The pixels with a non-zero coefficient, of pixels moved by [t]. *)
Lemma nz_pixels_shift (t : yxz) (pixel_yxz : list yxz) (coefs : list Z) :
  nz_pixels ((fun p => zip_yxz Z.add p t) <$> pixel_yxz) coefs
  = (fun pv : yxz * Z => (zip_yxz Z.add pv.1 t, pv.2)) <$> nz_pixels pixel_yxz coefs.
Proof.
  unfold nz_pixels. revert coefs.
  induction pixel_yxz as [|p l IH]; intros [|c coefs]; try done.
  simpl. rewrite !filter_cons. simpl.
  destruct (decide (c ≠ 0)); simpl; by rewrite IH.
Qed.

Lemma nonzero_pixels_shift (sparse : bool) (t : yxz) (pixel_yxz : list yxz)
    (coefs : list Z) :
  nonzero_pixels sparse ((fun p => zip_yxz Z.add p t) <$> pixel_yxz) coefs
  = nonzero_pixels sparse pixel_yxz coefs ≫=
    (fun nz : list (yxz * Z) =>
       Ok ((fun pv : yxz * Z => (zip_yxz Z.add pv.1 t, pv.2)) <$> nz)).
Proof.
  unfold nonzero_pixels. rewrite length_fmap.
  destruct (if sparse then _ else _); [|done]. simpl.
  f_equal. apply nz_pixels_shift.
Qed.

Lemma foldr_zip_yxz_shift (f : Z → Z → Z) (t p : yxz) (l : list yxz) :
  (∀ a b c, f (a + c) (b + c) = f a b + c) →
  foldr (zip_yxz f) (zip_yxz Z.add p t) ((fun q => zip_yxz Z.add q t) <$> l)
  = zip_yxz Z.add (foldr (zip_yxz f) p l) t.
Proof.
  intros Hf. induction l as [|q l IH]; [done|].
  change (zip_yxz f (zip_yxz Z.add q t)
            (foldr (zip_yxz f) (zip_yxz Z.add p t) ((fun q => zip_yxz Z.add q t) <$> l))
          = zip_yxz Z.add (zip_yxz f q (foldr (zip_yxz f) p l)) t).
  rewrite IH. unfold zip_yxz. simpl. by rewrite !Hf.
Qed.

Lemma reduce_axis0_shift (f : Z → Z → Z) msg (t : yxz) (l : list yxz) :
  (∀ a b c, f (a + c) (b + c) = f a b + c) →
  reduce_axis0 f msg ((fun q => zip_yxz Z.add q t) <$> l)
  = reduce_axis0 f msg l ≫= (fun m : yxz => Ok (zip_yxz Z.add m t)).
Proof.
  intros Hf. destruct l as [|p l]; [done|]. simpl. f_equal.
  by apply foldr_zip_yxz_shift.
Qed.

(** X16: translating every pixel location by the same vector [t] leaves the
    volume of [cropped_coef_image] as it is and adds [t] to the returned
    shift; an error stays the same error. *)
Theorem cropped_coef_image_translation (t : yxz) (pixel_yxz : list yxz)
    (sparse : bool) (coefs : list Z) :
  cropped_coef_image ((fun p => zip_yxz Z.add p t) <$> pixel_yxz) sparse coefs
  = cropped_coef_image pixel_yxz sparse coefs ≫=
    (fun r : ndarray * yxz => Ok (r.1, zip_yxz Z.add r.2 t)).
Proof.
  unfold cropped_coef_image. rewrite nonzero_pixels_shift.
  destruct (nonzero_pixels sparse pixel_yxz coefs) as [nz|]; [|done].
  change (Ok nz ≫= ?f) with (f nz). cbv beta.
  change (Ok ?x ≫= ?f) with (f x). cbv beta.
  assert (((fun pv : yxz * Z => (zip_yxz Z.add pv.1 t, pv.2)) <$> nz).*1
          = (fun q => zip_yxz Z.add q t) <$> nz.*1) as ->.
  { rewrite <- !list_fmap_compose. done. }
  assert (((fun pv : yxz * Z => (zip_yxz Z.add pv.1 t, pv.2)) <$> nz).*2 = nz.*2) as ->.
  { rewrite <- !list_fmap_compose. done. }
  unfold min_axis0. rewrite reduce_axis0_shift by (intros; lia).
  destruct (reduce_axis0 Z.min _ nz.*1) as [shift|]; [|done].
  change (Ok shift ≫= ?f) with (f shift). cbv beta.
  change (Ok ?x ≫= ?f) with (f x). cbv beta.
  assert ((fun p => zip_yxz Z.sub p (zip_yxz Z.add shift t))
            <$> ((fun q => zip_yxz Z.add q t) <$> nz.*1)
          = (fun p => zip_yxz Z.sub p shift) <$> nz.*1) as ->.
  { rewrite <- list_fmap_compose. apply list_fmap_ext. intros i p _.
    unfold compose, zip_yxz. simpl.
    replace (p.1.1 + t.1.1 - (shift.1.1 + t.1.1)) with (p.1.1 - shift.1.1) by lia.
    replace (p.1.2 + t.1.2 - (shift.1.2 + t.1.2)) with (p.1.2 - shift.1.2) by lia.
    by replace (p.2 + t.2 - (shift.2 + t.2)) with (p.2 - shift.2) by lia. }
  destruct (max_axis0 _) as [top|]; [|done].
  change (Ok top ≫= ?f) with (f top). cbv beta.
  destruct (zip_yxz Z.add top (1, 1, 1)) as [[n_y n_x] n_z].
  destruct (n_z =? 1).
  - by destruct (foldM _ _ _).
  - by destruct (foldM _ _ _).
Qed.

(** ** [get_spots]: the rows that are returned *)

Section GetSpotsRows.

Variable detect_spots : ndarray → Z → Z → option Z → spots.
Variable choice : nat → nat → list nat.

Lemma get_spots_Ok pixel_coefs pixel_yxz radius_xy radius_z coef_thresh
    spot_shape thresh spot_yxzg spot_info :
  get_spots detect_spots choice pixel_coefs pixel_yxz radius_xy radius_z
            coef_thresh spot_shape thresh spot_yxzg = Ok spot_info →
  length pixel_yxz = n_pixels pixel_coefs
  ∧ ∃ filters per,
      shape_filters spot_shape thresh = Ok filters
      ∧ from_option (fun given =>
          check_spot_yxzg choice pixel_coefs pixel_yxz coef_thresh given = Ok ())
          True spot_yxzg
      ∧ Forall2 (fun g rows =>
          gene_spots detect_spots pixel_coefs pixel_yxz radius_xy radius_z
                     coef_thresh filters thresh spot_yxzg g = Ok rows)
          (seq 0 (n_genes pixel_coefs)) per
      ∧ spot_info = concat per.
Proof.
  unfold get_spots. intros H.
  destruct (Nat.eqb_spec (length pixel_yxz) (n_pixels pixel_coefs)) as [Hlen|];
    [|done].
  split; [done|]. simpl in H.
  apply bind_Ok in H as (filters & Hfilters & H).
  apply bind_Ok in H as ([] & Hcheck & H).
  apply foldM_append in H as (per & Hper & ->).
  exists filters, per. split; [done|]. split; [|done].
  by destruct spot_yxzg.
Qed.

Lemma gene_spots_gene pixel_coefs pixel_yxz radius_xy radius_z coef_thresh
    filters thresh spot_yxzg g rows :
  gene_spots detect_spots pixel_coefs pixel_yxz radius_xy radius_z coef_thresh
             filters thresh spot_yxzg g = Ok rows →
  Forall (fun row => row_gene row = Z.of_nat g) rows.
Proof.
  unfold gene_spots. intros H.
  apply bind_Ok in H as ([coef_image coord_shift] & _ & H).
  destruct (0 <? n_spots _)%nat; [|by injection H as <-].
  apply bind_Ok in H as ([keep nb] & _ & H).
  apply bind_Ok in H as (placed & _ & [= <-]).
  apply Forall_lookup. intros i row Hi.
  by apply lookup_zip_with_Some in Hi as (p & n & -> & _ & _).
Qed.

Lemma concat_genes_sorted (i : nat) (per : list (list spot_info_row)) (n : nat) :
  Forall2 (fun g rows => Forall (fun row => row_gene row = Z.of_nat g) rows)
          (seq i n) per →
  StronglySorted Z.le (row_gene <$> concat per)
  ∧ Forall (fun row => Z.of_nat i ≤ row_gene row < Z.of_nat (i + n)) (concat per).
Proof.
  revert i per. induction n as [|n IH]; intros i per H.
  - apply Forall2_nil_inv_l in H as ->. split; constructor.
  - simpl in H. apply Forall2_cons_inv_l in H as (rows & per' & Hrows & Hper & ->).
    destruct (IH (S i) per' Hper) as [IH1 IH2]. simpl. split.
    + rewrite fmap_app. apply StronglySorted_app_2.
      * intros x1 x2 H1 H2.
        apply list_elem_of_fmap in H1 as (r1 & -> & H1).
        apply list_elem_of_fmap in H2 as (r2 & -> & H2).
        rewrite (proj1 (Forall_forall _ _) Hrows r1 H1).
        pose proof (proj1 (Forall_forall _ _) IH2 r2 H2) as Hr2.
        simpl in Hr2. lia.
      * clear -Hrows. induction Hrows as [|r rows Hr Hrs IHr]; [constructor|].
        simpl. constructor; [done|].
        apply Forall_fmap. eapply Forall_impl; [exact Hrs|].
        intros r' Hr'. simpl in *. by rewrite Hr, Hr'.
      * done.
    + apply Forall_app. split.
      * eapply Forall_impl; [exact Hrows|]. intros r Hr. simpl in Hr. lia.
      * eapply Forall_impl; [exact IH2|]. intros r Hr. simpl in Hr. lia.
Qed.

(** X17: the rows of [spot_info] that [get_spots] returns are grouped by
    gene in increasing order of the gene number, and every gene number lies
    in [0 .. n_genes - 1]. *)
Theorem get_spots_genes_in_order pixel_coefs pixel_yxz radius_xy radius_z
    coef_thresh spot_shape thresh spot_yxzg spot_info :
  get_spots detect_spots choice pixel_coefs pixel_yxz radius_xy radius_z
            coef_thresh spot_shape thresh spot_yxzg = Ok spot_info →
  StronglySorted Z.le (row_gene <$> spot_info)
  ∧ Forall (fun row => 0 ≤ row_gene row < Z.of_nat (n_genes pixel_coefs)) spot_info.
Proof.
  intros H. apply get_spots_Ok in H as (_ & filters & per & _ & _ & Hper & ->).
  apply (concat_genes_sorted 0 per (n_genes pixel_coefs)).
  eapply Forall2_impl; [exact Hper|]. intros g rows. apply gene_spots_gene.
Qed.


(** Without a spot shape every candidate is kept. *)
Lemma gene_spots_all pixel_coefs pixel_yxz radius_xy radius_z coef_thresh
    thresh spot_yxzg g rows :
  gene_spots detect_spots pixel_coefs pixel_yxz radius_xy radius_z coef_thresh
             None thresh spot_yxzg g = Ok rows →
  ∃ coef_image coord_shift,
    cropped_coef_image pixel_yxz (sparse pixel_coefs) (column pixel_coefs g)
    = Ok (coef_image, coord_shift)
    ∧ length rows
      = n_spots (gene_candidates detect_spots radius_xy radius_z coef_thresh
                   spot_yxzg coef_image coord_shift g)
    ∧ (rows = []
       ∨ ∃ placed,
           place_spots coef_image
             (gene_candidates detect_spots radius_xy radius_z coef_thresh
                spot_yxzg coef_image coord_shift g)
             (replicate (length rows) true) coord_shift = Ok placed
           ∧ rows = plain_rows g placed).
Proof.
  unfold gene_spots. intros H.
  apply bind_Ok in H as ([coef_image coord_shift] & Hcrop & H).
  exists coef_image, coord_shift. split; [done|].
  set (cand := gene_candidates detect_spots radius_xy radius_z coef_thresh
                 spot_yxzg coef_image coord_shift g) in *.
  destruct (Nat.ltb_spec 0 (n_spots cand)) as [Hpos|Hzero].
  - simpl in H. apply bind_Ok in H as (placed & Hplaced & [= <-]).
    destruct (place_spots_select _ _ _ _ _ Hplaced) as (all & Hall & Hlen & ->).
    rewrite <- Hlen, select_true in *.
    rewrite zip_with_replicate_r_eq by done.
    split; [by rewrite length_fmap|]. right. exists all.
    by rewrite length_fmap.
  - injection H as <-. split; [simpl; lia|by left].
Qed.

(** X18: without a spot shape [get_spots] ignores the neighbour threshold,
    and its result has, gene by gene, one row for every candidate spot of
    the gene: the local maxima that [detect_spots] finds, or the spots of
    the gene given in [spot_yxzg].  No candidate is dropped, and the rows
    carry no neighbour counts. *)
Theorem get_spots_without_shape pixel_coefs pixel_yxz radius_xy radius_z
    coef_thresh thresh spot_yxzg :
  (∀ thresh',
     get_spots detect_spots choice pixel_coefs pixel_yxz radius_xy radius_z
               coef_thresh None thresh' spot_yxzg
     = get_spots detect_spots choice pixel_coefs pixel_yxz radius_xy radius_z
                 coef_thresh None thresh spot_yxzg)
  ∧ ∀ spot_info,
      get_spots detect_spots choice pixel_coefs pixel_yxz radius_xy radius_z
                coef_thresh None thresh spot_yxzg = Ok spot_info →
      ∃ per_gene,
        spot_info = concat per_gene
        ∧ length per_gene = n_genes pixel_coefs
        ∧ ∀ g rows, per_gene !! g = Some rows →
          ∃ coef_image coord_shift,
            cropped_coef_image pixel_yxz (sparse pixel_coefs)
                               (column pixel_coefs g)
            = Ok (coef_image, coord_shift)
            ∧ length rows
              = n_spots (gene_candidates detect_spots radius_xy radius_z
                           coef_thresh spot_yxzg coef_image coord_shift g)
            ∧ (rows = []
               ∨ ∃ placed,
                   place_spots coef_image
                     (gene_candidates detect_spots radius_xy radius_z
                        coef_thresh spot_yxzg coef_image coord_shift g)
                     (replicate (length rows) true) coord_shift = Ok placed
                   ∧ rows = plain_rows g placed).
Proof.
  split; [done|].
  intros spot_info H.
  apply get_spots_Ok in H as (_ & filters & per & Hf & _ & Hper & ->).
  injection Hf as <-.
  exists per. split; [done|].
  split; [by rewrite <- (Forall2_length _ _ _ Hper), length_seq|].
  intros g rows Hg.
  destruct (Forall2_lookup_r _ _ _ _ _ Hper Hg) as (g' & Hg' & Hrows).
  apply lookup_seq in Hg' as [-> _]. simpl in Hrows.
  by apply gene_spots_all in Hrows.
Qed.

Lemma rect_amap (f : Z → Z) (a : ndarray) : rect a → rect (amap f a).
Proof.
  intros Ha.
  pose proof (rect_shape a (amap f a)) as Hs.
  destruct a as [a|a]; simpl in *.
  - destruct Hs as [-> ->]; [done|by rewrite shape2_map2|]. by apply rect2_map2.
  - destruct Hs as (-> & -> & ->); [done|by rewrite shape3_map3|].
    by apply rect3_map3.
Qed.

Lemma retained_Forall (Pc Pd : Z → Prop) thresh g placed n_pos n_neg :
  Forall Pc n_pos → Forall Pd n_neg →
  Forall (fun row => ∃ c d, row_neighbours row = Some (c, d)
                            ∧ thresh < c ∧ Pc c ∧ Pd d)
         (retained thresh g placed n_pos n_neg).
Proof.
  intros Hc. revert placed n_neg.
  induction Hc as [|c n_pos Hc _ IH]; intros [|p placed] n_neg Hd; try done.
  destruct Hd as [|d n_neg Hd Hds]; [done|]. simpl.
  destruct (Z.ltb_spec thresh c); [|by apply IH].
  constructor; [|by apply IH]. by exists c, d.
Qed.

(** X19: with a rectangular spot shape, every row that [get_spots] returns
    carries both neighbour counts; the count of positive neighbours is above
    the threshold and at most the number of positive cells of the shape, the
    count of negative neighbours is between 0 and the number of negative
    cells of the shape. *)
Theorem get_spots_counts_bounded pixel_coefs pixel_yxz radius_xy radius_z
    coef_thresh (spot_shape : ndarray) thresh spot_yxzg spot_info :
  rect spot_shape →
  get_spots detect_spots choice pixel_coefs pixel_yxz radius_xy radius_z
            coef_thresh (Some spot_shape) thresh spot_yxzg = Ok spot_info →
  Forall (fun row =>
            ∃ c d, row_neighbours row = Some (c, d)
                   ∧ thresh < c ≤ np_sum (amap positive spot_shape)
                   ∧ 0 ≤ d ≤ np_sum (amap negative spot_shape))
         spot_info.
Proof.
  intros Hrect H.
  apply get_spots_Ok in H as (_ & filters & per & Hf & _ & Hper & ->).
  apply shape_filters_Some in Hf as (-> & _).
  apply Forall_concat, Forall_lookup. intros i rows Hi.
  destruct (Forall2_lookup_r _ _ _ _ _ Hper Hi) as (g & _ & Hrows).
  apply gene_spots_retained in Hrows
    as (coef_image & coord_shift & _ & [[_ ->]|(n_pos & n_neg & placed & Hc & _ & _ & _ & ->)]);
    [constructor|].
  apply count_spot_neighbours_bound in Hc as [Hpos Hneg];
    [|by apply rect_amap|by apply rect_amap].
  eapply Forall_impl; [apply (retained_Forall _ _ _ _ _ _ _ Hpos Hneg)|].
  intros row (c & d & Hrow & Hlt & Hc & Hd). exists c, d. simpl in *.
  split; [done|]. lia.
Qed.

(** X20: when the non-zero coefficients of a gene lie on one z-plane, its
    coefficient image is 2-D; if [spot_yxzg] then lists a spot of this gene,
    the three coordinates of the spot cannot be stored in the two columns of
    the spots of the gene, and [get_spots] raises. *)
Theorem get_spots_given_single_plane pixel_coefs pixel_yxz radius_xy radius_z
    coef_thresh spot_shape thresh (given : list (yxz * Z)) (g : nat)
    (a : list (list Z)) (coord_shift : yxz) :
  (g < n_genes pixel_coefs)%nat →
  cropped_coef_image pixel_yxz (sparse pixel_coefs) (column pixel_coefs g)
  = Ok (Arr2 a, coord_shift) →
  (∃ p, (p, Z.of_nat g) ∈ given) →
  ∃ e, get_spots detect_spots choice pixel_coefs pixel_yxz radius_xy radius_z
                 coef_thresh spot_shape thresh (Some given) = Err e.
Proof.
  intros Hg Hcrop [p Hp].
  destruct (get_spots _ _ _ _ _ _ _ _ _ _) as [spot_info|e] eqn:H; [|by exists e].
  exfalso.
  apply get_spots_Ok in H as (_ & filters & per & _ & _ & Hper & _).
  destruct (Forall2_lookup_l _ _ _ g g Hper) as (rows & _ & Hrows).
  { by apply lookup_seq. }
  simpl in Hrows. unfold gene_spots in Hrows. rewrite Hcrop in Hrows.
  change (Ok (Arr2 a, coord_shift) ≫= ?f) with (f (Arr2 a, coord_shift)) in Hrows.
  cbv beta iota zeta in Hrows. unfold gene_candidates in Hrows.
  set (l := (fun sg : yxz * Z => zip_yxz Z.sub sg.1 coord_shift)
              <$> filter (fun sg : yxz * Z => sg.2 = Z.of_nat g) given) in *.
  assert (0 < length l)%nat as Hl.
  { unfold l. rewrite length_fmap.
    assert ((p, Z.of_nat g) ∈ filter (fun sg : yxz * Z => sg.2 = Z.of_nat g) given)
      as Hin by (by apply list_elem_of_filter).
    destruct (filter _ given); [by apply elem_of_nil in Hin|simpl; lia]. }
  change (n_spots (Yxz l)) with (length l) in Hrows.
  destruct (Nat.ltb_spec 0 (length l)); [|lia].
  apply bind_Ok in Hrows as ([keep nb] & _ & Hrows).
  apply bind_Ok in Hrows as (placed & Hplaced & _).
  by simpl in Hplaced.
Qed.

Lemma foldr_min_le (c : Z) (cs : list Z) :
  Forall (fun x => foldr Z.min c cs ≤ x) (c :: cs).
Proof.
  induction cs as [|d cs IH]; [by repeat constructor|].
  change (foldr Z.min c (d :: cs)) with (Z.min d (foldr Z.min c cs)).
  apply Forall_cons in IH as [IH1 IH2].
  constructor; [lia|]. constructor; [lia|].
  eapply Forall_impl; [exact IH2|]. intros x Hx. simpl in Hx. lia.
Qed.

(** X21: when [get_spots] returns for a given [spot_yxzg], the random
    sample of at most 500 of the given spots is not empty, and every sampled
    spot is a pixel of [pixel_yxz] whose coefficient for the gene of the
    spot is above [coef_thresh]. *)
Theorem get_spots_given_checked pixel_coefs pixel_yxz radius_xy radius_z
    coef_thresh spot_shape thresh (given : list (yxz * Z)) spot_info :
  get_spots detect_spots choice pixel_coefs pixel_yxz radius_xy radius_z
            coef_thresh spot_shape thresh (Some given) = Ok spot_info →
  choice (length given) (Nat.min 500 (length given)) ≠ []
  ∧ ∀ i, i ∈ choice (length given) (Nat.min 500 (length given)) →
      ∃ sg j row c,
        given !! i = Some sg
        ∧ pixel_yxz !! j = Some sg.1
        ∧ coef_rows pixel_coefs !! j = Some row
        ∧ py_get row sg.2 = Some c
        ∧ coef_thresh < c.
Proof.
  intros H. apply get_spots_Ok in H as (_ & filters & per & _ & Hcheck & _).
  simpl in Hcheck. unfold check_spot_yxzg in Hcheck.
  apply bind_Ok in Hcheck as (checked & Hchecked & Hcheck).
  apply bind_Ok in Hcheck as (coefs & Hcoefs & Hcheck).
  destruct coefs as [|c cs]; [done|].
  destruct (Z.leb_spec (foldr Z.min c cs) coef_thresh) as [|Hmin]; [done|].
  apply mapM_res_Forall2 in Hchecked, Hcoefs.
  split.
  { intros Hnil. rewrite Hnil in Hchecked.
    apply Forall2_nil_inv_l in Hchecked as ->.
    by apply Forall2_nil_inv_l in Hcoefs. }
  intros i Hi. apply list_elem_of_lookup in Hi as [k Hk].
  destruct (Forall2_lookup_l _ _ _ _ _ Hchecked Hk) as (sg & Hsg & Hgiven).
  destruct (Forall2_lookup_l _ _ _ _ _ Hcoefs Hsg) as (c' & Hc' & Hcoef).
  apply of_option_Ok in Hgiven.
  apply bind_Ok in Hcoef as (j & Hj & Hcoef). apply of_option_Ok in Hcoef.
  unfold indices in Hj. apply of_option_Ok in Hj.
  destruct (list_find _ pixel_yxz) as [[j' q]|] eqn:Hfind; [|done].
  injection Hj as ->. apply list_find_Some in Hfind as (Hq & -> & _).
  destruct (coef_rows pixel_coefs !! j) as [row|] eqn:Hrow; [|done].
  exists sg, j, row, c'. repeat (split; [done|]).
  pose proof (proj1 (Forall_lookup _ _) (foldr_min_le c cs) _ _ Hc') as Hle.
  simpl in Hle. lia.
Qed.

End GetSpotsRows.

Lemma get_spots_genes_in_order_witness :
  StronglySorted Z.le
    (row_gene <$> [(0, 0, 0, 0, Some (1, 0)); (1, 0, 0, 0, Some (1, 1))])
  ∧ Forall (fun row => 0 ≤ row_gene row < Z.of_nat (n_genes example_coefs))
           [(0, 0, 0, 0, Some (1, 0)); (1, 0, 0, 0, Some (1, 1))].
Proof.
  apply (get_spots_genes_in_order example_detect_spots example_choice
           example_coefs example_yxz 1 None 0 (Some (Arr3 [[[1; 0]; [-1; 0]]])) 0 None).
  reflexivity.
Defined.

Lemma get_spots_without_shape_witness :
  ∃ per_gene,
    ([(0, 0, 0, 0, None); (1, 0, 0, 0, None); (1, 1, 0, 0, None)]
     : list spot_info_row) = concat per_gene
    ∧ length per_gene = n_genes example_coefs.
Proof.
  destruct (proj2 (get_spots_without_shape example_detect_spots example_choice
                     example_coefs example_yxz 1 None 0 0 None)
              [(0, 0, 0, 0, None); (1, 0, 0, 0, None); (1, 1, 0, 0, None)])
    as (per_gene & Hconcat & Hlen & _).
  - reflexivity.
  - exists per_gene. split; [exact Hconcat|exact Hlen].
Defined.

Lemma get_spots_counts_bounded_witness :
  Forall (fun row =>
            ∃ c d, row_neighbours row = Some (c, d)
                   ∧ 0 < c ≤ np_sum (amap positive (Arr3 [[[1; 0]; [-1; 0]]]))
                   ∧ 0 ≤ d ≤ np_sum (amap negative (Arr3 [[[1; 0]; [-1; 0]]])))
         [(0, 0, 0, 0, Some (1, 0)); (1, 0, 0, 0, Some (1, 1))].
Proof.
  apply (get_spots_counts_bounded example_detect_spots example_choice
           example_coefs example_yxz 1 None 0 (Arr3 [[[1; 0]; [-1; 0]]]) 0 None).
  - split; [reflexivity|]. repeat constructor.
  - reflexivity.
Defined.

Lemma get_spots_given_single_plane_witness :
  ∃ e, get_spots example_detect_spots example_choice
                 {| sparse := true; n_genes := 1; coef_rows := [[1]; [2]] |}
                 [(0, 0, 0); (0, 1, 0)] 1 None 0 None 0 (Some [((0, 1, 0), 0)])
       = Err e.
Proof.
  apply (get_spots_given_single_plane example_detect_spots example_choice
           {| sparse := true; n_genes := 1; coef_rows := [[1]; [2]] |}
           [(0, 0, 0); (0, 1, 0)] 1 None 0 None 0 [((0, 1, 0), 0)] 0
           [[1; 2]] (0, 0, 0)).
  - simpl. lia.
  - reflexivity.
  - exists (0, 1, 0). by left.
Defined.

Lemma get_spots_given_checked_witness :
  example_choice 1 (Nat.min 500 1) ≠ []
  ∧ ∀ i, i ∈ example_choice 1 (Nat.min 500 1) →
      ∃ sg j row c,
        [((1, 1, 1), 0)] !! i = Some sg
        ∧ example_yxz !! j = Some sg.1
        ∧ coef_rows example_coefs !! j = Some row
        ∧ py_get row sg.2 = Some c
        ∧ 0 < c.
Proof.
  apply (get_spots_given_checked example_detect_spots example_choice
           example_coefs example_yxz 1 None 0 None 0 [((1, 1, 1), 0)]
           [(1, 1, 1, 0, None)]).
  reflexivity.
Defined.

(** ** [call_spots_omp]: the pixels of a tile stay in step *)

Lemma select_zip {A B} (mask : list bool) (a : list A) (b : list B) :
  select mask (zip a b) = zip (select mask a) (select mask b).
Proof.
  revert a b. induction mask as [|m mask IH]; intros a b.
  - by destruct a, b.
  - destruct a as [|x a], b as [|y b]; simpl.
    + done.
    + by destruct m.
    + destruct m; [|by destruct (select mask a)]. done.
    + destruct m; simpl; by rewrite IH.
Qed.

Lemma select_filter_snd {A B} (f : B → bool) (a : list A) (b : list B) :
  select (f <$> b) (zip a b) = filter (fun pr : A * B => f pr.2 = true) (zip a b).
Proof.
  revert b. induction a as [|x a IH]; intros [|y b]; simpl; try done.
  rewrite filter_cons. simpl. destruct (f y); simpl; by rewrite IH.
Qed.

Lemma length_select_fmap {A B} (f : B → bool) (a : list A) (b : list B) :
  length a = length b → length (select (f <$> b) a) = length (select (f <$> b) b).
Proof.
  revert b. induction a as [|x a IH]; intros [|y b]; simpl; try done.
  intros [= H]. destruct (f y); simpl; by rewrite IH.
Qed.

(** X22: when every z-plane has as many locations as rows of coefficients,
    the locations and the coefficient rows kept for a tile stay aligned:
    they are, in the order of the planes, exactly the pairs of a location
    and its row in which some coefficient is non-zero. *)
Theorem tile_pixels_aligned (n : nat) (planes : list (list yxz * list (list Z))) :
  Forall (fun pl : list yxz * list (list Z) => length pl.1 = length pl.2) planes →
  length (tile_pixels n planes).1 = n_pixels (tile_pixels n planes).2
  ∧ zip (tile_pixels n planes).1 (coef_rows (tile_pixels n planes).2)
    = filter (fun pr : yxz * list Z => keep_pixel pr.2 = true)
             (concat ((fun pl : list yxz * list (list Z) => zip pl.1 pl.2) <$> planes)).
Proof.
  intros Hplanes. unfold tile_pixels, n_pixels. simpl.
  assert (∀ acc : list yxz * list (list Z),
            length acc.1 = length acc.2 →
            length (foldl append_plane acc planes).1
            = length (foldl append_plane acc planes).2
            ∧ zip (foldl append_plane acc planes).1 (foldl append_plane acc planes).2
              = zip acc.1 acc.2
                ++ filter (fun pr : yxz * list Z => keep_pixel pr.2 = true)
                     (concat ((fun pl : list yxz * list (list Z) => zip pl.1 pl.2)
                              <$> planes))) as H.
  { induction Hplanes as [|pl planes Hpl _ IH]; intros acc Hacc.
    - simpl. split; [done|]. by rewrite app_nil_r.
    - simpl.
      assert (length (append_plane acc pl).1 = length (append_plane acc pl).2) as Hlen.
      { unfold append_plane. simpl. rewrite !length_app, Hacc.
        by rewrite (length_select_fmap keep_pixel pl.1 pl.2 Hpl). }
      destruct (IH _ Hlen) as [IH1 IH2]. split; [done|].
      rewrite IH2. unfold append_plane. simpl.
      rewrite zip_with_app by done.
      rewrite filter_app, app_assoc. do 2 f_equal.
      fold (zip (select (keep_pixel <$> pl.2) pl.1) (select (keep_pixel <$> pl.2) pl.2)).
      by rewrite <- select_zip, select_filter_snd. }
  by apply (H ([], [])).
Qed.

Lemma tile_pixels_aligned_witness :
  length (tile_pixels 2 [([(0, 0, 0); (0, 1, 0)], [[0; 0]; [1; 0]]);
                         ([(3, 3, 1)], [[0; -2]])]).1
  = n_pixels (tile_pixels 2 [([(0, 0, 0); (0, 1, 0)], [[0; 0]; [1; 0]]);
                             ([(3, 3, 1)], [[0; -2]])]).2.
Proof.
  apply (tile_pixels_aligned 2 [([(0, 0, 0); (0, 1, 0)], [[0; 0]; [1; 0]]);
                                ([(3, 3, 1)], [[0; -2]])]).
  repeat constructor.
Defined.

(** ** [call_spots_omp]: duplicates *)

(** X23: of two spots found on different tiles at the same global yx
    position, at most one is marked as not duplicate. *)
Theorem duplicates_kept_once (kneighbors : list (Q * Q) → Q * Q → nat)
    tile_origin tile_centre spot_info keep (i j : nat) (s1 s2 : yxz * Z)
    (g1 g2 : Q * Q * Q) :
  not_duplicate kneighbors tile_origin tile_centre spot_info = Ok keep →
  spot_info !! i = Some s1 → spot_info !! j = Some s2 →
  spot_global_yxz tile_origin s1 = Ok g1 →
  spot_global_yxz tile_origin s2 = Ok g2 →
  g1.1 = g2.1 → s1.2 ≠ s2.2 →
  ¬ (keep !! i = Some true ∧ keep !! j = Some true).
Proof.
  intros Hkeep Hi Hj Hg1 Hg2 Hsame Htiles [Hki Hkj].
  destruct (not_duplicate_lookup _ _ _ _ _ _ _ Hkeep Hi) as (_ & o1 & Ho1 & Hk1).
  destruct (not_duplicate_lookup _ _ _ _ _ _ _ Hkeep Hj) as (_ & o2 & Ho2 & Hk2).
  unfold spot_global_yxz in Hg1, Hg2. rewrite Ho1 in Hg1. rewrite Ho2 in Hg2.
  injection Hg1 as <-. injection Hg2 as <-.
  rewrite Hk1 in Hki. rewrite Hk2 in Hkj.
  injection Hki as Hki. injection Hkj as Hkj.
  apply Z.eqb_eq in Hki, Hkj. simpl in Hsame. rewrite Hsame in Hki. congruence.
Qed.

Lemma duplicates_kept_once_witness :
  not_duplicate brute_kneighbors [(0, 0, 0); (0, 10, 0)]%Q (11 # 2, 11 # 2, 0)%Q
                [((5, 5, 0), 0); ((5, 11, 0), 0); ((5, 1, 0), 1)]
  = Ok [true; false; true]
  ∧ ¬ ([true; false; true] !! 1%nat = Some true
       ∧ [true; false; true] !! 2%nat = Some true).
Proof.
  split; [reflexivity|].
  apply (duplicates_kept_once brute_kneighbors
           [(0, 0, 0); (0, 10, 0)]%Q (11 # 2, 11 # 2, 0)%Q
           [((5, 5, 0), 0); ((5, 11, 0), 0); ((5, 1, 0), 1)]
           [true; false; true] 1 2 ((5, 11, 0), 0) ((5, 1, 0), 1)
           (5 # 1, 11 # 1, 0 # 1)%Q (5 # 1, 11 # 1, 0 # 1)%Q);
    try reflexivity.
  discriminate.
Defined.

Section SingleTile.

Variable kneighbors : list (Q * Q) → Q * Q → nat.

Hypothesis kneighbors_nearest :
  ∀ centres p, centres ≠ [] →
    ∃ c, centres !! kneighbors centres p = Some c
         ∧ ∀ c', c' ∈ centres → (dist2 p c <= dist2 p c')%Q.

(** X24: with a single tile, the removal of duplicates keeps every spot of
    a non-empty [spot_info], in its order. *)
Theorem single_tile_no_duplicates (origin tile_centre : Q * Q * Q)
    (spot_info : list (yxz * Z)) :
  spot_info ≠ [] →
  Forall (fun spot : yxz * Z => spot.2 = 0) spot_info →
  remove_duplicates kneighbors [origin] tile_centre spot_info = Ok spot_info.
Proof.
  intros Hne Htile. unfold remove_duplicates.
  destruct (not_duplicate_total kneighbors [origin] tile_centre spot_info Hne)
    as (keep & Hkeep & Hlen).
  { eapply Forall_impl; [exact Htile|]. intros spot Hs. simpl in *. lia. }
  rewrite Hkeep. simpl. f_equal.
  assert (keep = replicate (length spot_info) true) as ->; [|apply select_true].
  apply list_eq. intros i.
  destruct (spot_info !! i) as [spot|] eqn:Hi.
  - destruct (not_duplicate_lookup _ _ _ _ _ _ _ Hkeep Hi) as (_ & o & _ & ->).
    rewrite lookup_replicate_2 by (by eapply lookup_lt_Some).
    f_equal. rewrite (proj1 (Forall_lookup _ _) Htile _ _ Hi).
    apply Z.eqb_eq.
    destruct (kneighbors_nearest
                ((fun c : Q * Q * Q => c.1)
                   <$> ((fun o : Q * Q * Q => add_q3 o tile_centre) <$> [origin]))
                (add_q3 (q3_of_yxz spot.1) o).1) as (c & Hc & _); [done|].
    apply lookup_lt_Some in Hc. rewrite !length_fmap in Hc.
    change (length [origin]) with 1%nat in Hc. lia.
  - apply lookup_ge_None in Hi.
    rewrite (lookup_ge_None_2 keep) by lia.
    symmetry. apply lookup_ge_None_2. rewrite length_replicate. lia.
Qed.

End SingleTile.

Lemma single_tile_no_duplicates_witness :
  remove_duplicates brute_kneighbors [(0, 0, 0)%Q] (5, 5, 0)%Q
                    [((1, 2, 0), 0); ((9, 9, 1), 0)]
  = Ok [((1, 2, 0), 0); ((9, 9, 1), 0)].
Proof.
  apply (single_tile_no_duplicates brute_kneighbors brute_kneighbors_nearest).
  - done.
  - repeat constructor.
Defined.

(** ** [call_spots_omp]: the order of the tiles *)

(** X25: when the central tile is one of the tiles in use, the tile order
    of [call_spots_omp] starts with the central tile and is a permutation of
    the tiles in use. *)
Theorem centre_first_permutation (use_tiles : list Z) (t_centre : Z) :
  t_centre ∈ use_tiles →
  ∃ tiles, centre_first use_tiles t_centre = Ok tiles
           ∧ head tiles = Some t_centre
           ∧ tiles ≡ₚ use_tiles.
Proof.
  intros Hin. unfold centre_first.
  destruct (list_find (fun t => t = t_centre) use_tiles) as [[i c]|] eqn:Hfind.
  2: { apply list_find_None in Hfind.
       by apply (proj1 (Forall_forall _ _) Hfind) in Hin. }
  apply list_find_Some in Hfind as (Hi & -> & _). simpl.
  destruct use_tiles as [|x l]; [done|]. simpl. rewrite Hi. simpl.
  eexists. split; [done|].
  destruct i as [|i]; simpl.
  - injection Hi as ->. done.
  - simpl in Hi. split; [done|].
    rewrite <- (take_drop_middle l i t_centre Hi) at 2.
    rewrite insert_take_drop by (by eapply lookup_lt_Some).
    rewrite <- Permutation_middle. rewrite (Permutation_swap x t_centre).
    by rewrite <- Permutation_middle.
Qed.

Lemma centre_first_permutation_witness :
  ∃ tiles, centre_first [4; 7; 2; 9] 2 = Ok tiles
           ∧ head tiles = Some 2
           ∧ tiles ≡ₚ [4; 7; 2; 9].
Proof.
  apply (centre_first_permutation [4; 7; 2; 9] 2).
  by do 2 right; left.
Defined.

(** ** [spot_neighbourhood]: the filter of positive neighbours *)

Lemma sumZ_replicate (n : nat) (c : Z) : sumZ (replicate n c) = Z.of_nat n * c.
Proof.
  induction n as [|n IH]; [done|].
  change (c + sumZ (replicate n c) = Z.of_nat (S n) * c). lia.
Qed.

Lemma sumZ_insert (l : list Z) (i : nat) (old v : Z) :
  l !! i = Some old → sumZ (<[i := v]> l) = sumZ l - old + v.
Proof.
  revert i. induction l as [|x l IH]; intros [|i] Hi; try done.
  - injection Hi as ->. change (v + sumZ l = old + sumZ l - old + v). lia.
  - change (x + sumZ (<[i := v]> l) = x + sumZ l - old + v).
    rewrite (IH i Hi). lia.
Qed.

Lemma sumZ_insert_fmap {A} (f : A → Z) (l : list A) (i : nat) (old v : A) :
  l !! i = Some old → sumZ (f <$> <[i := v]> l) = sumZ (f <$> l) - f old + f v.
Proof.
  intros Hi. rewrite list_fmap_insert. apply sumZ_insert.
  by rewrite list_lookup_fmap, Hi.
Qed.

Lemma sum3_set3 (a a' : list (list (list Z))) (y x z v : Z) :
  set3 a y x z v = Ok a' →
  ∃ old, get3 a y x z = Ok old ∧ sum3 a' = sum3 a - old + v.
Proof.
  unfold set3, get3, py_get. intros H. apply of_option_Ok in H.
  destruct (py_index (length a) y) as [i|]; [|done]. simpl in *.
  destruct (a !! i) as [p|] eqn:Hp; [|done]. simpl in *.
  destruct (py_index (length p) x) as [j|]; [|done]. simpl in *.
  destruct (p !! j) as [r|] eqn:Hr; [|done]. simpl in *.
  destruct (py_index (length r) z) as [k|] eqn:Hk; [|done]. simpl in *.
  injection H as <-.
  assert (k < length r)%nat as Hlt.
  { unfold py_index in Hk.
    repeat match type of Hk with
           | context [if ?c then _ else _] => destruct c eqn:?
           end; simplify_eq; lia. }
  destruct (lookup_lt_is_Some_2 r k Hlt) as [old Hold].
  exists old. rewrite Hold. split; [done|].
  unfold sum3. rewrite (sumZ_insert_fmap sum2 a i p) by done.
  unfold sum2. rewrite (sumZ_insert_fmap sumZ p j r) by done.
  rewrite (sumZ_insert r k old v) by done. lia.
Qed.

Lemma set3_Forall (P : Z → Prop) (a a' : list (list (list Z))) (y x z v : Z) :
  Forall (Forall (Forall P)) a → P v → set3 a y x z v = Ok a' →
  Forall (Forall (Forall P)) a'.
Proof.
  intros Ha Hv. unfold set3. intros H. apply of_option_Ok in H.
  destruct (py_index (length a) y) as [i|]; [|done]. simpl in H.
  destruct (a !! i) as [p|] eqn:Hp; [|done]. simpl in H.
  destruct (py_index (length p) x) as [j|]; [|done]. simpl in H.
  destruct (p !! j) as [r|] eqn:Hr; [|done]. simpl in H.
  destruct (py_index (length r) z) as [k|]; [|done]. simpl in H.
  injection H as <-.
  pose proof (proj1 (Forall_lookup _ _) Ha _ _ Hp) as Hpp.
  pose proof (proj1 (Forall_lookup _ _) Hpp _ _ Hr) as Hrr.
  apply Forall_insert; [done|]. apply Forall_insert; [done|].
  by apply Forall_insert.
Qed.

Lemma pos_filter_shape_yx_spec (thresh : Z) :
  0 ≤ thresh →
  let s := pos_filter_shape_yx thresh in
  0 < s ∧ Z.odd s = true ∧ thresh ≤ s * s
  ∧ ∀ t, 0 ≤ t → Z.odd t = true → thresh ≤ t * t → s ≤ t.
Proof.
  intros Hthresh. unfold pos_filter_shape_yx.
  set (r := Z.sqrt_up thresh).
  assert (0 ≤ r) as Hr by apply Z.sqrt_up_nonneg.
  assert (thresh ≤ r * r ∧ (0 < thresh → (r - 1) * (r - 1) < thresh)) as [Hup Hlow].
  { destruct (decide (thresh = 0)) as [->|Hpos]; [done|].
    pose proof (Z.sqrt_up_spec thresh ltac:(lia)) as Hspec.
    fold r in Hspec. rewrite <- !Z.pow_2_r. unfold Z.pred in Hspec.
    replace (r - 1) with (r + -1) by lia. lia. }
  assert (∀ t, 0 ≤ t → thresh ≤ t * t → r ≤ t) as Hmin.
  { intros t Ht Hle. destruct (decide (thresh = 0)) as [->|Hpos]; [done|].
    specialize (Hlow ltac:(lia)). nia. }
  rewrite Zmod_odd. simpl.
  destruct (Z.odd r) eqn:Hodd; simpl.
  - split; [|split; [done|split; [done|]]].
    + destruct (decide (r = 0)) as [Hr0|]; [by rewrite Hr0 in Hodd|lia].
    + intros t Ht _. apply Hmin, Ht.
  - split; [lia|]. split; [|split; [nia|]].
    + rewrite Z.odd_add. by rewrite Hodd.
    + intros t Ht Hto Hle. specialize (Hmin t Ht Hle).
      destruct (decide (t = r)) as [->|]; [congruence|lia].
Qed.

Lemma make_pos_filter_plane (s d : Z) (m : nat) :
  0 ≤ s → (m < Z.to_nat d)%nat →
  sum3 (map2 (fun col : list Z => <[m := 1]> col) (full3 s s d 0)) = s * s.
Proof.
  intros Hs Hm. unfold full3, full2, map2, sum3, sum2.
  rewrite !fmap_replicate, !sumZ_replicate.
  rewrite (sumZ_insert _ m 0 1) by (by apply lookup_replicate_2).
  rewrite sumZ_replicate. lia.
Qed.

Lemma rect3_map_cols {A} (f : list A → list A) h w d (a : list (list (list A))) :
  (∀ col, length (f col) = length col) → rect3 h w d a → rect3 h w d (map2 f a).
Proof.
  intros Hf [Hh Ha]. split; [by unfold map2; rewrite length_fmap|].
  unfold map2. apply Forall_fmap. eapply Forall_impl; [exact Ha|].
  intros p [Hw Hp]. simpl. split; [by rewrite length_fmap|].
  apply Forall_fmap. eapply Forall_impl; [exact Hp|].
  intros col Hcol. simpl. by rewrite Hf.
Qed.

Lemma at3_pos_plane (s d : Z) (m i j k : nat) :
  (i < Z.to_nat s)%nat → (j < Z.to_nat s)%nat → (k < Z.to_nat d)%nat →
  at3 (map2 (fun col : list Z => <[m := 1]> col) (full3 s s d 0)) i j k
  = Some (if decide (k = m) then 1 else 0).
Proof.
  intros Hi Hj Hk. unfold at3, map2, full3, full2.
  rewrite list_lookup_fmap, lookup_replicate_2 by done. simpl.
  rewrite list_lookup_fmap, lookup_replicate_2 by done. simpl.
  case_decide as Hkm.
  - subst m. apply list_lookup_insert_eq. by rewrite length_replicate.
  - rewrite list_lookup_insert_ne by done. by apply lookup_replicate_2.
Qed.

Lemma Forall_pos_plane (s d : Z) (m : nat) :
  Forall (Forall (Forall bit))
         (map2 (fun col : list Z => <[m := 1]> col) (full3 s s d 0)).
Proof.
  unfold map2, full3, full2. rewrite !fmap_replicate.
  apply Forall_replicate, Forall_replicate, Forall_insert; [|by right].
  apply Forall_replicate. by left.
Qed.

(** X26: for a threshold [>= 0], the side [s] of the filter with which
    [spot_neighbourhood] looks for the spots to average is the least odd
    number whose square is at least the threshold.  The filter is binary and
    of [s] rows and [s] columns; for [n_z <= 2] it has one plane and [s^2]
    ones, otherwise three planes and [s^2 + 2] ones. *)
Theorem make_pos_filter_spec (thresh n_z : Z) :
  0 ≤ thresh →
  let s := pos_filter_shape_yx thresh in
  Z.odd s = true ∧ thresh ≤ s * s
  ∧ (∀ t, 0 ≤ t → Z.odd t = true → thresh ≤ t * t → s ≤ t)
  ∧ ∃ pos_filter,
      make_pos_filter thresh n_z = Ok pos_filter
      ∧ rect3 (Z.to_nat s) (Z.to_nat s) (if n_z <=? 2 then 1 else 3) pos_filter
      ∧ is_binary (Arr3 pos_filter) = true
      ∧ sum3 pos_filter = s * s + (if n_z <=? 2 then 0 else 2).
Proof.
  intros Hthresh s.
  destruct (pos_filter_shape_yx_spec thresh Hthresh) as (Hs & Hodd & Hle & Hmin).
  fold s in Hs, Hodd, Hle, Hmin.
  split; [done|]. split; [done|]. split; [done|].
  unfold make_pos_filter. fold s.
  destruct (Z.leb_spec n_z 2) as [Hz|Hz].
  - change (1 =? 3) with false. cbv iota.
    eexists. split; [done|]. split; [|split].
    + apply rect3_map_cols; [intros; apply length_insert|]. apply (rect3_full s s 1).
    + apply is_binary_spec. apply Forall_pos_plane.
    + rewrite make_pos_filter_plane; [lia|lia|change (0 < 1)%nat; lia].
  - change (3 =? 3) with true. cbv iota.
    set (m := Z.to_nat (3 / 2)).
    set (p0 := map2 (fun col : list Z => <[m := 1]> col) (full3 s s 3 0)).
    assert (rect3 (Z.to_nat s) (Z.to_nat s) 3 p0) as Hp0.
    { apply rect3_map_cols; [intros; apply length_insert|]. apply (rect3_full s s 3). }
    assert (0 ≤ s / 2 < Z.of_nat (Z.to_nat s)) as Hmid.
    { split; [apply Z.div_pos; lia|]. rewrite Z2Nat.id by lia.
      apply Z.div_lt_upper_bound; lia. }
    destruct (set3_inside _ _ _ p0 (s / 2) (s / 2) 0 1 Hp0 Hmid Hmid ltac:(lia))
      as (a1 & Ha1 & Hrect1 & Hat1).
    destruct (set3_inside _ _ _ a1 (s / 2) (s / 2) 2 1 Hrect1 Hmid Hmid ltac:(lia))
      as (a2 & Ha2 & Hrect2 & Hat2).
    rewrite Ha1. simpl. exists a2. split; [done|]. split; [done|].
    pose proof (Forall_pos_plane s 3 m) as Hb0. fold p0 in Hb0.
    pose proof (set3_Forall bit _ _ _ _ _ _ Hb0 (or_intror eq_refl) Ha1) as Hb1.
    pose proof (set3_Forall bit _ _ _ _ _ _ Hb1 (or_intror eq_refl) Ha2) as Hb2.
    split; [by apply (proj2 (is_binary_spec (Arr3 a2)))|].
    destruct (sum3_set3 _ _ _ _ _ _ Ha1) as (old1 & Hold1 & Hsum1).
    destruct (sum3_set3 _ _ _ _ _ _ Ha2) as (old2 & Hold2 & Hsum2).
    destruct (get3_inside _ _ _ p0 (s / 2) (s / 2) 0 Hp0 Hmid Hmid ltac:(lia))
      as (v1 & Hv1 & Hg1).
    destruct (get3_inside _ _ _ a1 (s / 2) (s / 2) 2 Hrect1 Hmid Hmid ltac:(lia))
      as (v2 & Hv2 & Hg2).
    rewrite Hg1 in Hold1. injection Hold1 as <-.
    rewrite Hg2 in Hold2. injection Hold2 as <-.
    unfold p0 in Hv1. rewrite at3_pos_plane in Hv1 by (simpl; lia).
    rewrite Hat1 in Hv2. rewrite decide_False in Hv2 by (simpl; lia).
    unfold p0 in Hv2. rewrite at3_pos_plane in Hv2 by (simpl; lia).
    simpl in Hv1, Hv2. injection Hv1 as <-. injection Hv2 as <-.
    rewrite Hsum2, Hsum1. unfold p0.
    rewrite make_pos_filter_plane; [lia|lia|change (1 < 3)%nat; lia].
Qed.

Lemma make_pos_filter_spec_witness :
  Z.odd (pos_filter_shape_yx 9) = true ∧ 9 ≤ pos_filter_shape_yx 9 * pos_filter_shape_yx 9
  ∧ ∃ pos_filter,
      make_pos_filter 9 5 = Ok pos_filter
      ∧ sum3 pos_filter = 11.
Proof.
  destruct (make_pos_filter_spec 9 5) as (Hodd & Hle & _ & f & Hf & _ & _ & Hsum);
    [lia|].
  split; [exact Hodd|]. split; [exact Hle|]. exists f. split; [exact Hf|exact Hsum].
Defined.

(** ** [spot_neighbourhood]: the indices of the spots used *)

Lemma StronglySorted_select {A} (R : relation A) (mask : list bool) (l : list A) :
  StronglySorted R l → StronglySorted R (select mask l).
Proof.
  intros Hl. revert mask. induction Hl as [|x l Hl IH Hx]; intros [|b mask];
    simpl; try constructor.
  destruct b; [|apply IH]. constructor; [apply IH|].
  apply Forall_forall. intros y Hy. apply select_sublist in Hy.
  by apply (proj1 (Forall_forall _ _) Hx).
Qed.

Lemma StronglySorted_seq (i n : nat) : StronglySorted lt (seq i n).
Proof.
  revert i. induction n as [|n IH]; intros i; simpl; constructor; [apply IH|].
  apply Forall_forall. intros j Hj. apply elem_of_seq in Hj. lia.
Qed.

Section SpotIndices.

Variable get_spot_images :
  ndarray → list yxz → list Z → list (list (list (list (option Z)))).
Variable get_isolated_points : list (Q * Q * Q) → Q → list bool.
Variable get_average_spot_image :
  list (list (list (list Z))) → list (list (list Q)).

Lemma collect_gene_length pixel_coefs pixel_yxz spot_yxz spot_gene_no pos_filter
    max_size (n : nat) st g st' :
  (length st.2 ≤ n)%nat →
  collect_gene get_spot_images pixel_coefs pixel_yxz spot_yxz spot_gene_no
               pos_filter max_size st g = Ok st' →
  (length st'.2 ≤ n)%nat.
Proof.
  destruct st as [imgs used]. simpl. intros Hn. unfold collect_gene.
  destruct (any _); [|by intros [= <-]].
  intros H. apply bind_Ok in H as ([[im sp] counts] & _ & H).
  destruct (any _); [|by injection H as <-].
  apply bind_Ok in H as (imgs' & _ & [= <-]). simpl.
  rewrite length_zip_with. lia.
Qed.

(** X27: whenever [spot_neighbourhood] returns, [spot_yxz] and
    [spot_gene_no] have the same length, and [spot_indices_used] is a
    strictly increasing list, hence without repetition, of indices of rows
    of [spot_yxz]. *)
Theorem spot_indices_used_sorted pixel_coefs pixel_yxz spot_yxz
    spot_gene_no max_size pos_neighbour_thresh isolation_dist z_scale
    mean_sign_thresh av_spot_image spot_indices_used av_spot_image_float :
  spot_neighbourhood get_spot_images get_isolated_points get_average_spot_image
                     pixel_coefs pixel_yxz spot_yxz spot_gene_no max_size
                     pos_neighbour_thresh isolation_dist z_scale mean_sign_thresh
  = Ok (av_spot_image, spot_indices_used, av_spot_image_float) →
  length spot_yxz = length spot_gene_no
  ∧ StronglySorted lt spot_indices_used
  ∧ NoDup spot_indices_used
  ∧ Forall (fun s => is_Some (spot_yxz !! s) ∧ is_Some (spot_gene_no !! s))
           spot_indices_used.
Proof.
  unfold spot_neighbourhood. intros H.
  destruct (Nat.eqb_spec (length pixel_yxz) (n_pixels pixel_coefs)); [|done].
  destruct (Nat.eqb_spec (length spot_yxz) (length spot_gene_no)) as [Hlen|];
    [|done].
  simpl in H. apply bind_Ok in H as (top & Htop & H).
  destruct (pos_neighbour_thresh <? 0); [done|].
  apply bind_Ok in H as (pos_filter & Hfilter & H).
  apply bind_Ok in H as (sizes & _ & H).
  apply bind_Ok in H as ([[n0 n1] n2] & _ & H).
  apply bind_Ok in H as ([spot_images spots_used] & Hfold & H).
  destruct (negb (any spots_used)); [done|].
  destruct (negb _); [done|]. injection H as <- <- <-.
  split; [done|].
  assert (length spots_used ≤ length spot_gene_no)%nat as Hused.
  { apply (foldM_preserves
             (fun st : list (list (list (list Z))) * list bool =>
                (length st.2 ≤ length spot_gene_no)%nat) _ _ _ _
             (fun b a b' Hb Hc => collect_gene_length _ _ _ _ _ _ _ b a b' Hb Hc))
      in Hfold; [done|].
    simpl. by rewrite length_replicate. }
  split; [|split].
  - apply StronglySorted_select, StronglySorted_select, StronglySorted_seq.
  - apply NoDup_select, NoDup_select, NoDup_seq.
  - apply Forall_forall. intros s Hs.
    do 2 apply select_sublist in Hs. apply elem_of_seq in Hs.
    split; apply lookup_lt_is_Some; lia.
Qed.

End SpotIndices.

Lemma spot_indices_used_sorted_witness :
  length [(0, 0, 0); (1, 1, 0); (2, 2, 0)] = length [0; 0; 0]
  ∧ StronglySorted lt [0%nat; 2%nat]
  ∧ NoDup [0%nat; 2%nat]
  ∧ Forall (fun s => is_Some ([(0, 0, 0); (1, 1, 0); (2, 2, 0)] !! s)
                     ∧ is_Some ([0; 0; 0] !! s))
           [0%nat; 2%nat].
Proof.
  apply (spot_indices_used_sorted example_get_spot_images
           example_get_isolated_points example_get_average_spot_image
           example_coefs example_yxz [(0, 0, 0); (1, 1, 0); (2, 2, 0)] [0; 0; 0]
           [3; 3; 3] 1 1 1 (1 # 2) [[[1]]] [0%nat; 2%nat] [[[1%Q]]]).
  reflexivity.
Defined.

(** ** [spot_neighbourhood]: cropping the average image *)

Lemma sum_select {A} (g : A → Z) (mask : list bool) (l : list A) :
  (length l ≤ length mask)%nat →
  (∀ k x, mask !! k = Some false → l !! k = Some x → g x = 0) →
  sumZ (g <$> select mask l) = sumZ (g <$> l).
Proof.
  revert l. induction mask as [|b mask IH]; intros [|x l] Hlen Hdrop; try done.
  { simpl in Hlen. lia. }
  simpl in Hlen.
  assert (sumZ (g <$> select mask l) = sumZ (g <$> l)) as IH'.
  { apply IH; [lia|]. intros k y Hk Hy. by apply (Hdrop (S k) y). }
  destruct b; simpl.
  - change (g x + sumZ (g <$> select mask l) = g x + sumZ (g <$> l)). lia.
  - change (sumZ (g <$> select mask l) = g x + sumZ (g <$> l)).
    rewrite (Hdrop 0%nat x eq_refl eq_refl). lia.
Qed.

Lemma all_zero2_spec (a : list (list Z)) :
  all_zero2 a = true ↔ Forall (Forall (fun v => v = 0)) a.
Proof.
  unfold all_zero2. rewrite forallb_forall, Forall_forall.
  apply forall_proper. intros r. rewrite <- list_elem_of_In.
  apply forall_proper. intros _.
  rewrite forallb_forall, Forall_forall. apply forall_proper. intros x.
  rewrite <- list_elem_of_In. by rewrite Z.eqb_eq.
Qed.

Lemma sumZ_fmap_zeros (f : Z → Z) (col : list Z) :
  f 0 = 0 → Forall (fun v => v = 0) col → sumZ (f <$> col) = 0.
Proof.
  intros H0. induction 1 as [|x col -> _ IH]; [done|].
  change (f 0 + sumZ (f <$> col) = 0). lia.
Qed.

Lemma sum2_map2_zeros (f : Z → Z) (p : list (list Z)) :
  f 0 = 0 → Forall (Forall (fun v => v = 0)) p → sum2 (map2 f p) = 0.
Proof.
  intros H0. induction 1 as [|col p Hcol _ IH]; [done|].
  change (sumZ (f <$> col) + sum2 (map2 f p) = 0).
  rewrite (sumZ_fmap_zeros f col H0 Hcol). lia.
Qed.

Lemma sum3_map3_fmap (f : Z → Z) (a : list (list (list Z))) :
  sum3 (map3 f a) = sumZ ((fun p => sum2 (map2 f p)) <$> a).
Proof. unfold sum3, map3. by rewrite <- list_fmap_compose. Qed.

Lemma sum2_map2_fmap (f : Z → Z) (p : list (list Z)) :
  sum2 (map2 f p) = sumZ ((fun col => sumZ (f <$> col)) <$> p).
Proof. unfold sum2, map2. by rewrite <- list_fmap_compose. Qed.

Lemma sumZ_fmap_ext_in {A} (f g : A → Z) (l : list A) :
  (∀ x, x ∈ l → f x = g x) → sumZ (f <$> l) = sumZ (g <$> l).
Proof.
  intros H. f_equal. apply list_fmap_ext. intros i x Hi. apply H.
  by eapply list_elem_of_lookup_2.
Qed.

(** X28: cropping the planes, rows and columns of zeros off the average
    spot image of [spot_neighbourhood] removes only zeros: for every
    [v <> 0] the cropped image has as many cells equal to [v] as the image
    before. *)
Theorem crop_zeros_keeps_signs h w d (a : list (list (list Z))) (v : Z) :
  rect3 h w d a → v ≠ 0 →
  count_eq v (Arr3 (crop_zeros a)) = count_eq v (Arr3 a).
Proof.
  intros Ha Hv. simpl.
  set (f := fun x : Z => Z.b2z (x =? v)).
  assert (f 0 = 0) as H0.
  { unfold f. by destruct (Z.eqb_spec 0 v). }
  clearbody f.
  destruct a as [|p0 a0]; [done|].
  set (a := p0 :: a0) in *.
  assert (0 < h)%nat as Hh by (destruct Ha as [<- _]; simpl; lia).
  unfold crop_zeros.
  set (keep_z := _ <$> seq 0 (depth a)).
  set (a1 := map2 (select keep_z) a).
  set (keep_x := _ <$> seq 0 (width a1)).
  set (a2 := (fun p : list (list Z) => select keep_x p) <$> a1).
  set (keep_y := (fun p => negb (all_zero2 p)) <$> a2).
  (* the planes that are removed *)
  assert (sum3 (map3 f (select keep_y a2)) = sum3 (map3 f a2)) as ->.
  { rewrite !sum3_map3_fmap. apply sum_select.
    - unfold keep_y. by rewrite length_fmap.
    - intros k p Hk Hp. unfold keep_y in Hk. rewrite list_lookup_fmap, Hp in Hk.
      injection Hk as Hk. apply negb_false_iff, all_zero2_spec in Hk.
      by apply sum2_map2_zeros. }
  (* the columns that are removed *)
  assert (Forall (fun p : list (list Z) => length p = w) a1) as Hw1.
  { unfold a1, map2. apply Forall_fmap. destruct Ha as [_ Ha].
    eapply Forall_impl; [exact Ha|]. intros p [Hp _]. simpl.
    by rewrite length_fmap. }
  assert (width a1 = w) as Hwidth.
  { unfold width, a1, a, map2. simpl. rewrite length_fmap.
    destruct Ha as [_ Ha]. apply Forall_inv in Ha. apply Ha. }
  assert (sum3 (map3 f a2) = sum3 (map3 f a1)) as ->.
  { rewrite !sum3_map3_fmap. unfold a2. rewrite <- list_fmap_compose.
    apply sumZ_fmap_ext_in. intros p Hp. unfold compose.
    rewrite !sum2_map2_fmap. apply sum_select.
    - unfold keep_x. rewrite length_fmap, length_seq, Hwidth.
      by rewrite (proj1 (Forall_forall _ _) Hw1 p Hp).
    - intros j col Hj Hcol. unfold keep_x in Hj.
      rewrite list_lookup_fmap in Hj.
      destruct (seq 0 (width a1) !! j) as [j'|] eqn:Hseq; [|done].
      apply lookup_seq in Hseq as [-> _].
      apply (inj Some) in Hj. change (0 + j)%nat with j in Hj.
      apply negb_false_iff, all_zero2_spec in Hj.
      apply sumZ_fmap_zeros; [done|].
      assert (default [] (p !! j) ∈ (fun p : list (list Z) => default [] (p !! j)) <$> a1)
        as Hin by (apply list_elem_of_fmap; by exists p).
      rewrite Hcol in Hin. simpl in Hin.
      by apply (proj1 (Forall_forall _ _) Hj). }
  (* the z-planes that are removed *)
  assert (depth a = d ∨ w = 0%nat) as Hdepth.
  { destruct w as [|w']; [by right|left].
    by apply (rect3_depth h (S w') d a Ha Hh ltac:(lia)). }
  rewrite !sum3_map3_fmap. unfold a1.
  change (map2 (select keep_z) a)
    with ((fun r : list (list Z) => select keep_z <$> r) <$> a).
  rewrite <- list_fmap_compose.
  apply sumZ_fmap_ext_in. intros p Hp. unfold compose.
  rewrite !sum2_map2_fmap. rewrite <- list_fmap_compose.
  apply sumZ_fmap_ext_in. intros col Hcol. unfold compose.
  assert (length col = d ∧ length p = w) as [Hlc Hlp].
  { destruct Ha as [_ Ha].
    pose proof (proj1 (Forall_forall _ _) Ha p Hp) as [Hpw Hpc].
    split; [|done]. by apply (proj1 (Forall_forall _ _) Hpc col Hcol). }
  destruct Hdepth as [Hdepth| ->].
  2: { destruct p; [by apply elem_of_nil in Hcol|done]. }
  apply sum_select.
  - unfold keep_z. rewrite length_fmap, length_seq. lia.
  - intros k x Hk Hx. unfold keep_z in Hk. rewrite list_lookup_fmap in Hk.
    destruct (seq 0 (depth a) !! k) as [k'|] eqn:Hseq; [|done].
    apply lookup_seq in Hseq as [-> _].
    apply (inj Some) in Hk. change (0 + k)%nat with k in Hk.
    apply negb_false_iff, all_zero2_spec in Hk.
    assert (x = 0) as ->; [|done].
    assert ((fun col : list Z => default 0 (col !! k)) <$> p
            ∈ (fun p : list (list Z) => (fun col : list Z => default 0 (col !! k)) <$> p)
              <$> a) as Hin by (apply list_elem_of_fmap; by exists p).
    pose proof (proj1 (Forall_forall _ _) Hk _ Hin) as Hrow.
    assert (default 0 (col !! k) ∈ (fun col : list Z => default 0 (col !! k)) <$> p)
      as Hin' by (apply list_elem_of_fmap; by exists col).
    pose proof (proj1 (Forall_forall _ _) Hrow _ Hin') as Hz.
    by rewrite Hx in Hz.
Qed.

Lemma crop_zeros_keeps_signs_witness :
  count_eq 1 (Arr3 (crop_zeros [[[0; 0]; [0; 0]]; [[0; 1]; [0; -1]]]))
  = count_eq 1 (Arr3 [[[0; 0]; [0; 0]]; [[0; 1]; [0; -1]]]).
Proof.
  apply (crop_zeros_keeps_signs 2 2 2 [[[0; 0]; [0; 0]]; [[0; 1]; [0; -1]]] 1).
  - split; [reflexivity|]. repeat constructor.
  - discriminate.
Defined.

(** ** [spot_neighbourhood]: what the crop leaves *)

(** The entry [j] of a selection is the entry of the list at the position
    of the [j]-th true value of the mask. *)
Lemma select_lookup_seq {A} (mask : list bool) (l : list A) (n j : nat) :
  select mask l !! j
  = (s ← select mask (seq n (length mask)) !! j; l !! (s - n)%nat).
Proof.
  revert l n j. induction mask as [|b mask IH]; intros l n j; [done|].
  change (seq n (length (b :: mask))) with (n :: seq (S n) (length mask)).
  destruct l as [|x l].
  { change (select (b :: mask) []) with (@nil A). rewrite lookup_nil.
    destruct (_ !! j) as [s|]; [|done]. simpl. by rewrite lookup_nil. }
  assert (∀ j', select mask l !! j'
                = (s ← select mask (seq (S n) (length mask)) !! j';
                   (x :: l) !! (s - n)%nat)) as Hrec.
  { intros j'. rewrite (IH l (S n) j').
    destruct (select mask (seq (S n) (length mask)) !! j') as [s|] eqn:Hs; [|done].
    simpl. apply list_elem_of_lookup_2, select_sublist, elem_of_seq in Hs.
    by replace (s - n)%nat with (S (s - S n)) by lia. }
  simpl. destruct b; [|apply Hrec].
  destruct j as [|j]; simpl; [by rewrite Nat.sub_diag|apply Hrec].
Qed.

Lemma select_lookup_where {A} (mask : list bool) (l : list A) (j : nat) :
  select mask l !! j = (s ← where_true mask !! j; l !! s).
Proof.
  unfold where_true. rewrite (select_lookup_seq mask l 0 j).
  destruct (_ !! j) as [s|]; [|done]. simpl. by rewrite Nat.sub_0_r.
Qed.

Lemma Forall_select {A} (P : A → Prop) (mask : list bool) (l : list A) :
  Forall P l → Forall P (select mask l).
Proof.
  intros Hl. apply Forall_forall. intros x Hx. apply select_sublist in Hx.
  by apply (proj1 (Forall_forall _ _) Hl).
Qed.

Lemma select_all_false {A} (f : A → bool) (l : list A) :
  Forall (fun x => f x = false) l → select (f <$> l) l = [].
Proof.
  induction 1 as [|x l Hx _ IH]; [done|]. simpl. by rewrite Hx.
Qed.

(** A slice that is not entirely zero has a cell that is not zero. *)
Lemma all_zero2_false (a : list (list Z)) :
  all_zero2 a = false ↔ ∃ i j v, at2 a i j = Some v ∧ v ≠ 0.
Proof.
  split.
  - intros H.
    assert (¬ Forall (Forall (fun v => v = 0)) a) as Hn.
    { intros Ha. apply all_zero2_spec in Ha. congruence. }
    apply not_Forall_Exists in Hn; [|apply _].
    apply Exists_exists in Hn as (r & Hr & Hn).
    apply not_Forall_Exists in Hn; [|apply _].
    apply Exists_exists in Hn as (v & Hv & Hn).
    apply list_elem_of_lookup_1 in Hr as [i Hi].
    apply list_elem_of_lookup_1 in Hv as [j Hj].
    exists i, j, v. unfold at2. rewrite Hi. simpl. by rewrite Hj.
  - intros (i & j & v & Hat & Hv).
    destruct (all_zero2 a) eqn:Ha; [|done].
    apply all_zero2_spec in Ha. unfold at2 in Hat.
    destruct (a !! i) as [r|] eqn:Hi; [|done]. simpl in Hat.
    pose proof (proj1 (Forall_lookup _ _) Ha i r Hi) as Hr.
    by pose proof (proj1 (Forall_lookup _ _) Hr j v Hat).
Qed.

Lemma at3_select_z (mask : list bool) (a : list (list (list Z))) (i j k : nat) :
  at3 (map2 (select mask) a) i j k = (k0 ← where_true mask !! k; at3 a i j k0).
Proof.
  unfold at3, map2. rewrite list_lookup_fmap.
  destruct (a !! i) as [p|]; simpl; [|by destruct (where_true mask !! k)].
  rewrite list_lookup_fmap.
  destruct (p !! j) as [row|]; simpl; [|by destruct (where_true mask !! k)].
  apply select_lookup_where.
Qed.

Lemma at3_select_x (mask : list bool) (a : list (list (list Z))) (i j k : nat) :
  at3 ((fun p : list (list Z) => select mask p) <$> a) i j k
  = (j0 ← where_true mask !! j; at3 a i j0 k).
Proof.
  unfold at3. rewrite list_lookup_fmap.
  destruct (a !! i) as [p|]; simpl; [|by destruct (where_true mask !! j)].
  rewrite select_lookup_where. by destruct (where_true mask !! j).
Qed.

Lemma at3_select_y (mask : list bool) (a : list (list (list Z))) (i j k : nat) :
  at3 (select mask a) i j k = (i0 ← where_true mask !! i; at3 a i0 j k).
Proof.
  unfold at3. rewrite select_lookup_where. by destruct (where_true mask !! i).
Qed.

(** X29: the crop of the average spot image leaves no slab of zeros, at the
    border or inside: every cell of the cropped image shares its y index
    with a non-zero cell, its x index with a non-zero cell and its z index
    with a non-zero cell.  The crop of an image of zeros is the empty
    array. *)
Theorem crop_zeros_tight h w d (a : list (list (list Z))) :
  rect3 h w d a →
  (∀ i j k v0, at3 (crop_zeros a) i j k = Some v0 →
     (∃ j' k' v, at3 (crop_zeros a) i j' k' = Some v ∧ v ≠ 0)
     ∧ (∃ i' k' v, at3 (crop_zeros a) i' j k' = Some v ∧ v ≠ 0)
     ∧ (∃ i' j' v, at3 (crop_zeros a) i' j' k = Some v ∧ v ≠ 0))
  ∧ (Forall (Forall (Forall (fun v => v = 0))) a → crop_zeros a = []).
Proof.
  intros Ha. unfold crop_zeros.
  set (keep_z := (fun k => negb (all_zero2
         ((fun p : list (list Z) => (fun col : list Z => default 0 (col !! k)) <$> p)
            <$> a))) <$> seq 0 (depth a)).
  set (a1 := map2 (select keep_z) a).
  set (keep_x := (fun j => negb (all_zero2
         ((fun p : list (list Z) => default [] (p !! j)) <$> a1)))
       <$> seq 0 (width a1)).
  set (a2 := (fun p : list (list Z) => select keep_x p) <$> a1).
  set (keep_y := (fun p => negb (all_zero2 p)) <$> a2).
  (* a plane of [a2] that has a non-zero cell is kept *)
  assert (∀ i0 j k v, at3 a2 i0 j k = Some v → v ≠ 0 →
            ∃ i, where_true keep_y !! i = Some i0) as Hy.
  { intros i0 j k v Hat Hv. apply where_true_lookup.
    unfold keep_y. rewrite list_lookup_fmap. unfold at3 in Hat.
    destruct (a2 !! i0) as [p|]; [|done]. simpl in *. f_equal.
    apply negb_true_iff, all_zero2_false. by exists j, k, v. }
  (* a column of [a1] that has a non-zero cell is kept *)
  assert (∀ i j0 k v, at3 a1 i j0 k = Some v → v ≠ 0 →
            ∃ j, where_true keep_x !! j = Some j0) as Hx.
  { intros i j0 k v Hat Hv. apply where_true_lookup.
    unfold keep_x. rewrite list_lookup_fmap.
    assert (j0 < width a1)%nat as Hj0.
    { unfold at3 in Hat. destruct (a1 !! i) as [p1|] eqn:Hp1; [|done].
      simpl in Hat. destruct (p1 !! j0) as [row|] eqn:Hrow; [|done].
      apply lookup_lt_Some in Hrow.
      assert (Forall (fun p : list (list Z) => length p = w) a1) as Hw.
      { unfold a1, map2. apply Forall_fmap. destruct Ha as [_ Ha].
        eapply Forall_impl; [exact Ha|]. intros p [Hp _]. simpl.
        by rewrite length_fmap. }
      unfold width. destruct a1 as [|p a1']; [done|]. simpl.
      apply Forall_cons in Hw as [Hw1 Hw].
      rewrite Hw1. rewrite <- (proj1 (Forall_lookup _ _) (Forall_cons_2 _ _ _ Hw1 Hw) i p1 Hp1).
      done. }
    rewrite lookup_seq_lt by done. simpl. f_equal.
    apply negb_true_iff, all_zero2_false. exists i, k, v. split; [|done].
    unfold at2, at3 in *. rewrite list_lookup_fmap.
    destruct (a1 !! i) as [p1|]; [|done]. simpl in *.
    by destruct (p1 !! j0). }
  split.
  - intros i j k v0 Hat.
    rewrite at3_select_y in Hat.
    destruct (where_true keep_y !! i) as [i0|] eqn:Hi0; [|done]. simpl in Hat.
    unfold a2 in Hat. rewrite at3_select_x in Hat.
    destruct (where_true keep_x !! j) as [j0|] eqn:Hj0; [|done]. simpl in Hat.
    unfold a1 in Hat. rewrite at3_select_z in Hat.
    destruct (where_true keep_z !! k) as [k0|] eqn:Hk0; [|done]. simpl in Hat.
    split; [|split].
    + assert (keep_y !! i0 = Some true) as Hk by (apply where_true_lookup; eauto).
      unfold keep_y in Hk. rewrite list_lookup_fmap in Hk.
      destruct (a2 !! i0) as [p2|] eqn:Hp2; [|done]. simpl in Hk.
      apply (inj Some), negb_true_iff, all_zero2_false in Hk as (j' & k' & v & Hv & Hv0).
      exists j', k', v. split; [|done].
      rewrite at3_select_y, Hi0. simpl. unfold at3. by rewrite Hp2.
    + assert (keep_x !! j0 = Some true) as Hk by (apply where_true_lookup; eauto).
      unfold keep_x in Hk. rewrite list_lookup_fmap in Hk.
      destruct (seq 0 (width a1) !! j0) as [j1|] eqn:Hj1; [|done].
      apply lookup_seq in Hj1 as [-> _]. simpl in Hk.
      apply (inj Some), negb_true_iff, all_zero2_false in Hk as (i1 & k' & v & Hv & Hv0).
      assert (at3 a1 i1 j0 k' = Some v) as Hat1.
      { unfold at2, at3 in *. rewrite list_lookup_fmap in Hv.
        destruct (a1 !! i1) as [p1|]; [|done]. simpl in *.
        destruct (p1 !! j0) as [row|]; [done|]. simpl in Hv. by rewrite lookup_nil in Hv. }
      assert (at3 a2 i1 j k' = Some v) as Hat2.
      { unfold a2. by rewrite at3_select_x, Hj0. }
      destruct (Hy i1 j k' v Hat2 Hv0) as [i' Hi'].
      exists i', k', v. split; [|done]. by rewrite at3_select_y, Hi'.
    + assert (keep_z !! k0 = Some true) as Hk by (apply where_true_lookup; eauto).
      unfold keep_z in Hk. rewrite list_lookup_fmap in Hk.
      destruct (seq 0 (depth a) !! k0) as [k1|] eqn:Hk1; [|done].
      apply lookup_seq in Hk1 as [-> _]. simpl in Hk.
      apply (inj Some), negb_true_iff, all_zero2_false in Hk as (i1 & j1 & v & Hv & Hv0).
      assert (at3 a i1 j1 k0 = Some v) as Hat0.
      { unfold at2, at3 in *. rewrite list_lookup_fmap in Hv.
        destruct (a !! i1) as [p|]; [|done]. simpl in *.
        rewrite list_lookup_fmap in Hv.
        destruct (p !! j1) as [row|]; [|done]. simpl in *.
        destruct (row !! k0) as [x|]; simpl in Hv; congruence. }
      assert (at3 a1 i1 j1 k = Some v) as Hat1.
      { unfold a1. by rewrite at3_select_z, Hk0. }
      destruct (Hx i1 j1 k v Hat1 Hv0) as [j' Hj'].
      assert (at3 a2 i1 j' k = Some v) as Hat2.
      { unfold a2. by rewrite at3_select_x, Hj'. }
      destruct (Hy i1 j' k v Hat2 Hv0) as [i' Hi'].
      exists i', j', v. split; [|done]. by rewrite at3_select_y, Hi'.
  - intros Hzero. unfold keep_y. apply select_all_false.
    unfold a2, a1, map2. apply Forall_fmap, Forall_fmap.
    eapply Forall_impl; [exact Hzero|]. intros p Hp. simpl.
    apply negb_false_iff, all_zero2_spec, Forall_select, Forall_fmap.
    eapply Forall_impl; [exact Hp|]. intros row Hrow. simpl.
    by apply Forall_select.
Qed.

Lemma crop_zeros_tight_witness :
  crop_zeros [[[0; 0]; [0; 0]]; [[0; 1]; [0; -1]]] = [[[1]; [-1]]]
  ∧ (∀ i j k v0,
       at3 (crop_zeros [[[0; 0]; [0; 0]]; [[0; 1]; [0; -1]]]) i j k = Some v0 →
       (∃ j' k' v, at3 (crop_zeros [[[0; 0]; [0; 0]]; [[0; 1]; [0; -1]]]) i j' k' = Some v
                   ∧ v ≠ 0)
       ∧ (∃ i' k' v, at3 (crop_zeros [[[0; 0]; [0; 0]]; [[0; 1]; [0; -1]]]) i' j k' = Some v
                     ∧ v ≠ 0)
       ∧ (∃ i' j' v, at3 (crop_zeros [[[0; 0]; [0; 0]]; [[0; 1]; [0; -1]]]) i' j' k = Some v
                     ∧ v ≠ 0)).
Proof.
  split; [reflexivity|].
  apply (crop_zeros_tight 2 2 2 [[[0; 0]; [0; 0]]; [[0; 1]; [0; -1]]]).
  split; [reflexivity|]. repeat constructor.
Defined.
